(** * Unraid companion: the metrics aggregation core

    A shallow embedding of the collectors of [ws-server/server.mjs] and
    [src/preload.js]: the Docker port parser, the CPU and network samplers,
    the array-usage collector, the VM poll cache and the container
    inventory kept fresh by Docker events.

    Conventions of the embedding.
    - A JavaScript string is a [string]; its characters are code units
      below 256.
    - A JavaScript number is a [num]: an exact rational ([Q]) or one of
      the non-finite values [NaN], [+Infinity] and [-Infinity].  Rounding
      of doubles, their overflow and the sign of zero are not modelled: a
      statement that depends on the size of a result bounds the numbers
      it is about.  The clock
      ([Date.now()], in milliseconds) is a [Z].
    - [null] / [undefined] are [None].
    - A function that may throw returns a [completion].
    - The outcome of a command run on the host, and of [JSON.parse] on
      its output, is an argument of the collector that uses it; what is
      written to the console is not modelled.
    - Both programs have a [collectNetworkStats]: they are
      [Server.collectNetworkStats] and [Preload.collectNetworkStats].
      [parseCpuLine], [collectCpuPercent], [round], [clamp] and
      [parseDockerPorts] are the same in both; everything else is the
      WebSocket server's. *)

From Stdlib Require Import ZArith QArith Qround Ascii String.
From stdpp Require Import gmap strings list.

Local Open Scope Z_scope.

(** ** JavaScript string primitives *)

Module Js.

(** [WhiteSpace] and [LineTerminator] code units below 256, as used by
    [String.prototype.trim] and by [\s]. *)
Definition is_ws (c : ascii) : bool :=
  let n := N_of_ascii c in
  ((9 <=? n) && (n <=? 13) || (n =? 32) || (n =? 160))%N.

Definition is_digit (c : ascii) : bool :=
  let n := N_of_ascii c in ((48 <=? n) && (n <=? 57))%N.

Definition is_lower (c : ascii) : bool :=
  let n := N_of_ascii c in ((97 <=? n) && (n <=? 122))%N.

Definition is_upper (c : ascii) : bool :=
  let n := N_of_ascii c in ((65 <=? n) && (n <=? 90))%N.

(** Upper-case letters of Latin-1 other than A-Z: U+00C0..U+00DE
    without the multiplication sign U+00D7. *)
Definition is_upper_latin1 (c : ascii) : bool :=
  let n := N_of_ascii c in
  ((192 <=? n) && (n <=? 222) && negb (n =? 215))%N.

Definition lower_char (c : ascii) : ascii :=
  if is_upper c || is_upper_latin1 c
  then ascii_of_N (N_of_ascii c + 32) else c.

(** [s.toLowerCase()] *)
Fixpoint toLowerCase (s : string) : string :=
  match s with
  | EmptyString => EmptyString
  | String c s' => String (lower_char c) (toLowerCase s')
  end.

Fixpoint trimStart (s : string) : string :=
  match s with
  | String c s' => if is_ws c then trimStart s' else s
  | EmptyString => EmptyString
  end.

(** [s.trim()] *)
Definition trim (s : string) : string :=
  String.rev (trimStart (String.rev (trimStart s))).

(** [s.startsWith(p)] *)
Definition startsWith (s p : string) : bool := String.prefix p s.

(** [s.endsWith(p)] *)
Definition endsWith (s p : string) : bool :=
  String.prefix (String.rev p) (String.rev s).

(** [s.includes(p)] *)
Fixpoint includes (s p : string) : bool :=
  String.prefix p s ||
  match s with
  | EmptyString => false
  | String _ s' => includes s' p
  end.

(** Truthiness of a string: non-empty. *)
Definition truthy (s : string) : bool :=
  match s with EmptyString => false | _ => true end.

(** Truthiness of a possibly missing string property. *)
Definition truthy_opt (o : option string) : bool :=
  match o with Some s => truthy s | None => false end.

(** [a || b] on possibly missing strings. *)
Definition or_else (a b : option string) : option string :=
  if truthy_opt a then a else b.

(** [s.split(sep)] for a one-character separator: always at least one
    piece. *)
Fixpoint split_go (sep : ascii) (cur : string) (s : string) : list string :=
  match s with
  | EmptyString => [String.rev cur]
  | String c s' =>
      if Ascii.eqb c sep
      then String.rev cur :: split_go sep EmptyString s'
      else split_go sep (String c cur) s'
  end.
Definition split (sep : ascii) (s : string) : list string :=
  split_go sep EmptyString s.

(** [s.split(/\s+/)]: a maximal run of white space is one separator. *)
Fixpoint split_ws_go (cur : string) (in_run : bool) (s : string) : list string :=
  match s with
  | EmptyString => [String.rev cur]
  | String c s' =>
      if is_ws c
      then (if in_run then split_ws_go cur true s'
            else String.rev cur :: split_ws_go EmptyString true s')
      else split_ws_go (String c cur) false s'
  end.
Definition split_ws (s : string) : list string :=
  split_ws_go EmptyString false s.

(** [s.slice(0, -1)] *)
Definition drop_last (s : string) : string :=
  match String.rev s with
  | EmptyString => EmptyString
  | String _ r => String.rev r
  end.

End Js.

(** ** A backtracking matcher for the regular expressions of the source

    The fragment needed by [parseDockerPorts]: literals, character
    classes, greedy [+] on a class, greedy [?], sequencing and capture
    groups.  Matching follows ECMAScript: alternatives are explored in
    priority order (greedy first) and the first success wins. *)

Module Regex.

Inductive re : Type :=
| Lit (c : ascii)
| Cls (p : ascii → bool)
| Plus (p : ascii → bool)
| Seq (r1 r2 : re)
| Opt (r : re)
| Cap (n : nat) (r : re).

(** Capture registers; index 0 is unused here. *)
Definition caps := list (option string).

Definition no_caps (n : nat) : caps := replicate n None.

Fixpoint consumed (before after : string) : string :=
  if String.eqb before after then EmptyString
  else match before with
       | EmptyString => EmptyString
       | String c b' => String c (consumed b' after)
       end.

Section Run.
Context {R : Type}.

(** [p+], greedy: take as many characters as possible, give them back
    one at a time while the continuation fails. *)
Fixpoint plus_cls (p : ascii → bool) (s : string)
    (k : string → option R) : option R :=
  match s with
  | String c s' =>
      if p c then
        match plus_cls p s' k with
        | Some r => Some r
        | None => k s'
        end
      else None
  | EmptyString => None
  end.

Fixpoint run (r : re) (s : string) (cs : caps)
    (k : string → caps → option R) : option R :=
  match r with
  | Lit c =>
      match s with
      | String c' s' => if Ascii.eqb c c' then k s' cs else None
      | EmptyString => None
      end
  | Cls p =>
      match s with
      | String c' s' => if p c' then k s' cs else None
      | EmptyString => None
      end
  | Plus p => plus_cls p s (λ s', k s' cs)
  | Seq r1 r2 => run r1 s cs (λ s1 cs1, run r2 s1 cs1 k)
  | Opt r1 =>
      match run r1 s cs k with
      | Some x => Some x
      | None => k s cs
      end
  | Cap n r1 =>
      run r1 s cs (λ s' cs', k s' (<[n := Some (consumed s s')]> cs'))
  end.
End Run.

(** [RegExp.prototype.exec] without the [g] flag: the leftmost start
    position at which the pattern matches. *)
Fixpoint exec (ngroups : nat) (r : re) (s : string) : option caps :=
  match run r s (no_caps (S ngroups)) (λ _ cs, Some cs) with
  | Some cs => Some cs
  | None =>
      match s with
      | EmptyString => None
      | String _ s' => exec ngroups r s'
      end
  end.

Definition group (cs : caps) (n : nat) : option string :=
  match cs !! n with Some o => o | None => None end.

End Regex.

(** ** Docker port parsing ([parseDockerPorts]) *)

Record PortMapping : Type := mkPort {
  hostIp : option string;
  hostPort : option string;
  containerPort : option string;
  protocol : option string;
  display : string
}.

Definition not_colon (c : ascii) : bool := negb (Ascii.eqb c ":").

(** [[a-z]] under the [i] flag. *)
Definition alpha_ci (c : ascii) : bool := Js.is_lower c || Js.is_upper c.

(** [/([^:]+)?:?(\d+)->(\d+)(?:\/([a-z]+))?/i] *)
Definition port_re : Regex.re :=
  Regex.Seq (Regex.Opt (Regex.Cap 1 (Regex.Plus not_colon)))
 (Regex.Seq (Regex.Opt (Regex.Lit ":"))
 (Regex.Seq (Regex.Cap 2 (Regex.Plus Js.is_digit))
 (Regex.Seq (Regex.Lit "-")
 (Regex.Seq (Regex.Lit ">")
 (Regex.Seq (Regex.Cap 3 (Regex.Plus Js.is_digit))
            (Regex.Opt (Regex.Seq (Regex.Lit "/")
                                  (Regex.Cap 4 (Regex.Plus alpha_ci))))))))).

Definition str_or (o : option string) (d : string) : string :=
  match o with
  | Some s => if Js.truthy s then s else d
  | None => d
  end.

(** A value interpolated in a template literal. *)
Definition tpl (o : option string) : string :=
  match o with Some s => s | None => "undefined" end.

Definition parsePortSegment (segment : string) : PortMapping :=
  match Regex.exec 4 port_re segment with
  | None =>
      {| hostIp := None; hostPort := None; containerPort := None;
         protocol := None; display := segment |}
  | Some m =>
      let hostIp :=
        match Regex.group m 1 with
        | Some ip => if Js.truthy ip && Js.includes ip "." then ip else "0.0.0.0"
        | None => "0.0.0.0"
        end in
      let hostPort := Regex.group m 2 in
      let containerPort := Regex.group m 3 in
      let protocol := str_or (Regex.group m 4) "tcp" in
      {| hostIp := Some hostIp; hostPort := hostPort;
         containerPort := containerPort; protocol := Some protocol;
         display := tpl hostPort +:+ "->" +:+ tpl containerPort
                    +:+ "/" +:+ protocol |}
  end.

Definition parseDockerPorts (rawPorts : string) : list PortMapping :=
  if negb (Js.truthy rawPorts) then []
  else
    parsePortSegment <$>
      filter (λ s, Js.truthy s = true) (Js.trim <$> Js.split "," rawPorts).


(** ** JavaScript numbers

    Finite values are exact rationals; the three non-finite values follow
    IEEE 754.  A zero is always the positive zero. *)

Module Num.

Inductive num : Type :=
| Fin (q : Q)
| NaN
| PInf
| NInf.

Definition of_Z (z : Z) : num := Fin (inject_Z z).

Definition inf (negative : bool) : num := if negative then NInf else PInf.

Definition Qneg_b (q : Q) : bool := negb (Qle_bool 0 q).

Definition isFinite (a : num) : bool :=
  match a with Fin _ => true | _ => false end.

Definition neg (a : num) : num :=
  match a with
  | Fin x => Fin (Qred (- x))
  | NaN => NaN
  | PInf => NInf
  | NInf => PInf
  end.

Definition add (a b : num) : num :=
  match a, b with
  | NaN, _ | _, NaN => NaN
  | PInf, NInf | NInf, PInf => NaN
  | PInf, _ | _, PInf => PInf
  | NInf, _ | _, NInf => NInf
  | Fin x, Fin y => Fin (Qred (x + y))
  end.

Definition sub (a b : num) : num := add a (neg b).

Definition mul (a b : num) : num :=
  match a, b with
  | NaN, _ | _, NaN => NaN
  | Fin x, Fin y => Fin (Qred (x * y))
  | Fin x, PInf | PInf, Fin x =>
      if Qeq_bool x 0 then NaN else inf (Qneg_b x)
  | Fin x, NInf | NInf, Fin x =>
      if Qeq_bool x 0 then NaN else inf (negb (Qneg_b x))
  | PInf, PInf | NInf, NInf => PInf
  | PInf, NInf | NInf, PInf => NInf
  end.

Definition div (a b : num) : num :=
  match a, b with
  | NaN, _ | _, NaN => NaN
  | Fin x, Fin y =>
      if Qeq_bool y 0
      then (if Qeq_bool x 0 then NaN else inf (Qneg_b x))
      else Fin (Qred (x / y))
  | Fin _, (PInf | NInf) => Fin 0
  | PInf, Fin y => inf (Qneg_b y)
  | NInf, Fin y => inf (negb (Qneg_b y))
  | (PInf | NInf), (PInf | NInf) => NaN
  end.

(** [a === b] *)
Definition strict_eq (a b : num) : bool :=
  match a, b with
  | Fin x, Fin y => Qeq_bool x y
  | PInf, PInf | NInf, NInf => true
  | _, _ => false
  end.

(** [a < b] *)
Definition ltb (a b : num) : bool :=
  match a, b with
  | NaN, _ | _, NaN => false
  | Fin x, Fin y => negb (Qle_bool y x)
  | NInf, (Fin _ | PInf) => true
  | Fin _, PInf => true
  | _, _ => false
  end.

(** [a > b] *)
Definition gtb (a b : num) : bool := ltb b a.

(** Truthiness: every number but [0] and [NaN]. *)
Definition truthy (a : num) : bool :=
  match a with
  | Fin x => negb (Qeq_bool x 0)
  | NaN => false
  | PInf | NInf => true
  end.

(** [a || b] *)
Definition or_else (a b : num) : num := if truthy a then a else b.

(** [Math.max(a, b)] *)
Definition max (a b : num) : num :=
  match a, b with
  | NaN, _ | _, NaN => NaN
  | PInf, _ | _, PInf => PInf
  | NInf, x | x, NInf => x
  | Fin x, Fin y => if Qle_bool x y then Fin y else Fin x
  end.

(** [Math.min(a, b)] *)
Definition min (a b : num) : num :=
  match a, b with
  | NaN, _ | _, NaN => NaN
  | NInf, _ | _, NInf => NInf
  | PInf, x | x, PInf => x
  | Fin x, Fin y => if Qle_bool x y then Fin x else Fin y
  end.

(** [Math.round(a)]: the nearest integer, ties towards [+Infinity]. *)
Definition round (a : num) : num :=
  match a with
  | Fin x => of_Z (Qfloor (x + (1 # 2)))
  | _ => a
  end.

(** The number is a finite value within the closed interval. *)
Definition within (lo hi : Q) (a : num) : Prop :=
  match a with
  | Fin x => (lo <= x)%Q ∧ (x <= hi)%Q
  | _ => False
  end.

(** The number is a finite, strictly negative value. *)
Definition negative (a : num) : Prop :=
  match a with
  | Fin x => (x < 0)%Q
  | _ => False
  end.

End Num.

Import Num.

(** ** Completions: a normal return or a thrown error *)

Inductive completion (A : Type) : Type :=
| Return (a : A)
| Throw (err : string).
Arguments Return {A} a.
Arguments Throw {A} err.

Definition bind {A B} (c : completion A) (k : A → completion B) : completion B :=
  match c with
  | Return a => k a
  | Throw e => Throw e
  end.

Notation "x ←! c ; k" := (bind c (λ x, k))
  (at level 100, c at next level, right associativity).

(** [try { body } catch (err) { handler }] *)
Definition try_catch {A} (body : completion A)
    (handler : string → completion A) : completion A :=
  match body with
  | Return a => Return a
  | Throw e => handler e
  end.

Definition returns {A} (c : completion A) : Prop :=
  match c with Return _ => True | Throw _ => False end.

(** A conversion from text used to run the collectors on examples: an
    unsigned decimal integer, [NaN] for any other text.  On such text it
    agrees with [Number] and with [Number.parseInt(_, 10)]. *)
Fixpoint decimal_go (acc : Z) (s : string) : option Z :=
  match s with
  | EmptyString => Some acc
  | String c s' =>
      if Js.is_digit c
      then decimal_go (10 * acc + (Z.of_N (N_of_ascii c) - 48)) s'
      else None
  end.

Definition decimal (s : string) : num :=
  match s with
  | EmptyString => NaN
  | _ => match decimal_go 0 s with Some z => of_Z z | None => NaN end
  end.

(** ** Helpers of the source: [round] and [clamp] *)

Definition round (v : num) : num :=
  if negb (isFinite v) then Fin 0
  else div (Num.round (mul v (Fin 100))) (Fin 100).

Definition clamp (v lo hi : num) : num :=
  if negb (isFinite v) then lo
  else Num.min (Num.max v lo) hi.

(** ** Host statistics: CPU sampling

    [Number] and [Number.parseInt(_, 10)] are the platform's conversions
    from text; the collectors are stated for any such conversion. *)

Record CpuTimes : Type := mkCpu { idle : num; total : num }.

Section HostStats.
Variable Number : string → num.

Definition parseCpuLine (line : string) : CpuTimes :=
  let values := Number <$> drop 1 (Js.split_ws (Js.trim line)) in
  let field (i : nat) : num :=
    match values !! i with
    | Some v => Num.or_else v (Fin 0)
    | None => Fin 0
    end in
  {| idle := add (field 3%nat) (field 4%nat);
     total := foldl (λ sum v, add sum (if isFinite v then v else Fin 0))
                    (Fin 0) values |}.

(** The body of [collectCpuPercent] after its two reads. *)
Definition cpuPercentBetween (first second : CpuTimes) : num :=
  let idleDelta := sub (idle second) (idle first) in
  let totalDelta := sub (total second) (total first) in
  let usage :=
    if strict_eq totalDelta (Fin 0) then Fin 0
    else mul (sub (Fin 1) (div idleDelta totalDelta)) (Fin 100) in
  clamp usage (Fin 0) (Fin 100).

(** [collectCpuPercent]: the first line of [/proc/stat], read twice
    400 ms apart. *)
Definition collectCpuPercent (line1 line2 : string) : num :=
  cpuPercentBetween (parseCpuLine line1) (parseCpuLine line2).

(** ** Array usage ([collectArrayUsage] of the WebSocket server) *)

Record ArrayUsage : Type := mkUsage {
  totalTb : num;
  usedTb : num;
  usedPercent : num
}.

Definition zeroUsage : ArrayUsage :=
  {| totalTb := Fin 0; usedTb := Fin 0; usedPercent := Fin 0 |}.

Definition tib (bytes : num) : num :=
  div (div (div (div bytes (Fin 1024)) (Fin 1024)) (Fin 1024)) (Fin 1024).

(** [parts[i]], with [undefined] out of range. *)
Definition part (parts : list string) (i : nat) : option string := parts !! i.

(** [Number(undefined)] is [NaN]. *)
Definition NumberOf (o : option string) : num :=
  match o with Some s => Number s | None => NaN end.

(** The result of [collectArrayUsage] on five fields or more. *)
Definition usageOfParts (parts : list string) : ArrayUsage :=
  let totalBytes := Num.or_else (NumberOf (part parts 1)) (Fin 0) in
  let usedBytes := Num.or_else (NumberOf (part parts 2)) (Fin 0) in
  let fallbackPercent :=
    if Num.truthy totalBytes
    then mul (div usedBytes totalBytes) (Fin 100) else Fin 0 in
  let usedPercent :=
    match part parts 4 with
    | Some p4 =>
        if Js.truthy p4 && Js.endsWith p4 "%"
        then Number (Js.drop_last p4) else fallbackPercent
    | None => fallbackPercent
    end in
  {| totalTb := round (if Num.truthy totalBytes then tib totalBytes else Fin 0);
     usedTb := round (if Num.truthy usedBytes then tib usedBytes else Fin 0);
     usedPercent := clamp usedPercent (Fin 0) (Fin 100) |}.

(** [execAsync('df -B1 /mnt/user | tail -n 1')] either resolves with the
    captured standard output or rejects. *)
Definition collectArrayUsage (df : completion string)
    : completion (option ArrayUsage) :=
  try_catch
    (stdout ←! df;
     let parts := Js.split_ws (Js.trim stdout) in
     if (length parts <? 5)%nat then Return (Some zeroUsage)
     else Return (Some (usageOfParts parts)))
    (λ _err, Return None).

End HostStats.

(** ** Network throughput *)

(** The previous sample ([lastNet], [lastNetSample]). *)
Record NetSample : Type := mkSample {
  last_iface : string;
  last_rxBytes : num;
  last_txBytes : num;
  last_ts : Z
}.

Definition mega : num := Fin 1000000.

Module Server.

Record NetworkStats : Type := mkStats {
  interface : string;
  rxMbps : option num;
  txMbps : option num;
  rxRateMbps : option num;
  txRateMbps : option num
}.

Section Net.
Variable parseInt : string → num.
(** [process.env.NET_IFACE || 'bond0'] *)
Variable INTERFACE : string.

(** [rxFile] and [txFile] are the contents of the two counter files,
    [None] when [fs.existsSync] is false; the second component of the
    result is the new value of the module variable [lastNet]. *)
Definition collectNetworkStats (rxFile txFile : option string) (now : Z)
    (lastNet : option NetSample)
    : option NetworkStats * option NetSample :=
  match rxFile, txFile with
  | Some rxText, Some txText =>
      let rxBytes := parseInt rxText in
      let txBytes := parseInt txText in
      let rates : option num * option num :=
        match lastNet with
        | Some last =>
            if String.eqb (last_iface last) INTERFACE then
              let seconds := div (of_Z (now - last_ts last)) (Fin 1000) in
              if gtb seconds (Fin 0) then
                (Some (div (div (mul (sub rxBytes (last_rxBytes last)) (Fin 8))
                                seconds) mega),
                 Some (div (div (mul (sub txBytes (last_txBytes last)) (Fin 8))
                                seconds) mega))
              else (None, None)
            else (None, None)
        | None => (None, None)
        end in
      (Some {| interface := INTERFACE;
               rxMbps := rates.1; txMbps := rates.2;
               rxRateMbps := rates.1; txRateMbps := rates.2 |},
       Some (mkSample INTERFACE rxBytes txBytes now))
  | _, _ => (None, lastNet)
  end.
End Net.

End Server.

Module Preload.

Record NetworkStats : Type := mkStats {
  interface : string;
  rxBytes : num;
  txBytes : num;
  rxRateMbps : option num;
  txRateMbps : option num
}.

Section Net.
Variable parseInt : string → num.

(** [parseInt(tokens[i], 10)]; a missing token gives [NaN]. *)
Definition parseToken (tokens : list string) (i : nat) : num :=
  match tokens !! i with Some t => parseInt t | None => NaN end.

(** [iface] is [sanitizeInterfaceName(config.networkInterface) || 'eth0'],
    [raw] the outcome of the remote [cat] of the two counter files; the
    second component is the new value of [lastNetSample]. *)
Definition collectNetworkStats (iface : string) (raw : completion string)
    (now : Z) (lastNetSample : option NetSample)
    : completion NetworkStats * option NetSample :=
  match raw with
  | Throw e => (Throw e, lastNetSample)
  | Return text =>
      let tokens :=
        filter (λ t, Js.truthy t = true) (Js.split_ws (Js.trim text)) in
      let rxBytes := parseToken tokens 0 in
      let txBytes := parseToken tokens 1 in
      if negb (isFinite rxBytes) || negb (isFinite txBytes) then
        (Throw ("Unable to parse network stats for interface " +:+ iface),
         lastNetSample)
      else
        let rates : option num * option num :=
          match lastNetSample with
          | Some last =>
              if String.eqb (last_iface last) iface then
                let deltaMs := Z.max (now - last_ts last) 1 in
                let seconds := div (of_Z deltaMs) (Fin 1000) in
                let rxDelta := Num.max (sub rxBytes (last_rxBytes last)) (Fin 0) in
                let txDelta := Num.max (sub txBytes (last_txBytes last)) (Fin 0) in
                if gtb seconds (Fin 0) then
                  (Some (div (div (mul rxDelta (Fin 8)) seconds) mega),
                   Some (div (div (mul txDelta (Fin 8)) seconds) mega))
                else (None, None)
              else (None, None)
          | None => (None, None)
          end in
        (Return {| interface := iface; rxBytes := rxBytes;
                   txBytes := txBytes;
                   rxRateMbps := rates.1; txRateMbps := rates.2 |},
         Some (mkSample iface rxBytes txBytes now))
  end.
End Net.

End Preload.

(** ** Virtual machines: the poll cache ([getVmsSnapshot]) *)

Record VirtualMachine : Type := mkVm {
  vm_name : string;
  vm_state : string;
  vm_running : bool
}.

Record VmsCache : Type := mkVmsCache {
  vms_ts : Z;
  vms_value : list VirtualMachine
}.

Definition VM_CACHE_MS : Z := 60000.

(** [let vmsCache = { ts: 0, value: [] }] *)
Definition vmsCache0 : VmsCache := {| vms_ts := 0; vms_value := [] |}.

(** The hypervisor as seen through [collectVmStats]: the number of polls
    made so far and the outcome of each one (a parsed listing, or a
    rejection of [execAsync]). *)
Record Virsh : Type := mkVirsh {
  virsh_polls : nat;
  virsh_outcome : nat → completion (list VirtualMachine)
}.

Definition collectVmStats (w : Virsh)
    : completion (list VirtualMachine) * Virsh :=
  (virsh_outcome w (virsh_polls w),
   {| virsh_polls := S (virsh_polls w); virsh_outcome := virsh_outcome w |}).

(** [value || []]: an array, even an empty one, is truthy. *)
Definition or_empty {A} (value : list A) : list A := value.

Definition getVmsSnapshot (now : Z) (vmsCache : VmsCache) (w : Virsh)
    : completion (list VirtualMachine) * VmsCache * Virsh :=
  if now - vms_ts vmsCache <? VM_CACHE_MS then
    (Return (vms_value vmsCache), vmsCache, w)
  else
    let '(polled, w') := collectVmStats w in
    match polled with
    | Return vms => (Return vms, {| vms_ts := now; vms_value := vms |}, w')
    | Throw _err => (Return (or_empty (vms_value vmsCache)), vmsCache, w')
    end.

(** ** Containers: construction *)

(** One line of [docker ps --format '{{json .}}'] after [JSON.parse];
    a property that is absent is [None]. *)
Record PsEntry : Type := mkPs {
  ps_ID : option string;
  ps_Names : option string;
  ps_Image : option string;
  ps_Status : option string;
  ps_Ports : option string;
  ps_Labels : option string
}.

(** The outcome of [JSON.parse] on a listing line: a syntax error, the
    value [null], or a value whose properties can be read. *)
Inductive JsonPs : Type :=
| PsBad
| PsNull
| PsValue (entry : PsEntry).

Record NetworkSettings : Type := mkNs {
  ns_IPAddress : option string;
  (** [Object.values(NetworkSettings.Networks)], each with its [IPAddress] *)
  ns_Networks : list (option string)
}.

(** One element of the [docker inspect] array. *)
Record Details : Type := mkDetails {
  d_Id : option string;
  d_NetworkSettings : option NetworkSettings
}.

Record Container : Type := mkContainer {
  id : string;
  name : option string;
  image : option string;
  status : option string;
  running : bool;
  ports : list PortMapping;
  containerIp : option string;
  url : option string;
  icon : option string
}.

Definition resolveContainerIp (details : option Details) : option string :=
  match details with
  | None => None
  | Some d =>
      match d_NetworkSettings d with
      | None => None
      | Some ns =>
          if Js.truthy_opt (ns_IPAddress ns) then ns_IPAddress ns
          else
            match filter (λ ip, Js.truthy_opt ip = true) (ns_Networks ns) with
            | ip :: _ => ip
            | [] => None
            end
      end
  end.

(** The container cache: [{ initialised, list, byId }]. *)
Record ContainersCache : Type := mkCache {
  initialised : bool;
  list_ : list Container;
  byId : gmap string Container
}.

(** [let containersCache = { initialised: false, list: [], byId: new Map() }] *)
Definition containersCache0 : ContainersCache :=
  {| initialised := false; list_ := []; byId := ∅ |}.

(** [l.findIndex(p)]: the first index whose element satisfies [p]. *)
Fixpoint findIndex {A} (p : A → bool) (l : list A) : option nat :=
  match l with
  | [] => None
  | x :: l' => if p x then Some 0%nat else S <$> findIndex p l'
  end.

Definition upsertContainerInCache (container : Container)
    (containersCache : ContainersCache) : ContainersCache :=
  let l := list_ containersCache in
  let l' :=
    match findIndex (λ c, String.eqb (id c) (id container)) l with
    | Some existingIndex => <[existingIndex := container]> l
    | None => l ++ [container]
    end in
  let byId' :=
    if Js.truthy (id container)
    then <[id container := container]> (byId containersCache)
    else byId containersCache in
  {| initialised := initialised containersCache; list_ := l'; byId := byId' |}.

Definition removeContainerFromCache (cid : string)
    (containersCache : ContainersCache) : ContainersCache :=
  if negb (Js.truthy cid) then containersCache
  else
    {| initialised := initialised containersCache;
       list_ := filter (λ c, negb (String.eqb (id c) cid) = true)
                       (list_ containersCache);
       byId := delete cid (byId containersCache) |}.

Definition newline : ascii := "010"%char.

(** An event line after [JSON.parse]. *)
Record Actor : Type := mkActor { actor_ID : option string }.

Record DockerEvent : Type := mkEvent {
  ev_Type : option string;
  ev_id : option string;
  ev_ID : option string;
  ev_Actor : option Actor;
  ev_status : option string;
  ev_Action : option string
}.

(** What [handleDockerEventLine] does with a line. *)
Inductive EventCall : Type :=
| NoCall
| CallRefreshSingleContainer (cid : string)
| CallRemoveContainerFromCache (cid : string).

Section Containers.
(** [JSON.parse] on a listing line and on an event line (a falsy value
    such as [null] is [Return None]). *)
Variable parsePsLine : string → JsonPs.
Variable parseEventLine : string → completion (option DockerEvent).
(** [normalizeUrl(applyDockerTemplate(labels[webui], ports, ctx)) ||
    deriveDockerUrl(ports, containerIp)] and
    [normalizeUrl(applyDockerTemplate(labels[icon], ports, ctx))]: they
    depend on the platform's [URL] parser and are left abstract; the
    arguments are the raw labels, the parsed ports and the container's
    address. *)
Variable resolveUrl resolveIcon :
  string → list PortMapping → option string → option string.

Definition buildContainerFromPsAndInspect (entry : option PsEntry)
    (details : option Details) : option Container :=
  match entry with
  | None => None
  | Some e =>
      match ps_ID e with
      | Some cid =>
          if Js.truthy cid then
            let status := Js.toLowerCase (str_or (ps_Status e) "") in
            let running := Js.startsWith status "up" in
            let ports := parseDockerPorts (str_or (ps_Ports e) "") in
            let labels := str_or (ps_Labels e) "" in
            let containerIp := resolveContainerIp details in
            Some {| id := cid; name := ps_Names e; image := ps_Image e;
                    status := ps_Status e; running := running;
                    ports := ports; containerIp := containerIp;
                    url := resolveUrl labels ports containerIp;
                    icon := resolveIcon labels ports containerIp |}
          else None
      | None => None
      end
  end.

(** [inspectContainers]: [inspected] is the parsed output of
    [docker inspect], or a failure of the command or of [JSON.parse]. *)
Definition inspectContainers (ids : list string)
    (inspected : completion (list Details)) : gmap string Details :=
  match ids with
  | [] => ∅
  | _ =>
      match inspected with
      | Throw _ => ∅
      | Return parsed =>
          foldl (λ (m : gmap string Details) item,
                   match d_Id item with
                   | Some i =>
                       if Js.truthy i
                       then <[String.substring 0 12 i := item]> (<[i := item]> m)
                       else m
                   | None => m
                   end) ∅ parsed
      end
  end.

(** [stdout.trim().split('\n').map((line) => line.trim()).filter(Boolean)] *)
Definition psLinesOf (stdout : string) : list string :=
  filter (λ s, Js.truthy s = true)
         (Js.trim <$> Js.split newline (Js.trim stdout)).

(** The first loop of [fullContainersRefresh]: [null] is pushed before
    the access to its [ID] throws inside the inner [try]. *)
Definition psEntriesOf (psLines : list string) : list (option PsEntry) :=
  omap (λ line,
          match parsePsLine line with
          | PsBad => None
          | PsNull => Some None
          | PsValue e => Some (Some e)
          end) psLines.

Definition idsOf (psEntries : list (option PsEntry)) : list string :=
  omap (λ entry,
          match entry with
          | Some e =>
              match ps_ID e with
              | Some i => if Js.truthy i then Some i else None
              | None => None
              end
          | None => None
          end) psEntries.

(** The second loop; reading [entry.ID] of [null] throws. *)
Fixpoint buildAll (inspectMap : gmap string Details)
    (psEntries : list (option PsEntry))
    (l : list Container) (m : gmap string Container)
    : completion (list Container * gmap string Container) :=
  match psEntries with
  | [] => Return (l, m)
  | None :: _ => Throw "Cannot read properties of null (reading 'ID')"
  | Some e :: rest =>
      let details :=
        match ps_ID e with
        | Some i => inspectMap !! i
        | None => None
        end in
      match buildContainerFromPsAndInspect (Some e) details with
      | None => buildAll inspectMap rest l m
      | Some obj =>
          buildAll inspectMap rest (l ++ [obj])
            (if Js.truthy (id obj) then <[id obj := obj]> m else m)
      end
  end.

(** [ps] is the outcome of [docker ps -a], [inspect] that of
    [docker inspect] on the given ids. *)
Definition fullContainersRefresh (ps : completion string)
    (inspect : list string → completion (list Details))
    (containersCache : ContainersCache) : ContainersCache :=
  let attempt : completion ContainersCache :=
    stdout ←! ps;
    if negb (Js.truthy stdout) || negb (Js.truthy (Js.trim stdout)) then
      Return {| initialised := true; list_ := []; byId := ∅ |}
    else
      let psEntries := psEntriesOf (psLinesOf stdout) in
      let ids := idsOf psEntries in
      let inspectMap :=
        match ids with
        | [] => ∅
        | _ => inspectContainers ids (inspect ids)
        end in
      built ←! buildAll inspectMap psEntries [] ∅;
      Return {| initialised := true; list_ := built.1; byId := built.2 |} in
  match attempt with
  | Return c => c
  | Throw _err =>
      {| initialised := true; list_ := list_ containersCache;
         byId := byId containersCache |}
  end.

(** [ps] is the outcome of the filtered [docker ps], [inspect] that of
    [docker inspect] with its first array element, if any. *)
Definition refreshSingleContainer (cid : string) (ps : completion string)
    (inspect : option string → completion (option Details))
    (containersCache : ContainersCache) : ContainersCache :=
  if negb (Js.truthy cid) then containersCache
  else
    match ps with
    | Throw _ => containersCache
    | Return stdout =>
        if negb (Js.truthy stdout) || negb (Js.truthy (Js.trim stdout)) then
          removeContainerFromCache cid containersCache
        else
          let line :=
            Js.trim (hd EmptyString (Js.split newline (Js.trim stdout))) in
          match parsePsLine line with
          | PsBad => containersCache
          | PsNull => containersCache
          | PsValue e =>
              let details :=
                match inspect (ps_ID e) with
                | Return d => d
                | Throw _ => None
                end in
              match buildContainerFromPsAndInspect (Some e) details with
              | None => containersCache
              | Some obj => upsertContainerInCache obj containersCache
              end
          end
    end.

(** ** Docker events *)

Definition isContainerType (t : string) : bool := String.eqb t "container".

(** [evt.Type && evt.Type !== 'container'] *)
Definition otherType (evt : DockerEvent) : bool :=
  match ev_Type evt with
  | Some t => Js.truthy t && negb (isContainerType t)
  | None => false
  end.

(** [evt.id || evt.ID || (evt.Actor && evt.Actor.ID)] *)
Definition eventId (evt : DockerEvent) : option string :=
  Js.or_else (ev_id evt)
    (Js.or_else (ev_ID evt)
       (match ev_Actor evt with
        | Some a => actor_ID a
        | None => None
        end)).

(** [String(evt.status || evt.Action || '').toLowerCase()] *)
Definition eventAction (evt : DockerEvent) : string :=
  Js.toLowerCase
    (str_or (Js.or_else (ev_status evt) (Js.or_else (ev_Action evt) (Some ""))) "").

(** The two tests on the action, in the order of the source. *)
Definition dispatch (cid action : string) : EventCall :=
  if Js.includes action "create"
     || Js.includes action "start"
     || Js.includes action "restart"
     || Js.includes action "rename"
     || Js.includes action "unpause"
     || Js.includes action "pause"
     || Js.includes action "die"
     || Js.includes action "stop"
  then CallRefreshSingleContainer cid
  else if Js.includes action "destroy" || Js.includes action "remove"
  then CallRemoveContainerFromCache cid
  else NoCall.

(** The body of [handleDockerEventLine] once the line is parsed. *)
Definition handleEvent (evt : DockerEvent) : EventCall :=
  if otherType evt then NoCall
  else
    match eventId evt with
    | Some cid =>
        let action := eventAction evt in
        if negb (Js.truthy cid) || negb (Js.truthy action) then NoCall
        else dispatch cid action
    | None => NoCall
    end.

Definition handleDockerEventLine (line : string) : EventCall :=
  match parseEventLine line with
  | Throw _ => NoCall
  | Return None => NoCall
  | Return (Some evt) => handleEvent evt
  end.

(** The effect of an event line on the cache: the call made by
    [handleDockerEventLine], run on the cache with the outcomes of the
    Docker commands it issues. *)
Definition applyEventLine (line : string) (ps : completion string)
    (inspect : option string → completion (option Details))
    (containersCache : ContainersCache) : ContainersCache :=
  match handleDockerEventLine line with
  | NoCall => containersCache
  | CallRefreshSingleContainer cid =>
      refreshSingleContainer cid ps inspect containersCache
  | CallRemoveContainerFromCache cid =>
      removeContainerFromCache cid containersCache
  end.

End Containers.

(** * Vocabulary of the statements *)

(** The server's answer when no rate is known. *)
Definition noRates (INTERFACE : string) : Server.NetworkStats :=
  Server.mkStats INTERFACE None None None None.

(** The rate formula of the source on a byte delta and an elapsed time in
    milliseconds. *)
Definition mbps (deltaBytes : num) (elapsedMs : Z) : num :=
  div (div (mul deltaBytes (Fin 8)) (div (of_Z elapsedMs) (Fin 1000))) mega.

(** What [upsertContainerInCache] does to the list, by recursion on the
    list: the first entry with the container's id is replaced, and the
    container is appended when there is none. *)
Fixpoint upsertList (container : Container) (l : list Container)
    : list Container :=
  match l with
  | [] => [container]
  | c :: l' =>
      if String.eqb (id c) (id container) then container :: l'
      else c :: upsertList container l'
  end.

(** The entries of a list that carry a given id. *)
Definition entriesWithId (cid : string) (l : list Container) : list Container :=
  filter (λ c, id c = cid) l.

(** At most one container per id. *)
Definition uniqueIds (c : ContainersCache) : Prop := NoDup (id <$> list_ c).

(** The two structures of the cache agree: every listed container has an
    id, no id is listed twice, and [byId] binds exactly the listed ids,
    each to its listed container. *)
Record consistent (c : ContainersCache) : Prop := mkConsistent {
  ids_present : Forall (λ x, Js.truthy (id x) = true) (list_ c);
  ids_unique : NoDup (id <$> list_ c);
  byId_exact : ∀ k x, byId c !! k = Some x ↔ x ∈ list_ c ∧ id x = k
}.

(** The container ids named by a listing, in order of appearance. *)
Definition listedIds (parsePsLine : string → JsonPs) (stdout : string)
    : list string :=
  idsOf (psEntriesOf parsePsLine (psLinesOf stdout)).

(** The Docker daemon names each container once in a listing. *)
Definition listsEachOnce (parsePsLine : string → JsonPs)
    (ps : completion string) : Prop :=
  ∀ stdout, ps = Return stdout → NoDup (listedIds parsePsLine stdout).

(** The action words of the two tests of [handleDockerEventLine]. *)
Definition refreshWords : list string :=
  ["create"; "start"; "restart"; "rename"; "unpause"; "pause"; "die"; "stop"].

Definition removeWords : list string := ["destroy"; "remove"].


(** Stand-ins for [JSON.parse] and for the link resolution, used to run
    the inventory on examples: a listing line is read as the [ID] of a
    running container, an event line as the action of an event on
    container ["c1"], and no link is resolved. *)
Definition sampleParsePs (line : string) : JsonPs :=
  if String.eqb line "null" then PsNull
  else if String.prefix "{" line then PsBad
  else PsValue (mkPs (Some line) (Some line) (Some "nginx") (Some "Up 2 hours")
                     (Some "0.0.0.0:8080->80/tcp") None).

Definition sampleParseEvent (line : string) : completion (option DockerEvent) :=
  if String.prefix "{" line then Throw "Unexpected end of JSON input"
  else Return (Some (mkEvent (Some "container") (Some "c1") None None
                             (Some line) (Some line))).

Definition noLink (_ : string) (_ : list PortMapping) (_ : option string)
    : option string := None.

(** * Further functions of the two programs *)

From stdpp Require pretty.

(** ** More string primitives *)

Module JsStr.

(** [s.indexOf(c)] for a one-character needle; [None] is [-1]. *)
Fixpoint indexOf (c : ascii) (s : string) : option nat :=
  match s with
  | EmptyString => None
  | String c' s' => if Ascii.eqb c' c then Some 0%nat else S <$> indexOf c s'
  end.

(** [s.slice(n)] *)
Fixpoint sliceFrom (n : nat) (s : string) : string :=
  match n, s with
  | O, _ => s
  | S n', String _ s' => sliceFrom n' s'
  | S _, EmptyString => EmptyString
  end.

(** [s.slice(0, n)] *)
Definition sliceTo (n : nat) (s : string) : string := String.substring 0 n s.

(** The string holds the character. *)
Fixpoint has (c : ascii) (s : string) : bool :=
  match s with
  | EmptyString => false
  | String c' s' => Ascii.eqb c' c || has c s'
  end.

(** Every character of the string satisfies the test. *)
Fixpoint all (p : ascii → bool) (s : string) : bool :=
  match s with
  | EmptyString => true
  | String c s' => p c && all p s'
  end.

(** [s.replace(/[^...]/g, '')]: the characters that satisfy the test. *)
Fixpoint keep (p : ascii → bool) (s : string) : string :=
  match s with
  | EmptyString => EmptyString
  | String c s' => if p c then String c (keep p s') else keep p s'
  end.

(** No white space at either end. *)
Definition noEdgeSpace (s : string) : bool :=
  match s with
  | EmptyString => true
  | String c _ =>
      negb (Js.is_ws c) &&
      match String.rev s with
      | String d _ => negb (Js.is_ws d)
      | EmptyString => true
      end
  end.

End JsStr.

(** ** The Docker event stream ([startDockerEventsListener]) *)

(** The loop of the [data] handler: while the buffer holds a newline, cut
    the first line off, trim it, and hand it over unless it is empty.  The
    result is the lines handed to [handleDockerEventLine], in order, and
    the buffer left.  Each turn shortens the buffer, so [fuel] turns
    suffice when [fuel] is the length of the buffer. *)
Fixpoint drainLines (fuel : nat) (buffer : string) : list string * string :=
  match fuel with
  | O => ([], buffer)
  | S fuel' =>
      match JsStr.indexOf newline buffer with
      | None => ([], buffer)
      | Some index =>
          let line := Js.trim (JsStr.sliceTo index buffer) in
          let '(lines, rest) := drainLines fuel' (JsStr.sliceFrom (S index) buffer) in
          (if Js.truthy line then line :: lines else lines, rest)
      end
  end.

(** A chunk as the stream delivers it: a [Buffer] of bytes. *)
Definition Buffer : Type := list Byte.byte.

Section EventStream.
(** [chunk.toString()]: the UTF-8 decoding of the bytes of one chunk.  A
    chunk that ends inside a multi-byte character is decoded with a
    replacement character, so the decoding of two chunks need not be the
    decoding of their bytes taken together. *)
Variable toString : Buffer → string.

(** [child.stdout.on('data', ...)]: [buffer += chunk.toString()], then the
    loop. *)
Definition onStdoutData (buffer : string) (chunk : Buffer)
    : list string * string :=
  let buffer := buffer +:+ toString chunk in
  drainLines (String.length buffer) buffer.

(** The handler run on a sequence of chunks. *)
Fixpoint onStdoutChunks (buffer : string) (chunks : list Buffer)
    : list string * string :=
  match chunks with
  | [] => ([], buffer)
  | chunk :: chunks' =>
      let '(lines, buffer') := onStdoutData buffer chunk in
      let '(lines', rest) := onStdoutChunks buffer' chunks' in
      (lines ++ lines', rest)
  end.

End EventStream.

(** ** The container snapshot ([getContainersSnapshot]) *)

(** The snapshot timer of every client and the event listener run on one
    thread, and a call of [getContainersSnapshot] that finds the cache
    not initialised awaits [fullContainersRefresh]: the Docker commands
    are started at once, other calls begin and events are handled while
    they run, and the cache is written when they have ended.  The program
    is therefore followed one step at a time. *)

(** The call up to its [await]: the list it returns at once, or [None]
    when it starts a full refresh and waits for it. *)
Definition getContainersSnapshot (containersCache : ContainersCache)
    : option (list Container) :=
  if negb (initialised containersCache) then None
  else Some (list_ containersCache).

Inductive SnapshotStep : Type :=
| CallBegins
| RefreshEnds (ps : completion string)
    (inspect : list string → completion (list Details))
| EventHandled (line : string) (ps : completion string)
    (inspect : option string → completion (option Details)).

(** The cache, the number of calls that wait for their refresh, and the
    number of full listings started so far. *)
Record SnapshotState : Type := mkSnapshotState {
  sn_cache : ContainersCache;
  sn_awaiting : nat;
  sn_listings : nat
}.

Section Snapshot.
Variable parsePsLine : string → JsonPs.
Variable parseEventLine : string → completion (option DockerEvent).
Variable resolveUrl resolveIcon :
  string → list PortMapping → option string → option string.

(** One step: a call begins; the refresh that a call waits for ends,
    with the outcomes of its commands, and writes the cache; an event
    line has been handled.  [RefreshEnds] does not occur when no call
    waits. *)
Definition snapshotStep (st : SnapshotState) (step : SnapshotStep)
    : SnapshotState :=
  match step with
  | CallBegins =>
      match getContainersSnapshot (sn_cache st) with
      | Some _ => st
      | None =>
          mkSnapshotState (sn_cache st) (S (sn_awaiting st))
                          (S (sn_listings st))
      end
  | RefreshEnds ps inspect =>
      match sn_awaiting st with
      | O => st
      | S waiting =>
          mkSnapshotState
            (fullContainersRefresh parsePsLine resolveUrl resolveIcon
               ps inspect (sn_cache st))
            waiting (sn_listings st)
      end
  | EventHandled line ps inspect =>
      mkSnapshotState
        (applyEventLine parsePsLine parseEventLine resolveUrl resolveIcon
           line ps inspect (sn_cache st))
        (sn_awaiting st) (sn_listings st)
  end.

Definition snapshotRun (st : SnapshotState) (steps : list SnapshotStep)
    : SnapshotState :=
  foldl snapshotStep st steps.

End Snapshot.

(** The calls that begin in a sequence of steps, and the sequences in
    which no refresh ends. *)
Definition isCall (step : SnapshotStep) : bool :=
  match step with CallBegins => true | _ => false end.

Definition callsBegun (steps : list SnapshotStep) : nat :=
  length (filter (λ step, isCall step = true) steps).

Definition noRefreshEnds (steps : list SnapshotStep) : Prop :=
  Forall (λ step, match step with RefreshEnds _ _ => False | _ => True end)
         steps.

(** ** The listing of virtual machines ([collectVmStats]) *)

(** [s.split(/\s{2,}/)]: a run of two or more white-space characters
    separates; a single one belongs to the piece.  [pending] is a single
    white-space character read but not yet placed, [in_run] tells that a
    separator has just been read. *)
Fixpoint splitWide_go (cur : string) (pending : option ascii) (in_run : bool)
    (s : string) : list string :=
  match s with
  | EmptyString =>
      match pending with
      | Some w => [String.rev (String w cur)]
      | None => [String.rev cur]
      end
  | String c s' =>
      if Js.is_ws c then
        match pending with
        | Some _ => String.rev cur :: splitWide_go EmptyString None true s'
        | None =>
            if in_run then splitWide_go cur None true s'
            else splitWide_go cur (Some c) false s'
        end
      else
        match pending with
        | Some w => splitWide_go (String c (String w cur)) None false s'
        | None => splitWide_go (String c cur) None false s'
        end
  end.

Definition splitWide (s : string) : list string :=
  splitWide_go EmptyString None false s.

(** The callback of the [map]: a row of the table, or [null]. *)
Definition vmOfLine (line : string) : option VirtualMachine :=
  let parts := filter (λ p, Js.truthy p = true) (Js.trim <$> splitWide line) in
  if (length parts <? 3)%nat then None
  else
    match parts !! 1%nat, parts !! 2%nat with
    | Some name, Some state =>
        let state := Js.toLowerCase state in
        Some {| vm_name := name; vm_state := state;
                vm_running := Js.startsWith state "running" |}
    | _, _ => None
    end.

(** The test of the [filter]: not empty, not the header, not the rule
    under it. *)
Definition isVmRow (line : string) : bool :=
  Js.truthy line
  && negb (Js.startsWith (Js.toLowerCase line) "id")
  && negb (Js.startsWith line "-").

(** [collectVmStats] on the outcome of [virsh list --all || true]. *)
Definition collectVmStatsFrom (virsh : completion string)
    : completion (list VirtualMachine) :=
  stdout ←! virsh;
  if negb (Js.truthy stdout) || negb (Js.truthy (Js.trim stdout)) then Return []
  else
    Return (omap vmOfLine
              (filter (λ line, isVmRow line = true)
                      (Js.trim <$> Js.split newline stdout))).

(** ** Docker labels ([parseDockerLabels]) *)

(** The labels object: an assignment to the key [__proto__] of a string
    creates no property. *)
Definition setLabel (acc : gmap string string) (key value : string)
    : gmap string string :=
  if String.eqb key "__proto__" then acc else <[key := value]> acc.

(** The callback of the [reduce]. *)
Definition addLabel (acc : gmap string string) (pair : string)
    : gmap string string :=
  let trimmedPair := Js.trim pair in
  if negb (Js.truthy trimmedPair) then acc
  else
    match JsStr.indexOf "=" trimmedPair with
    | None => acc
    | Some idx =>
        let key := Js.trim (JsStr.sliceTo idx trimmedPair) in
        let value := Js.trim (JsStr.sliceFrom (S idx) trimmedPair) in
        if Js.truthy key && Js.truthy value then setLabel acc key value
        else acc
    end.

Definition parseDockerLabels (rawLabels : string) : gmap string string :=
  if negb (Js.truthy rawLabels) then ∅
  else foldl addLabel ∅ (Js.split "," rawLabels).

(** A label as [parseDockerLabels] can return it: key and value are not
    empty, have no white space at either end and no comma, the key has no
    equals sign and is not [__proto__]. *)
Definition goodLabel (k v : string) : Prop :=
  Js.truthy k = true ∧ Js.truthy v = true
  ∧ JsStr.noEdgeSpace k = true ∧ JsStr.noEdgeSpace v = true
  ∧ JsStr.has "=" k = false ∧ JsStr.has "," k = false
  ∧ JsStr.has "," v = false ∧ k ≠ "__proto__".

(** ** Links of a container ([normalizeUrl], [deriveDockerUrl]) *)

(** One letter under the [i] flag. *)
Definition letter_ci (l : ascii) (c : ascii) : bool :=
  Ascii.eqb (Js.lower_char c) l && (Js.is_lower c || Js.is_upper c).

(** [/^https?:\/\//i] *)
Definition http_re : Regex.re :=
  Regex.Seq (Regex.Cls (letter_ci "h"))
 (Regex.Seq (Regex.Cls (letter_ci "t"))
 (Regex.Seq (Regex.Cls (letter_ci "t"))
 (Regex.Seq (Regex.Cls (letter_ci "p"))
 (Regex.Seq (Regex.Opt (Regex.Cls (letter_ci "s")))
 (Regex.Seq (Regex.Lit ":")
 (Regex.Seq (Regex.Lit "/") (Regex.Lit "/"))))))).

(** [re.test(s)] for a pattern anchored at the start. *)
Definition testAtStart (r : Regex.re) (s : string) : bool :=
  match Regex.run r s [] (λ _ _, Some tt) with
  | Some _ => true
  | None => false
  end.

Section Links.
(** [Number], the test that [new URL(s)] does not throw, and
    [process.env.UNRAID_HOST || null]. *)
Variable Number : string → num.
Variable urlValid : string → bool.
Variable UNRAID_HOST : option string.

(** [UNRAID_HOST || 'localhost'] *)
Definition hostBase : string := str_or UNRAID_HOST "localhost".

Definition checked (candidate : string) : option string :=
  if urlValid candidate then Some candidate else None.

Definition normalizeUrl (url : option string) : option string :=
  match url with
  | None => None
  | Some url =>
      if negb (Js.truthy url) then None
      else
        let trimmed := Js.trim url in
        if negb (Js.truthy trimmed) then None
        else if testAtStart http_re trimmed then checked trimmed
        else if Js.startsWith trimmed "//" then checked ("http:" +:+ trimmed)
        else if Js.startsWith trimmed "/"
        then checked ("http://" +:+ hostBase +:+ trimmed)
        else checked ("http://" +:+ trimmed)
  end.

(** [portNumber === 443 ? 'https' : 'http'] *)
Definition schemeFor (port : string) : string :=
  if strict_eq (Number port) (Fin 443) then "https" else "http".

Definition deriveDockerUrl (ports : list PortMapping)
    (containerIp : option string) : option string :=
  match ports with
  | [] =>
      match containerIp with
      | Some ip => if Js.truthy ip then Some ("http://" +:+ ip) else None
      | None => None
      end
  | first :: _ =>
      match List.find (λ port, Js.truthy_opt (hostPort port)) ports with
      | Some candidate =>
          let hp := tpl (hostPort candidate) in
          Some (schemeFor hp +:+ "://" +:+ hostBase +:+ ":" +:+ hp)
      | None =>
          match containerIp with
          | Some ip =>
              if Js.truthy ip then
                match containerPort first with
                | Some cp =>
                    if Js.truthy cp
                    then Some (schemeFor cp +:+ "://" +:+ ip +:+ ":" +:+ cp)
                    else Some ("http://" +:+ ip)
                | None => Some ("http://" +:+ ip)
                end
              else None
          | None => None
          end
      end
  end.

End Links.

(** ** The interface name of the desktop client ([sanitizeInterfaceName]) *)

(** [[a-zA-Z0-9_.:-]] *)
Definition ifaceChar (c : ascii) : bool :=
  Js.is_lower c || Js.is_upper c || Js.is_digit c
  || Ascii.eqb c "_" || Ascii.eqb c "." || Ascii.eqb c ":" || Ascii.eqb c "-".

Definition sanitizeInterfaceName (name : option string) : option string :=
  match name with
  | Some n => if Js.truthy n then Some (JsStr.keep ifaceChar n) else None
  | None => None
  end.

(** [sanitizeInterfaceName(config.networkInterface) || 'eth0'] *)
Definition interfaceOf (networkInterface : option string) : string :=
  str_or (sanitizeInterfaceName networkInterface) "eth0".

(** ** Uptime for display ([formatDuration] of the desktop client) *)

(** [days], [hours] and [minutes]: [Math.floor] of a quotient is the
    floor division, [%] the remainder with the sign of the dividend. *)
Definition durationParts (seconds : Z) : Z * Z * Z :=
  (seconds / 86400, Z.rem seconds 86400 / 3600, Z.rem seconds 3600 / 60).

Definition formatDuration (seconds : Z) : string :=
  let '(days, hours, minutes) := durationParts seconds in
  let parts :=
    (if days =? 0 then [] else [pretty.pretty days +:+ "d"])
    ++ (if negb (hours =? 0) || negb (days =? 0)
        then [pretty.pretty hours +:+ "h"] else [])
    ++ [pretty.pretty minutes +:+ "m"] in
  String.concat " " parts.

(** ** Host statistics: memory and uptime ([collectHostStats]) *)

Record Memory : Type := mkMemory {
  mem_totalGb : num;
  mem_usedGb : num;
  mem_usedPercent : num
}.

Record HostStats : Type := mkHost {
  uptimeSeconds : num;
  memory : Memory;
  hostname : string;
  cpuPercent : num
}.

Section Host.
(** [Number.parseInt(_, 10)] and [Number]. *)
Variable parseInt : string → num.
Variable Number : string → num.

(** [parseInt(undefined, 10)] is [NaN]. *)
Definition parseIntOf (o : option string) : num :=
  match o with Some s => parseInt s | None => NaN end.

(** [acc[key] = value] on a plain object: a number assigned to
    [__proto__] creates no property. *)
Definition setStat (acc : gmap string num) (key : string) (value : num)
    : gmap string num :=
  if String.eqb key "__proto__" then acc else <[key := value]> acc.

(** The callback of the [reduce]: [const [k, v] = line.split(':')]. *)
Definition addStat (acc : gmap string num) (line : string) : gmap string num :=
  let pieces := Js.split ":" line in
  setStat acc (Js.trim (hd EmptyString pieces)) (parseIntOf (pieces !! 1%nat)).

Definition parseMeminfo (text : string) : gmap string num :=
  foldl addStat ∅ (Js.split newline (Js.trim text)).

Definition kbToGb (kb : num) : num := div (div kb (Fin 1024)) (Fin 1024).

Definition memoryOf (meminfo : gmap string num) : Memory :=
  let totalKb :=
    match meminfo !! "MemTotal" with
    | Some v => Num.or_else v (Fin 0)
    | None => Fin 0
    end in
  let freeKb :=
    match meminfo !! "MemAvailable" with
    | Some v => v
    | None =>
        match meminfo !! "MemFree" with
        | Some v => v
        | None => Fin 0
        end
    end in
  let usedKb := Num.max (sub totalKb freeKb) (Fin 0) in
  let usedPercent :=
    if Num.truthy totalKb then mul (div usedKb totalKb) (Fin 100) else Fin 0 in
  {| mem_totalGb := round (kbToGb totalKb);
     mem_usedGb := round (kbToGb usedKb);
     mem_usedPercent := clamp usedPercent (Fin 0) (Fin 100) |}.

(** [uptime] and [meminfo] are the contents of [/proc/uptime] and
    [/proc/meminfo], [line1] and [line2] the two readings of the first
    line of [/proc/stat]. *)
Definition collectHostStats (uptime meminfo host line1 line2 : string)
    : HostStats :=
  {| uptimeSeconds := parseInt (hd EmptyString (Js.split "." uptime));
     memory := memoryOf (parseMeminfo meminfo);
     hostname := host;
     cpuPercent := collectCpuPercent Number line1 line2 |}.

End Host.

(** A byte counter as the kernel keeps it: 64 bits wide, so not negative
    and below [2^64].  On such counters no step of the rate formula
    leaves the range of doubles. *)
Definition counter64 (v : num) : Prop :=
  match v with
  | Fin x => (0 <= x)%Q ∧ (x < inject_Z (2 ^ 64))%Q
  | _ => False
  end.

(** A stored sample, if any, holds counters. *)
Definition sampleCounters (sample : option NetSample) : Prop :=
  match sample with
  | None => True
  | Some s => counter64 (last_rxBytes s) ∧ counter64 (last_txBytes s)
  end.

(** A rate that is unknown, or finite, not negative and at most
    [2^64]. *)
Definition rateOk (rate : option num) : Prop :=
  match rate with
  | None => True
  | Some (Fin q) => (0 <= q)%Q ∧ (q <= inject_Z (2 ^ 64))%Q
  | Some _ => False
  end.

(** [Number.parseInt(s, 10)]: leading white space is skipped, a sign is
    read, then the longest run of decimal digits; [NaN] when there is no
    digit. *)
Fixpoint digitsPrefix (acc : option Z) (s : string) : option Z :=
  match s with
  | EmptyString => acc
  | String c s' =>
      if Js.is_digit c
      then digitsPrefix
             (Some (10 * default 0 acc + (Z.of_N (N_of_ascii c) - 48))) s'
      else acc
  end.

Definition parseInt10 (s : string) : num :=
  let t := Js.trimStart s in
  let '(negative, body) :=
    match t with
    | String "-" r => (true, r)
    | String "+" r => (false, r)
    | _ => (false, t)
    end in
  match digitsPrefix None body with
  | Some z => of_Z (if negative then - z else z)
  | None => NaN
  end.

(** ** What a pattern can match *)

(** The matches of a pattern, stated without the search: [matches r s cs
    s' cs'] holds when [r] can match a prefix of [s] leaving [s'], taking
    the capture registers from [cs] to [cs']. *)
Fixpoint matches (r : Regex.re) (s : string) (cs : Regex.caps)
    (s' : string) (cs' : Regex.caps) : Prop :=
  match r with
  | Regex.Lit c => s = String c s' ∧ cs' = cs
  | Regex.Cls p => (∃ c, s = String c s' ∧ p c = true) ∧ cs' = cs
  | Regex.Plus p =>
      (∃ w, s = w +:+ s' ∧ w ≠ EmptyString ∧ JsStr.all p w = true) ∧ cs' = cs
  | Regex.Seq r1 r2 =>
      ∃ s1 cs1, matches r1 s cs s1 cs1 ∧ matches r2 s1 cs1 s' cs'
  | Regex.Opt r1 => matches r1 s cs s' cs' ∨ (s' = s ∧ cs' = cs)
  | Regex.Cap n r1 =>
      ∃ cs1, matches r1 s cs s' cs1
             ∧ cs' = <[n := Some (Regex.consumed s s')]> cs1
  end.

(** A non-empty string of characters of one class. *)
Definition run_of (p : ascii → bool) (s : string) : Prop :=
  s ≠ EmptyString ∧ JsStr.all p s = true.

(** The string is empty or starts outside the class. *)
Definition stops (p : ascii → bool) (s : string) : bool :=
  match s with
  | EmptyString => true
  | String c _ => negb (p c)
  end.

(** [/protocol] at the end of a port segment, or nothing. *)
Definition protocolSuffix (proto : option string) : string :=
  match proto with
  | Some p => String "/" p
  | None => EmptyString
  end.

(** The part of [port_re] after the host address:
    [(\d+)->(\d+)(?:\/([a-z]+))?]. *)
Definition port_ports : Regex.re :=
  Regex.Seq (Regex.Cap 2 (Regex.Plus Js.is_digit))
 (Regex.Seq (Regex.Lit "-")
 (Regex.Seq (Regex.Lit ">")
 (Regex.Seq (Regex.Cap 3 (Regex.Plus Js.is_digit))
            (Regex.Opt (Regex.Seq (Regex.Lit "/")
                                  (Regex.Cap 4 (Regex.Plus alpha_ci))))))).

(** ** The inspection map ([inspectContainers]) *)

(** The callback of [parsed.forEach]: an item with an [Id] is stored
    under the [Id] and under its first twelve characters. *)
Definition addInspected (m : gmap string Details) (item : Details)
    : gmap string Details :=
  match d_Id item with
  | Some i =>
      if Js.truthy i
      then <[String.substring 0 12 i := item]> (<[i := item]> m)
      else m
  | None => m
  end.

(** The item is stored under this key: the key is its [Id], not empty,
    or the first twelve characters of it. *)
Definition keyOf (key : string) (item : Details) : Prop :=
  ∃ i, d_Id item = Some i ∧ i ≠ EmptyString
       ∧ (key = i ∨ key = String.substring 0 12 i).

(** ** Sizes of [docker stats] ([parseHumanBytes], [parseUsagePair] of the
    desktop client) *)

(** [[\d.]] *)
Definition digit_or_dot (c : ascii) : bool :=
  Js.is_digit c || Ascii.eqb c ".".

(** [[kKmMgGtTpP]] *)
Definition size_prefix (c : ascii) : bool :=
  existsb (Ascii.eqb c) ["k"; "K"; "m"; "M"; "g"; "G"; "t"; "T"; "p"; "P"]%char.

(** [[bB]] *)
Definition byte_letter (c : ascii) : bool :=
  Ascii.eqb c "b" || Ascii.eqb c "B".

(** [([kKmMgGtTpP]?i?[bB])?] *)
Definition unit_re : Regex.re :=
  Regex.Opt (Regex.Cap 2
    (Regex.Seq (Regex.Opt (Regex.Cls size_prefix))
    (Regex.Seq (Regex.Opt (Regex.Lit "i")) (Regex.Cls byte_letter)))).

(** [/^([\d.]+)\s*([kKmMgGtTpP]?i?[bB])?/]; [\s*] is the greedy choice
    between a run of white space and nothing. *)
Definition bytes_re : Regex.re :=
  Regex.Seq (Regex.Cap 1 (Regex.Plus digit_or_dot))
 (Regex.Seq (Regex.Opt (Regex.Plus Js.is_ws)) unit_re).

(** [s.match(re)] for a pattern anchored at the start. *)
Definition matchAtStart (ngroups : nat) (r : Regex.re) (s : string)
    : option Regex.caps :=
  Regex.run r s (Regex.no_caps (S ngroups)) (λ _ cs, Some cs).

(** The table of multipliers, in the order of the source. *)
Definition multipliers : list (string * num) :=
  [("b", Fin 1); ("kb", Fin 1000); ("mb", Fin 1000000);
   ("gb", Fin 1000000000); ("tb", Fin 1000000000000);
   ("kib", of_Z 1024); ("mib", of_Z (1024 ^ 2));
   ("gib", of_Z (1024 ^ 3)); ("tib", of_Z (1024 ^ 4))].

(** [obj[key]] on an object literal with these own properties. *)
Fixpoint property {A} (key : string) (obj : list (string * A)) : option A :=
  match obj with
  | [] => None
  | (k, v) :: rest => if String.eqb k key then Some v else property key rest
  end.

Section Sizes.
(** [Number.parseFloat] *)
Variable parseFloat : string → num.

(** [text] is [None] when the argument is not a string; the result is
    [None] for [null].  The unit is made of the letters of the pattern,
    so [multipliers[unit]] reads an own property or nothing. *)
Definition parseHumanBytes (text : option string) : option num :=
  match text with
  | None => None
  | Some text =>
      if negb (Js.truthy text) then None
      else
        match matchAtStart 2 bytes_re (Js.trim text) with
        | None => None
        | Some m =>
            let value :=
              match Regex.group m 1 with
              | Some digits => parseFloat digits
              | None => NaN
              end in
            if negb (isFinite value) then None
            else
              let unit := Js.toLowerCase (str_or (Regex.group m 2) "B") in
              let factor :=
                match property unit multipliers with
                | Some f => f
                | None => Fin 1
                end in
              Some (mul value factor)
        end
  end.

(** [{ usedBytes, totalBytes }] as a pair. *)
Definition parseUsagePair (value : option string) : option num * option num :=
  match value with
  | None => (None, None)
  | Some value =>
      if negb (Js.truthy value) then (None, None)
      else
        let parts := Js.trim <$> Js.split "/" value in
        if (length parts <? 2)%nat
        then (parseHumanBytes (parts !! 0%nat), None)
        else (parseHumanBytes (parts !! 0%nat),
              parseHumanBytes (parts !! 1%nat))
  end.

End Sizes.

(** A unit as the pattern reads it: an optional prefix letter, an
    optional [i], and [b] or [B]. *)
Definition sizeUnit (prefix : option ascii) (binary : bool) (b : ascii)
    : string :=
  match prefix with Some c => String c EmptyString | None => EmptyString end
  +:+ (if binary then "i" else EmptyString) +:+ String b EmptyString.

(** The power of the prefixes kilo to tera, in either case. *)
Definition rank (c : ascii) : option Z :=
  if Ascii.eqb (Js.lower_char c) "k" then Some 1
  else if Ascii.eqb (Js.lower_char c) "m" then Some 2
  else if Ascii.eqb (Js.lower_char c) "g" then Some 3
  else if Ascii.eqb (Js.lower_char c) "t" then Some 4
  else None.

(** The longest prefix of characters of one class. *)
Fixpoint leadingRun (p : ascii → bool) (s : string) : string :=
  match s with
  | EmptyString => EmptyString
  | String c s' => if p c then String c (leadingRun p s') else EmptyString
  end.

(** [Number.parseFloat] on a text of digits and dots, the texts the first
    group of [bytes_re] can hold: the digits, a dot and the digits after
    it; a second dot ends the number, and a text without a digit is
    [NaN]. *)
Fixpoint digitsOf (acc : Z) (count : nat) (s : string) : Z * nat * string :=
  match s with
  | String c s' =>
      if Js.is_digit c
      then digitsOf (10 * acc + (Z.of_N (N_of_ascii c) - 48)) (S count) s'
      else (acc, count, s)
  | EmptyString => (acc, count, s)
  end.

Definition parseFloatDigits (s : string) : num :=
  let '(whole, nw, rest) := digitsOf 0 0 s in
  match rest with
  | String "." r =>
      let '(frac, nf, _) := digitsOf 0 0 r in
      if (nw + nf =? 0)%nat then NaN
      else Fin (Qred (inject_Z whole
                      + inject_Z frac / inject_Z (10 ^ Z.of_nat nf)))
  | _ => if (nw =? 0)%nat then NaN else of_Z whole
  end.

(** ** Link templates ([applyDockerTemplate]) *)

(** The replacement text of [s.replace(re, text)] for a pattern without
    capture groups: [$$] is a dollar sign, [$&] the match, [$`] the text
    before it and [$'] the text after it; every other character,
    a dollar sign before a digit included, stands for itself. *)
Fixpoint substitution (matched before after template : string) : string :=
  match template with
  | EmptyString => EmptyString
  | String "$" (String "$" r) =>
      String "$" (substitution matched before after r)
  | String "$" (String "&" r) =>
      matched +:+ substitution matched before after r
  | String "$" (String "`" r) =>
      before +:+ substitution matched before after r
  | String "$" (String "'" r) =>
      after +:+ substitution matched before after r
  | String c r => String c (substitution matched before after r)
  end.

(** [s.replace(re, ...)] with the [g] flag: the matches are looked for
    from left to right, each from the end of the one before, and the
    replaced text is not searched again.  [seen] is the text already
    passed, reversed, and [skip] the number of characters of the current
    match still to pass.  [replacement] receives the capture registers,
    the match, the text before it and the text after it. *)
Fixpoint replaceAll_go (r : Regex.re) (ngroups : nat)
    (replacement : Regex.caps → string → string → string → string)
    (seen : string) (skip : nat) (s : string) : string :=
  match s with
  | EmptyString => EmptyString
  | String c s' =>
      match skip with
      | S k => replaceAll_go r ngroups replacement (String c seen) k s'
      | O =>
          match Regex.run r s (Regex.no_caps (S ngroups))
                  (λ rest cs, Some (rest, cs)) with
          | Some (rest, cs) =>
              let matched := Regex.consumed s rest in
              match matched with
              | EmptyString =>
                  replacement cs matched (String.rev seen) rest
                  +:+ String c (replaceAll_go r ngroups replacement
                                  (String c seen) 0 s')
              | String _ m =>
                  replacement cs matched (String.rev seen) rest
                  +:+ replaceAll_go r ngroups replacement
                        (String c seen) (String.length m) s'
              end
          | None =>
              String c (replaceAll_go r ngroups replacement
                          (String c seen) 0 s')
          end
      end
  end.

Definition replaceAll (r : Regex.re) (ngroups : nat)
    (replacement : Regex.caps → string → string → string → string)
    (s : string) : string :=
  replaceAll_go r ngroups replacement EmptyString 0 s.

(** [/\[IP\]/gi] *)
Definition ip_re : Regex.re :=
  Regex.Seq (Regex.Lit "[")
 (Regex.Seq (Regex.Cls (letter_ci "i"))
 (Regex.Seq (Regex.Cls (letter_ci "p")) (Regex.Lit "]"))).

(** [/\[PORT:(\d+)\]/gi] *)
Definition port_tpl_re : Regex.re :=
  Regex.Seq (Regex.Lit "[")
 (Regex.Seq (Regex.Cls (letter_ci "p"))
 (Regex.Seq (Regex.Cls (letter_ci "o"))
 (Regex.Seq (Regex.Cls (letter_ci "r"))
 (Regex.Seq (Regex.Cls (letter_ci "t"))
 (Regex.Seq (Regex.Lit ":")
 (Regex.Seq (Regex.Cap 1 (Regex.Plus Js.is_digit)) (Regex.Lit "]"))))))).

Section Template.
(** [Number], [String] on a number, and
    [process.env.UNRAID_HOST || null]. *)
Variable Number : string → num.
Variable numberToString : num → string.
Variable UNRAID_HOST : option string.

(** The callback of the second [replace], on the digits captured. *)
Definition portReplacement (ports : list PortMapping) (port : string)
    : string :=
  let portNum := Number port in
  if negb (isFinite portNum) then port
  else
    let matched :=
      match List.find (λ p, strict_eq (NumberOf Number (containerPort p))
                                      portNum) ports with
      | Some p => Some p
      | None =>
          List.find (λ p, strict_eq (NumberOf Number (hostPort p)) portNum)
                    ports
      end in
    match matched with
    | Some p => str_or (hostPort p) (numberToString portNum)
    | None => numberToString portNum
    end.

(** [value] is the label, [None] when it is missing; [containerIp] is
    [context.containerIp]. *)
Definition applyDockerTemplate (value : option string)
    (ports : list PortMapping) (containerIp : option string)
    : option string :=
  match value with
  | None => None
  | Some value =>
      if negb (Js.truthy value) then Some value
      else
        let resolvedIp :=
          str_or containerIp (str_or UNRAID_HOST "localhost") in
        let output :=
          replaceAll ip_re 0
            (λ _ matched before after,
               substitution matched before after resolvedIp) value in
        Some (replaceAll port_tpl_re 1
                (λ cs _ _ _, portReplacement ports (tpl (Regex.group cs 1)))
                output)
  end.

End Template.

(** * Properties *)

(** ** Numbers *)

Lemma Qle_bool_false (x y : Q) : Qle_bool x y = false → (y < x)%Q.
Proof.
  intros H. apply Qnot_le_lt. intros Hle.
  apply Qle_bool_iff in Hle. congruence.
Qed.

Lemma clamp_within (v : num) : within 0 100 (clamp v (Fin 0) (Fin 100)).
Proof.
  destruct v as [q| | |]; cbn; try (split; discriminate).
  destruct (Qle_bool q 0) eqn:Hq0; cbn.
  - split; discriminate.
  - apply Qle_bool_false in Hq0.
    destruct (Qle_bool q 100) eqn:Hq100; cbn.
    + split; [apply Qlt_le_weak, Hq0 | apply Qle_bool_iff, Hq100].
    + split; discriminate.
Qed.

Lemma clamp_zero : clamp (Fin 0) (Fin 0) (Fin 100) = Fin 0.
Proof. reflexivity. Qed.

(** The elapsed time in seconds is positive exactly when the clock has
    advanced. *)
Lemma seconds_positive (d : Z) :
  gtb (div (of_Z d) (Fin 1000)) (Fin 0) = (0 <? d).
Proof.
  unfold gtb, of_Z, div. change (Qeq_bool 1000 0) with false. cbn [ltb].
  destruct (0 <? d) eqn:Hd.
  - apply Z.ltb_lt in Hd.
    destruct (Qle_bool (Qred (inject_Z d / 1000)) 0) eqn:Hle; [|reflexivity].
    apply Qle_bool_iff in Hle. rewrite Qred_correct in Hle.
    unfold Qle, Qdiv, Qmult, Qinv, inject_Z in Hle. cbn in Hle. lia.
  - apply Z.ltb_ge in Hd.
    destruct (Qle_bool (Qred (inject_Z d / 1000)) 0) eqn:Hle; [reflexivity|].
    apply Qle_bool_false in Hle. rewrite Qred_correct in Hle.
    unfold Qlt, Qdiv, Qmult, Qinv, inject_Z in Hle. cbn in Hle. lia.
Qed.

(** ** CPU percentage *)

Lemma cpuPercentBetween_within (first second : CpuTimes) :
  within 0 100 (cpuPercentBetween first second).
Proof. unfold cpuPercentBetween. apply clamp_within. Qed.

(** C7, as stated, at decreasing counters: idle falls from 100 to 90 and
    total from 1000 to 900; the total delta is -100, the guard does not
    fire and the result is 90, not 0. *)
Lemma C7_decreasing_counters_not_zero :
  let first := mkCpu (Fin 100) (Fin 1000) in
  let second := mkCpu (Fin 90) (Fin 900) in
  strict_eq (sub (total second) (total first)) (Fin 0) = false
  ∧ cpuPercentBetween first second = Fin 90
  ∧ cpuPercentBetween first second ≠ Fin 0.
Proof. vm_compute. repeat split; discriminate. Qed.

Lemma Qeq_bool_false_neg (x : Q) : (x < 0)%Q → Qeq_bool x 0 = false.
Proof.
  intros Hx. destruct (Qeq_bool x 0) eqn:He; [|done].
  apply Qeq_bool_iff in He. rewrite He in Hx. by apply Qlt_irrefl in Hx.
Qed.

(** The clamp on a finite number, by cases. *)
Lemma clamp_cases (u : Q) :
  ∃ q, clamp (Fin u) (Fin 0) (Fin 100) = Fin q
       ∧ ((u <= 0)%Q → (q == 0)%Q)
       ∧ ((0 <= u)%Q → (u <= 100)%Q → (q == u)%Q)
       ∧ ((100 <= u)%Q → (q == 100)%Q).
Proof.
  unfold clamp. cbn [isFinite negb Num.max].
  destruct (Qle_bool u 0) eqn:H0.
  - apply Qle_bool_iff in H0. exists 0%Q. split; [done|].
    split; [done|]. split.
    + intros Hu _. by apply Qle_antisym.
    + intros Hu. exfalso. apply (Qle_not_lt _ _ (Qle_trans _ _ _ Hu H0)).
      reflexivity.
  - apply Qle_bool_false in H0. cbn [Num.min].
    destruct (Qle_bool u 100) eqn:H100.
    + apply Qle_bool_iff in H100. exists u. split; [done|].
      split; [intros Hu; by apply Qle_not_lt in Hu|].
      split; [done|]. intros Hu. by apply Qle_antisym.
    + apply Qle_bool_false in H100. exists 100%Q. split; [done|].
      split; [intros Hu; by apply Qle_not_lt in Hu|].
      split; [|done]. intros _ Hu. by apply Qle_not_lt in Hu.
Qed.

(** C7 (amended): for every pair of CPU samples the returned percentage is
    a finite number in [0,100], whatever text the two reads returned; it is
    0 when the total tick delta is zero.  Otherwise the guard does not
    fire and the result is the clamped value of
    [(1 - idleDelta / totalDelta) * 100]; in particular when the total
    counter decreases the delta is not zero and the result is that usage
    when it lies in [0,100], 0 when it is below and 100 when it is
    above: never negative, and not 0 in general. *)
Theorem C7_cpu_percent_clamped (Number : string → num)
    (first second : CpuTimes) (line1 line2 : string) :
  within 0 100 (cpuPercentBetween first second)
  ∧ within 0 100 (collectCpuPercent Number line1 line2)
  ∧ (strict_eq (sub (total second) (total first)) (Fin 0) = true →
     cpuPercentBetween first second = Fin 0)
  ∧ (strict_eq (sub (total second) (total first)) (Fin 0) = false →
     cpuPercentBetween first second
     = clamp (mul (sub (Fin 1)
                     (div (sub (idle second) (idle first))
                          (sub (total second) (total first))))
                (Fin 100))
         (Fin 0) (Fin 100))
  ∧ (∀ idle1 total1 idle2 total2 : Q,
       first = mkCpu (Fin idle1) (Fin total1) →
       second = mkCpu (Fin idle2) (Fin total2) →
       (total2 < total1)%Q →
       strict_eq (sub (total second) (total first)) (Fin 0) = false
       ∧ ∃ q, cpuPercentBetween first second = Fin q
              ∧ let usage :=
                  ((1 - (idle2 - idle1) / (total2 - total1)) * 100)%Q in
                ((usage <= 0)%Q → (q == 0)%Q)
                ∧ ((0 <= usage)%Q → (usage <= 100)%Q → (q == usage)%Q)
                ∧ ((100 <= usage)%Q → (q == 100)%Q)).
Proof.
  split; [apply cpuPercentBetween_within|].
  split; [apply cpuPercentBetween_within|].
  split.
  { intros H0. unfold cpuPercentBetween. rewrite H0. apply clamp_zero. }
  split.
  { intros H0. unfold cpuPercentBetween. by rewrite H0. }
  intros idle1 total1 idle2 total2 -> -> Hdec.
  unfold cpuPercentBetween. cbn [idle total sub neg add].
  set (td := Qred (total2 + Qred (- total1))).
  set (idl := Qred (idle2 + Qred (- idle1))).
  assert (td == total2 - total1)%Q as Htd
    by (unfold td; by rewrite !Qred_correct).
  assert (idl == idle2 - idle1)%Q as Hidl
    by (unfold idl; by rewrite !Qred_correct).
  assert (Qeq_bool td 0 = false) as Htd0.
  { apply Qeq_bool_false_neg. rewrite Htd.
    unfold Qminus. rewrite <- (Qplus_opp_r total1).
    by apply Qplus_lt_l. }
  cbn [strict_eq]. rewrite Htd0. split; [done|].
  cbn [div]. rewrite Htd0. cbn [sub neg add mul].
  set (u := Qred (Qred (1 + Qred (- Qred (idl / td))) * 100)).
  assert (u == (1 - (idle2 - idle1) / (total2 - total1)) * 100)%Q as Hu.
  { unfold u. rewrite !Qred_correct. by rewrite Hidl, Htd. }
  destruct (clamp_cases u) as (q & Hq & Hlow & Hmid & Hhigh).
  exists q. split; [exact Hq|]. cbv zeta. rewrite <- Hu.
  split; [exact Hlow|]. split; [|exact Hhigh].
  intros H0 H100. rewrite (Hmid H0 H100). reflexivity.
Qed.

Lemma C7_cpu_percent_clamped_witness :
  strict_eq (sub (Fin 1000) (Fin 1000)) (Fin 0) = true
  ∧ cpuPercentBetween (mkCpu (Fin 850) (Fin 1000))
                      (mkCpu (Fin 850) (Fin 1000)) = Fin 0
  ∧ (900 < 1000)%Q
  ∧ ∃ q, cpuPercentBetween (mkCpu (Fin 100) (Fin 1000))
                           (mkCpu (Fin 90) (Fin 900)) = Fin q
         ∧ (q == 90)%Q.
Proof.
  split; [reflexivity|]. split.
  { exact (proj1 (proj2 (proj2
             (C7_cpu_percent_clamped decimal
                (mkCpu (Fin 850) (Fin 1000)) (mkCpu (Fin 850) (Fin 1000))
                "" ""))) eq_refl). }
  assert (900 < 1000)%Q as Hdec by reflexivity.
  split; [exact Hdec|].
  destruct (proj2 (proj2 (proj2 (proj2
              (C7_cpu_percent_clamped decimal
                 (mkCpu (Fin 100) (Fin 1000)) (mkCpu (Fin 90) (Fin 900))
                 "" ""))))
              100%Q 1000%Q 90%Q 900%Q eq_refl eq_refl Hdec)
    as (_ & q & Hq & _ & Hmid & _).
  exists q. split; [exact Hq|].
  rewrite Hmid; [reflexivity|discriminate|discriminate].
Defined.

(** ** Network rates *)

Lemma server_rates_none (parseInt : string → num) (INTERFACE rxText txText : string)
    (now : Z) (last : NetSample) :
  last_iface last = INTERFACE →
  now - last_ts last ≤ 0 →
  Server.collectNetworkStats parseInt INTERFACE (Some rxText) (Some txText)
    now (Some last)
  = (Some (noRates INTERFACE),
     Some (mkSample INTERFACE (parseInt rxText) (parseInt txText) now)).
Proof.
  intros Hi Hd. unfold Server.collectNetworkStats.
  rewrite Hi, String.eqb_refl, seconds_positive.
  assert ((0 <? now - last_ts last) = false) as -> by (apply Z.ltb_ge; lia).
  reflexivity.
Qed.

Lemma preload_rates_floor (parseInt : string → num) (iface text : string)
    (now : Z) (last : NetSample) :
  last_iface last = iface →
  now - last_ts last ≤ 0 →
  let tokens := filter (λ t, Js.truthy t = true) (Js.split_ws (Js.trim text)) in
  let rx := Preload.parseToken parseInt tokens 0 in
  let tx := Preload.parseToken parseInt tokens 1 in
  isFinite rx = true → isFinite tx = true →
  Preload.collectNetworkStats parseInt iface (Return text) now (Some last)
  = (Return (Preload.mkStats iface rx tx
               (Some (mbps (Num.max (sub rx (last_rxBytes last)) (Fin 0)) 1))
               (Some (mbps (Num.max (sub tx (last_txBytes last)) (Fin 0)) 1))),
     Some (mkSample iface rx tx now)).
Proof.
  intros Hi Hd tokens rx tx Hrx Htx. unfold Preload.collectNetworkStats.
  fold tokens. fold rx. fold tx. rewrite Hrx, Htx. cbn [negb orb].
  rewrite Hi, String.eqb_refl.
  replace (Z.max (now - last_ts last) 1) with 1 by lia.
  rewrite seconds_positive. reflexivity.
Qed.

(** With a positive elapsed time the desktop client returns the rate of
    the byte delta clamped at 0, and that rate is never negative. *)
Lemma preload_rates_clamped (parseInt : string → num) (iface text : string)
    (now : Z) (last : NetSample) :
  last_iface last = iface →
  0 < now - last_ts last →
  let tokens := filter (λ t, Js.truthy t = true) (Js.split_ws (Js.trim text)) in
  let rx := Preload.parseToken parseInt tokens 0 in
  let tx := Preload.parseToken parseInt tokens 1 in
  isFinite rx = true → isFinite tx = true →
  Preload.collectNetworkStats parseInt iface (Return text) now (Some last)
  = (Return (Preload.mkStats iface rx tx
               (Some (mbps (Num.max (sub rx (last_rxBytes last)) (Fin 0))
                           (now - last_ts last)))
               (Some (mbps (Num.max (sub tx (last_txBytes last)) (Fin 0))
                           (now - last_ts last)))),
     Some (mkSample iface rx tx now)).
Proof.
  intros Hi Hd tokens rx tx Hrx Htx. unfold Preload.collectNetworkStats.
  fold tokens. fold rx. fold tx. rewrite Hrx, Htx. cbn [negb orb].
  rewrite Hi, String.eqb_refl.
  replace (Z.max (now - last_ts last) 1) with (now - last_ts last) by lia.
  rewrite seconds_positive.
  assert ((0 <? now - last_ts last) = true) as -> by (apply Z.ltb_lt; lia).
  reflexivity.
Qed.

Lemma Qeq_bool_false_pos (x : Q) : (0 < x)%Q → Qeq_bool x 0 = false.
Proof.
  intros Hx. destruct (Qeq_bool x 0) eqn:He; [|done].
  apply Qeq_bool_iff in He. rewrite He in Hx. by apply Qlt_irrefl in Hx.
Qed.

Lemma seconds_pos_Q (d : Z) : 0 < d → (0 < Qred (inject_Z d / 1000))%Q.
Proof.
  intros Hd. rewrite Qred_correct.
  unfold Qlt, Qdiv, Qmult, Qinv, inject_Z. cbn. lia.
Qed.

Lemma mbps_nonneg (rx lastRx : Q) (d : Z) :
  0 < d →
  ∃ q, mbps (Num.max (sub (Fin rx) (Fin lastRx)) (Fin 0)) d = Fin q
       ∧ (0 <= q)%Q.
Proof.
  intros Hd. unfold mbps, mega, of_Z, sub, neg, add.
  cbn [div]. change (Qeq_bool 1000 0) with false. cbn iota.
  pose proof (seconds_pos_Q d Hd) as Hs.
  set (s := Qred (inject_Z d / 1000)) in *.
  assert (∀ x, (0 <= x)%Q →
            ∃ q, div (div (mul (Fin x) (Fin 8)) (Fin s)) (Fin 1000000) = Fin q
                 ∧ (0 <= q)%Q) as Hrate.
  { intros x Hx. cbn [mul div]. rewrite (Qeq_bool_false_pos s Hs).
    change (Qeq_bool 1000000 0) with false. cbn iota.
    eexists. split; [reflexivity|].
    rewrite Qred_correct. apply Qle_shift_div_l; [done|]. rewrite Qmult_0_l.
    rewrite Qred_correct. apply Qle_shift_div_l; [done|]. rewrite Qmult_0_l.
    rewrite Qred_correct. apply Qmult_le_0_compat; [done|discriminate]. }
  unfold Num.max.
  destruct (Qle_bool (Qred (rx + Qred (- lastRx))) 0) eqn:Hle.
  - apply Hrate. discriminate.
  - apply Hrate. apply Qlt_le_weak. by apply Qle_bool_false.
Qed.

(** C1, as stated, on the server: the previous sample was taken at
    t = 5000 ms with 1000 bytes; a second sample at the same instant
    reads 2000 bytes.  The rates are unknown, but the stored sample is
    replaced, and the next sample (3000 bytes one second later) is
    measured against 2000 bytes, giving 0.008 Mbps instead of the
    0.016 Mbps measured against the original sample. *)
Lemma C1_stored_sample_is_replaced :
  let last := mkSample "bond0" (Fin 1000) (Fin 1000) 5000 in
  let step1 := Server.collectNetworkStats decimal "bond0"
                 (Some "2000") (Some "2000") 5000 (Some last) in
  let step2 := Server.collectNetworkStats decimal "bond0"
                 (Some "3000") (Some "3000") 6000 step1.2 in
  let expected := Server.collectNetworkStats decimal "bond0"
                 (Some "3000") (Some "3000") 6000 (Some last) in
  step1.1 = Some (noRates "bond0")
  ∧ step1.2 ≠ Some last
  ∧ (Server.rxRateMbps <$> step2.1) = Some (Some (Fin (1 # 125)))
  ∧ (Server.rxRateMbps <$> expected.1) = Some (Some (Fin (2 # 125)))
  ∧ step2.1 ≠ expected.1.
Proof. vm_compute. repeat split; discriminate. Qed.

(** C1 (amended): when a prior sample exists for the interface and the
    elapsed time is not positive, the server returns unknown rates and
    stores the sample just read with its timestamp in place of the previous
    one; the desktop client floors the elapsed time at 1 ms, returns the
    rates over that millisecond (byte deltas clamped at 0) and stores the
    sample just read as well.  A later sample is therefore measured
    against the replaced sample. *)
Theorem C1_nonpositive_elapsed (parseInt : string → num)
    (INTERFACE rxText txText text : string) (now : Z) (last : NetSample) :
  last_iface last = INTERFACE →
  now - last_ts last ≤ 0 →
  Server.collectNetworkStats parseInt INTERFACE (Some rxText) (Some txText)
    now (Some last)
  = (Some (noRates INTERFACE),
     Some (mkSample INTERFACE (parseInt rxText) (parseInt txText) now))
  ∧ (let tokens :=
       filter (λ t, Js.truthy t = true) (Js.split_ws (Js.trim text)) in
     let rx := Preload.parseToken parseInt tokens 0 in
     let tx := Preload.parseToken parseInt tokens 1 in
     isFinite rx = true → isFinite tx = true →
     Preload.collectNetworkStats parseInt INTERFACE (Return text) now (Some last)
     = (Return (Preload.mkStats INTERFACE rx tx
                  (Some (mbps (Num.max (sub rx (last_rxBytes last)) (Fin 0)) 1))
                  (Some (mbps (Num.max (sub tx (last_txBytes last)) (Fin 0)) 1))),
        Some (mkSample INTERFACE rx tx now))).
Proof.
  intros Hi Hd. split.
  - by apply server_rates_none.
  - by apply preload_rates_floor.
Qed.

Lemma C1_nonpositive_elapsed_witness :
  last_iface (mkSample "bond0" (Fin 1000) (Fin 1000) 5000) = "bond0"
  ∧ 5000 - last_ts (mkSample "bond0" (Fin 1000) (Fin 1000) 5000) ≤ 0
  ∧ Server.collectNetworkStats decimal "bond0" (Some "2000") (Some "2000")
      5000 (Some (mkSample "bond0" (Fin 1000) (Fin 1000) 5000))
    = (Some (noRates "bond0"),
       Some (mkSample "bond0" (Fin 2000) (Fin 2000) 5000)).
Proof.
  split; [reflexivity|]. split; [vm_compute; discriminate|].
  apply (C1_nonpositive_elapsed decimal "bond0" "2000" "2000" "2000 2000"
           5000 (mkSample "bond0" (Fin 1000) (Fin 1000) 5000));
    [reflexivity | vm_compute; discriminate].
Defined.

(** C2 on the server, at a counter reset: the previous sample holds
    1000 received bytes, the next one, a second later, 0.  The server
    divides the raw difference, so the receive rate is -0.008 Mbps; the
    desktop client clamps the delta and returns 0. *)
Theorem C2_server_negative_rate :
  let last := mkSample "bond0" (Fin 1000) (Fin 1000) 0 in
  let server := Server.collectNetworkStats decimal "bond0"
                  (Some "0") (Some "5000") 1000 (Some last) in
  let client := Preload.collectNetworkStats decimal "bond0"
                  (Return "0 5000") 1000 (Some last) in
  (Server.rxRateMbps <$> server.1) = Some (Some (Fin (-1 # 125)))
  ∧ Num.negative (Fin (-1 # 125))
  ∧ (Server.txRateMbps <$> server.1) = Some (Some (Fin (4 # 125)))
  ∧ client.1 = Return (Preload.mkStats "bond0" (Fin 0) (Fin 5000)
                         (Some (Fin 0)) (Some (Fin (4 # 125)))).
Proof. vm_compute. repeat split. Qed.

(** ** Array usage *)

(** C4, as stated, when the command fails: the collector returns [null],
    not the zero-value record. *)
Lemma C4_exec_failure_returns_null :
  collectArrayUsage decimal (Throw "Command failed: df -B1 /mnt/user")
  = Return None
  ∧ collectArrayUsage decimal (Throw "Command failed: df -B1 /mnt/user")
    ≠ Return (Some zeroUsage).
Proof. split; [reflexivity | discriminate]. Qed.

(** C4 (amended): the array-usage collector never throws.  When the
    command fails it returns [null]; when the output has fewer than five
    white-space separated fields it returns the zero-value record
    [{totalTb: 0, usedTb: 0, usedPercent: 0}]. *)
Theorem C4_array_usage_degrades (Number : string → num) (df : completion string) :
  returns (collectArrayUsage Number df)
  ∧ (∀ err, df = Throw err → collectArrayUsage Number df = Return None)
  ∧ (∀ stdout, df = Return stdout →
       (length (Js.split_ws (Js.trim stdout)) < 5)%nat →
       collectArrayUsage Number df = Return (Some zeroUsage)).
Proof.
  split; [|split].
  - destruct df as [stdout|err]; unfold collectArrayUsage, bind; [|exact I].
    by destruct (_ <? _)%nat.
  - by intros err ->.
  - intros stdout -> Hlen. unfold collectArrayUsage, bind.
    apply Nat.ltb_lt in Hlen. by rewrite Hlen.
Qed.

Lemma C4_array_usage_degrades_witness :
  (length (Js.split_ws (Js.trim "tail: write error")) < 5)%nat
  ∧ collectArrayUsage decimal (Return "tail: write error")
    = Return (Some zeroUsage).
Proof.
  assert ((length (Js.split_ws (Js.trim "tail: write error")) < 5)%nat) as Hlen
    by (vm_compute; lia).
  split; [exact Hlen|].
  exact (proj2 (proj2 (C4_array_usage_degrades decimal
                         (Return "tail: write error")))
           "tail: write error" eq_refl Hlen).
Defined.

(** ** Virtual machines *)

(** C5: a [get] within 60 s of the cached timestamp returns the cached
    value, leaves the cache as it is and polls nothing; once the threshold
    has expired, a poll that fails is absorbed: the call returns normally
    with the cached value, and the cache keeps its value and timestamp.
    The timestamp is that of the last successful poll: only a poll that
    succeeds stores one, together with its listing. *)
Theorem C5_vm_cache (now : Z) (vmsCache : VmsCache) (w : Virsh) :
  (now - vms_ts vmsCache < VM_CACHE_MS →
   getVmsSnapshot now vmsCache w = (Return (vms_value vmsCache), vmsCache, w))
  ∧ (VM_CACHE_MS ≤ now - vms_ts vmsCache →
     ∀ err, virsh_outcome w (virsh_polls w) = Throw err →
     getVmsSnapshot now vmsCache w
     = (Return (vms_value vmsCache), vmsCache,
        mkVirsh (S (virsh_polls w)) (virsh_outcome w)))
  ∧ (VM_CACHE_MS ≤ now - vms_ts vmsCache →
     ∀ vms, virsh_outcome w (virsh_polls w) = Return vms →
     getVmsSnapshot now vmsCache w
     = (Return vms, mkVmsCache now vms,
        mkVirsh (S (virsh_polls w)) (virsh_outcome w))).
Proof.
  unfold getVmsSnapshot. split; [|split].
  - intros Hfresh. by apply Z.ltb_lt in Hfresh as ->.
  - intros Hstale err Hpoll. apply Z.ltb_ge in Hstale as ->.
    cbn. by rewrite Hpoll.
  - intros Hstale vms Hpoll. apply Z.ltb_ge in Hstale as ->.
    cbn. by rewrite Hpoll.
Qed.

Lemma C5_vm_cache_witness :
  let cached := mkVmsCache 1000 [mkVm "win11" "running" true] in
  let w := mkVirsh 1 (λ _, Throw "virsh: command not found") in
  (30000 - vms_ts cached < VM_CACHE_MS
   ∧ getVmsSnapshot 30000 cached w = (Return (vms_value cached), cached, w))
  ∧ (VM_CACHE_MS ≤ 90000 - vms_ts cached
     ∧ virsh_outcome w (virsh_polls w) = Throw "virsh: command not found"
     ∧ getVmsSnapshot 90000 cached w
       = (Return (vms_value cached), cached, mkVirsh 2 (virsh_outcome w))).
Proof.
  intros cached w. split.
  - split; [reflexivity|].
    apply (proj1 (C5_vm_cache 30000 cached w)). reflexivity.
  - split; [vm_compute; discriminate|]. split; [reflexivity|].
    apply (proj1 (proj2 (C5_vm_cache 90000 cached w))
             ltac:(vm_compute; discriminate) "virsh: command not found").
    reflexivity.
Defined.

(** ** Port parsing *)

(** C3 on three inputs.  A mapping with its host address is parsed as the
    spec says and a segment without [->] is kept for display only; but
    when the host address is omitted the optional first group of the
    pattern takes the leading digits of the host port, and only the last
    digit is left for [hostPort]: ["8080->80/tcp"] gives host port ["0"]. *)
Theorem C3_port_parsing :
  parseDockerPorts "0.0.0.0:8080->80/tcp"
  = [mkPort (Some "0.0.0.0") (Some "8080") (Some "80") (Some "tcp") "8080->80/tcp"]
  ∧ parseDockerPorts "80/tcp" = [mkPort None None None None "80/tcp"]
  ∧ parseDockerPorts "8080->80/tcp"
    = [mkPort (Some "0.0.0.0") (Some "0") (Some "80") (Some "tcp") "0->80/tcp"]
  ∧ Regex.exec 4 port_re "8080->80/tcp"
    = Some [None; Some "808"; Some "0"; Some "80"; Some "tcp"].
Proof. vm_compute. repeat split. Qed.

(** ** The container list under upsert and removal *)

Section Inventory.
Implicit Types (c x : Container) (l : list Container)
  (m : gmap string Container) (cache : ContainersCache).

Lemma findIndex_upsert c l :
  match findIndex (λ x, String.eqb (id x) (id c)) l with
  | Some i => <[i := c]> l
  | None => l ++ [c]
  end = upsertList c l.
Proof.
  induction l as [|x l IH]; [done|]. cbn.
  destruct (String.eqb (id x) (id c)); [done|].
  rewrite <- IH. by destruct (findIndex _ l).
Qed.

Lemma upsert_list c cache :
  list_ (upsertContainerInCache c cache) = upsertList c (list_ cache).
Proof. apply findIndex_upsert. Qed.


Lemma elem_of_upsertList c l x :
  NoDup (id <$> l) →
  x ∈ upsertList c l ↔ x = c ∨ (x ∈ l ∧ id x ≠ id c).
Proof.
  induction l as [|y l IH]; cbn; intros Hnd.
  - rewrite list_elem_of_singleton. split; [by left|].
    by intros [->|[?%elem_of_nil _]].
  - apply NoDup_cons in Hnd as [Hy Hnd].
    destruct (String.eqb (id y) (id c)) eqn:Hyc.
    + apply String.eqb_eq in Hyc. rewrite !elem_of_cons.
      split.
      * intros [->|Hx]; [by left|]. right. split; [by right|].
        intros Heq. apply Hy. rewrite Hyc, <- Heq.
        by apply list_elem_of_fmap_2.
      * intros [->|[[->|Hx] Hne]]; [by left|done|by right].
    + apply String.eqb_neq in Hyc. rewrite !elem_of_cons, (IH Hnd).
      split.
      * intros [->|[->|[Hx Hne]]]; [right|by left|right]; split; auto.
      * intros [->|[[->|Hx] Hne]]; auto.
Qed.

Lemma ids_upsertList c l :
  id <$> upsertList c l
  = if decide (id c ∈ id <$> l) then id <$> l else (id <$> l) ++ [id c].
Proof.
  induction l as [|y l IH]; cbn.
  - by rewrite decide_False by apply not_elem_of_nil.
  - destruct (String.eqb (id y) (id c)) eqn:Hyc.
    + apply String.eqb_eq in Hyc. rewrite decide_True by (rewrite Hyc; left).
      cbn. by rewrite Hyc.
    + apply String.eqb_neq in Hyc. cbn. rewrite IH.
      destruct (decide (id c ∈ id <$> l)) as [Hin|Hin].
      * by rewrite decide_True by (by right).
      * rewrite decide_False; [done|].
        rewrite elem_of_cons. intros [?|?]; auto.
Qed.

Lemma NoDup_upsertList c l :
  NoDup (id <$> l) → NoDup (id <$> upsertList c l).
Proof.
  intros Hnd. rewrite ids_upsertList. case_decide; [done|].
  apply NoDup_app. split; [done|]. split; [|apply NoDup_singleton].
  intros k Hk ->%list_elem_of_singleton. done.
Qed.

Lemma filter_id_absent (k : string) l :
  k ∉ id <$> l → filter (λ x, id x = k) l = [].
Proof.
  intros Hk. apply elem_of_nil_inv. intros x [Hx Hin]%list_elem_of_filter.
  apply Hk. rewrite <- Hx. by apply list_elem_of_fmap_2.
Qed.

Lemma entriesWithId_upsertList c l :
  NoDup (id <$> l) → entriesWithId (id c) (upsertList c l) = [c].
Proof.
  unfold entriesWithId.
  induction l as [|y l IH]; cbn [upsertList]; intros Hnd.
  - by rewrite filter_cons_True.
  - apply NoDup_cons in Hnd as [Hy Hnd].
    destruct (String.eqb (id y) (id c)) eqn:Hyc.
    + apply String.eqb_eq in Hyc. rewrite filter_cons_True by done.
      f_equal. apply filter_id_absent. by rewrite <- Hyc.
    + apply String.eqb_neq in Hyc. rewrite filter_cons_False by done. auto.
Qed.

Lemma upsertList_absent c l :
  id c ∉ id <$> l → upsertList c l = l ++ [c].
Proof.
  induction l as [|y l IH]; cbn; [done|]. intros Hc.
  apply not_elem_of_cons in Hc as [Hne Hc].
  destruct (String.eqb (id y) (id c)) eqn:Hyc.
  - by apply String.eqb_eq in Hyc.
  - by rewrite IH.
Qed.

Lemma NoDup_ids_filter (P : Container → Prop) `{∀ x, Decision (P x)} l :
  NoDup (id <$> l) → NoDup (id <$> filter P l).
Proof.
  induction l as [|y l IH]; [done|]. intros [Hy Hnd]%NoDup_cons.
  rewrite filter_cons. case_decide; [|by auto].
  cbn. apply NoDup_cons. split; [|by auto].
  intros (x & Hx & [_ Hin]%list_elem_of_filter)%list_elem_of_fmap.
  apply Hy. rewrite Hx. by apply list_elem_of_fmap_2.
Qed.

(** *** At most one container per id *)

Lemma upsert_uniqueIds c cache :
  uniqueIds cache → uniqueIds (upsertContainerInCache c cache).
Proof.
  unfold uniqueIds. rewrite upsert_list. apply NoDup_upsertList.
Qed.



(** *** Agreement of the list and the index *)

Lemma upsert_consistent c cache :
  Js.truthy (id c) = true →
  consistent cache → consistent (upsertContainerInCache c cache).
Proof.
  intros Hc [Hpres Huniq Hby]. split.
  - rewrite upsert_list. apply Forall_forall.
    intros x [->|[Hx _]]%elem_of_upsertList; [done| |done].
    by eapply Forall_forall in Hpres.
  - by apply upsert_uniqueIds.
  - intros k x. rewrite upsert_list, elem_of_upsertList by done.
    unfold upsertContainerInCache. rewrite Hc. cbn [byId].
    destruct (decide (id c = k)) as [<-|Hne].
    + rewrite lookup_insert_eq. split.
      * intros [= <-]. auto.
      * intros [[->|[_ Hx]] Hk]; done.
    + rewrite lookup_insert_ne, Hby by done. split.
      * intros [Hx <-]. auto.
      * intros [[->|[Hx _]] Hk]; done.
Qed.

Lemma remove_consistent cid cache :
  consistent cache → consistent (removeContainerFromCache cid cache).
Proof.
  intros Hcons. pose proof Hcons as [Hpres Huniq Hby].
  unfold removeContainerFromCache.
  destruct (negb (Js.truthy cid)); [done|]. split; cbn [list_ byId].
  - apply Forall_forall. intros x [_ Hx]%list_elem_of_filter.
    by eapply Forall_forall in Hpres.
  - by apply NoDup_ids_filter.
  - intros k x. rewrite list_elem_of_filter.
    destruct (decide (cid = k)) as [<-|Hne].
    + rewrite lookup_delete_eq. split; [done|].
      intros [[Hne _] Hk]. by rewrite Hk, String.eqb_refl in Hne.
    + rewrite lookup_delete_ne, Hby by done. split.
      * intros [Hx <-]. repeat split; [|done].
        apply negb_true_iff, String.eqb_neq. congruence.
      * intros [[_ Hx] Hk]. done.
Qed.

Lemma initialised_consistent b cache :
  consistent cache → consistent (mkCache b (list_ cache) (byId cache)).
Proof. by intros []. Qed.

Lemma empty_consistent b : consistent (mkCache b [] ∅).
Proof.
  split; cbn; [done|apply NoDup_nil_2|].
  intros k x. rewrite lookup_empty, elem_of_nil. split; [done|by intros []].
Qed.
End Inventory.

(** ** The inventory operations *)

Section InventoryOps.
Variable parsePsLine : string → JsonPs.
Variable parseEventLine : string → completion (option DockerEvent).
Variable resolveUrl resolveIcon :
  string → list PortMapping → option string → option string.

Local Abbreviation build := (buildContainerFromPsAndInspect resolveUrl resolveIcon).
Local Abbreviation buildEntries := (buildAll resolveUrl resolveIcon).
Local Abbreviation fullRefresh :=
  (fullContainersRefresh parsePsLine resolveUrl resolveIcon).
Local Abbreviation refreshSingle :=
  (refreshSingleContainer parsePsLine resolveUrl resolveIcon).
Local Abbreviation applyLine :=
  (applyEventLine parsePsLine parseEventLine resolveUrl resolveIcon).

(** A built container carries the listing's non-empty [ID]. *)
Lemma build_id entry details obj :
  build entry details = Some obj →
  Js.truthy (id obj) = true
  ∧ ∃ e, entry = Some e ∧ ps_ID e = Some (id obj).
Proof.
  unfold buildContainerFromPsAndInspect.
  destruct entry as [e|]; [|done].
  destruct (ps_ID e) as [cid|] eqn:Hid; [|done].
  destruct (Js.truthy cid) eqn:Hcid; [|done].
  intros [= <-]. cbn. eauto.
Qed.

Lemma build_none e details :
  build (Some e) details = None → idsOf [Some e] = [].
Proof.
  unfold buildContainerFromPsAndInspect. cbn.
  destruct (ps_ID e) as [cid|]; [|done].
  by destruct (Js.truthy cid).
Qed.

Lemma idsOf_cons entry es : idsOf (entry :: es) = idsOf [entry] ++ idsOf es.
Proof. apply (omap_app _ [entry] es). Qed.

Lemma idsOf_built e details obj :
  build (Some e) details = Some obj → idsOf [Some e] = [id obj].
Proof.
  intros (Hobj & e' & [= <-] & Hid)%build_id. cbn. by rewrite Hid, Hobj.
Qed.

(** The second loop of the full refresh is a sequence of upserts of
    containers that are not yet listed. *)
Lemma buildAll_upserts inspectMap es l m l' m' :
  NoDup ((id <$> l) ++ idsOf es) →
  buildEntries inspectMap es l m = Return (l', m') →
  id <$> l' = (id <$> l) ++ idsOf es
  ∧ (consistent (mkCache true l m) → consistent (mkCache true l' m')).
Proof.
  revert l m. induction es as [|[e|] es IH]; intros l m Hnd; cbn [buildAll].
  - intros [= <- <-]. by rewrite app_nil_r.
  - rewrite idsOf_cons in Hnd |- *.
    destruct (build (Some e) _) as [obj|] eqn:Hb.
    + pose proof (idsOf_built _ _ _ Hb) as Hids.
      pose proof (build_id _ _ _ Hb) as [Hobj _].
      rewrite Hids in Hnd |- *. rewrite Hobj.
      assert (id obj ∉ id <$> l) as Hfresh.
      { apply NoDup_app in Hnd as (_ & Hdisj & _). intros Hin.
        apply (Hdisj _ Hin). cbn. left. }
      intros Hrun. apply IH in Hrun as [Hl' Hcons].
      * split; [by rewrite Hl', fmap_app, <- app_assoc|].
        intros Hlm. apply Hcons.
        pose proof (upsert_consistent obj _ Hobj Hlm) as Hup.
        unfold upsertContainerInCache in Hup.
        rewrite findIndex_upsert, Hobj in Hup. cbn in Hup.
        by rewrite upsertList_absent in Hup.
      * by rewrite fmap_app, <- app_assoc.
    + rewrite (build_none _ _ Hb) in Hnd |- *. by apply IH.
  - done.
Qed.

Lemma fullRefresh_cases ps inspect cache :
  fullRefresh ps inspect cache
    = mkCache true (list_ cache) (byId cache)
  ∨ fullRefresh ps inspect cache = mkCache true [] ∅
  ∨ ∃ stdout inspectMap l' m',
      ps = Return stdout
      ∧ buildEntries inspectMap (psEntriesOf parsePsLine (psLinesOf stdout)) [] ∅
        = Return (l', m')
      ∧ fullRefresh ps inspect cache = mkCache true l' m'.
Proof.
  unfold fullContainersRefresh.
  destruct ps as [stdout|err]; cbn [bind]; [|by left].
  destruct (negb (Js.truthy stdout) || negb (Js.truthy (Js.trim stdout)));
    [by right; left|].
  match goal with
  | |- context [buildAll _ _ ?im ?es [] ∅] =>
      destruct (buildEntries im es [] ∅)
        as [[l' m']|err] eqn:Hb
  end; [|by left].
  right; right. by eexists stdout, _, l', m'.
Qed.


Lemma fullRefresh_consistent ps inspect cache :
  listsEachOnce parsePsLine ps →
  consistent cache → consistent (fullRefresh ps inspect cache).
Proof.
  intros Hps Hc.
  destruct (fullRefresh_cases ps inspect cache)
    as [->|[->|(stdout & im & l' & m' & -> & Hb & ->)]].
  - by apply initialised_consistent.
  - apply empty_consistent.
  - specialize (Hps stdout eq_refl).
    apply buildAll_upserts in Hb as [_ Hcons]; [|done].
    apply Hcons, empty_consistent.
Qed.

(** The second loop copies the listing: the ids of the list built are
    the ids listed, in order and with their repetitions. *)
Lemma buildAll_ids inspectMap es l m l' m' :
  buildEntries inspectMap es l m = Return (l', m') →
  id <$> l' = (id <$> l) ++ idsOf es.
Proof.
  revert l m. induction es as [|[e|] es IH]; intros l m; cbn [buildAll].
  - intros [= <- <-]. by rewrite app_nil_r.
  - rewrite idsOf_cons.
    destruct (build (Some e) _) as [obj|] eqn:Hb.
    + rewrite (idsOf_built _ _ _ Hb). intros Hrun. apply IH in Hrun.
      by rewrite Hrun, fmap_app, <- app_assoc.
    + rewrite (build_none _ _ Hb). apply IH.
  - done.
Qed.

(** What the second loop keeps whatever the listing: every listed
    container has an id and every binding of [byId] is a listed
    container under its id. *)
Lemma buildAll_sound inspectMap es l m l' m' :
  buildEntries inspectMap es l m = Return (l', m') →
  Forall (λ x, Js.truthy (id x) = true) l →
  (∀ k x, m !! k = Some x → x ∈ l ∧ id x = k) →
  Forall (λ x, Js.truthy (id x) = true) l'
  ∧ (∀ k x, m' !! k = Some x → x ∈ l' ∧ id x = k).
Proof.
  revert l m. induction es as [|[e|] es IH]; intros l m; cbn [buildAll].
  - by intros [= <- <-].
  - destruct (build (Some e) _) as [obj|] eqn:Hb; [|apply IH].
    pose proof (build_id _ _ _ Hb) as [Hobj _]. rewrite Hobj.
    intros Hrun Hl Hm. apply (IH _ _ Hrun).
    + apply Forall_app. split; [done|]. by constructor.
    + intros k x. destruct (decide (k = id obj)) as [->|Hk].
      * rewrite lookup_insert_eq. intros [= <-].
        split; [|done]. apply elem_of_app. right. apply list_elem_of_here.
      * rewrite lookup_insert_ne by done. intros [Hx Hid]%Hm.
        split; [|done]. apply elem_of_app. by left.
  - done.
Qed.

(** The second loop fails only on a listing line that reads [null]. *)
Lemma buildAll_returns inspectMap es l m :
  Forall is_Some es → ∃ built, buildEntries inspectMap es l m = Return built.
Proof.
  intros Hes. revert l m.
  induction Hes as [|[e|] es He Hes IH]; intros l m; cbn [buildAll].
  - by eexists.
  - destruct (build (Some e) _); apply IH.
  - by destruct He.
Qed.

Lemma psEntriesOf_values lines :
  Forall (λ line, parsePsLine line ≠ PsNull) lines →
  Forall is_Some (psEntriesOf parsePsLine lines).
Proof.
  unfold psEntriesOf. induction 1 as [|line lines Hline Hlines IH]; cbn [omap].
  - constructor.
  - cbn. destruct (parsePsLine line) as [| |e]; [done|done|].
    constructor; [by eexists|done].
Qed.

(** A full refresh of a listing that is not blank and has no [null]
    line replaces the cache by the containers built from the listing. *)
Lemma fullRefresh_built stdout inspect cache :
  Js.truthy (Js.trim stdout) = true →
  Forall (λ line, parsePsLine line ≠ PsNull) (psLinesOf stdout) →
  ∃ inspectMap l' m',
    buildEntries inspectMap (psEntriesOf parsePsLine (psLinesOf stdout)) [] ∅
    = Return (l', m')
    ∧ fullRefresh (Return stdout) inspect cache = mkCache true l' m'.
Proof.
  intros Hblank Hlines. unfold fullContainersRefresh. cbn [bind].
  assert (Js.truthy stdout = true) as -> by (by destruct stdout).
  rewrite Hblank. cbn [negb orb].
  match goal with
  | |- context [buildAll _ _ ?im ?es [] ∅] =>
      destruct (buildAll_returns im es [] ∅ (psEntriesOf_values _ Hlines))
        as ([l' m'] & Hb); exists im, l', m'
  end.
  split; [exact Hb|]. by rewrite Hb.
Qed.

Lemma fullRefresh_ids stdout inspect cache :
  Js.truthy (Js.trim stdout) = true →
  Forall (λ line, parsePsLine line ≠ PsNull) (psLinesOf stdout) →
  id <$> list_ (fullRefresh (Return stdout) inspect cache)
  = listedIds parsePsLine stdout.
Proof.
  intros Hblank Hlines.
  destruct (fullRefresh_built stdout inspect cache Hblank Hlines)
    as (im & l' & m' & Hb & ->).
  cbn [list_]. by rewrite (buildAll_ids _ _ _ _ _ _ Hb).
Qed.

Lemma fullRefresh_sound stdout inspect cache :
  Js.truthy (Js.trim stdout) = true →
  Forall (λ line, parsePsLine line ≠ PsNull) (psLinesOf stdout) →
  Forall (λ x, Js.truthy (id x) = true)
         (list_ (fullRefresh (Return stdout) inspect cache))
  ∧ (∀ k x, byId (fullRefresh (Return stdout) inspect cache) !! k = Some x →
            x ∈ list_ (fullRefresh (Return stdout) inspect cache) ∧ id x = k).
Proof.
  intros Hblank Hlines.
  destruct (fullRefresh_built stdout inspect cache Hblank Hlines)
    as (im & l' & m' & Hb & ->).
  cbn [list_ byId]. apply (buildAll_sound _ _ _ _ _ _ Hb); [constructor|].
  intros k x. by rewrite lookup_empty.
Qed.

Lemma refreshSingle_cases cid ps inspect cache :
  refreshSingle cid ps inspect cache = cache
  ∨ refreshSingle cid ps inspect cache
    = removeContainerFromCache cid cache
  ∨ ∃ obj, Js.truthy (id obj) = true
      ∧ refreshSingle cid ps inspect cache
        = upsertContainerInCache obj cache.
Proof.
  unfold refreshSingleContainer.
  destruct (negb (Js.truthy cid)); [by left|].
  destruct ps as [stdout|err]; [|by left].
  destruct (negb (Js.truthy stdout) || negb (Js.truthy (Js.trim stdout)));
    [by right; left|].
  destruct (parsePsLine _) as [| |e]; [by left|by left|].
  destruct (build (Some e) _) as [obj|] eqn:Hb; [|by left].
  right; right. exists obj. split; [|done].
  by apply build_id in Hb as [? _].
Qed.


Lemma refreshSingle_consistent cid ps inspect cache :
  consistent cache → consistent (refreshSingle cid ps inspect cache).
Proof.
  intros Hc.
  destruct (refreshSingle_cases cid ps inspect cache)
    as [->|[->|(obj & Hobj & ->)]];
    [done|by apply remove_consistent|by apply upsert_consistent].
Qed.


Lemma applyEventLine_consistent line ps inspect cache :
  consistent cache → consistent (applyLine line ps inspect cache).
Proof.
  intros Hc. unfold applyEventLine.
  destruct (handleDockerEventLine _ _);
    [done|by apply refreshSingle_consistent|by apply remove_consistent].
Qed.
End InventoryOps.

(** ** The inventory invariants *)




(** C9, as stated, at a listing that names a container twice: after the
    full refresh the list holds the id ["c1"] twice, and the cache is not
    consistent. *)
Lemma C9_duplicate_listing_is_inconsistent :
  let refreshed :=
    fullContainersRefresh sampleParsePs noLink noLink (Return "c1
c1
") (λ _, Return []) containersCache0 in
  consistent containersCache0
  ∧ (id <$> list_ refreshed) = ["c1"; "c1"]
  ∧ ¬ consistent refreshed.
Proof.
  intros refreshed.
  assert ((id <$> list_ refreshed) = ["c1"; "c1"]) as Hids
    by (vm_compute; reflexivity).
  split; [apply empty_consistent|]. split; [exact Hids|].
  intros [_ Hnd _]. rewrite Hids in Hnd.
  apply NoDup_cons in Hnd as [Hin _]. apply Hin, list_elem_of_here.
Qed.

(** C9 (amended): the upsert of a built container, removal, refresh-one
    and an event line keep the two structures of the cache consistent
    (every listed container has an id, no id is listed twice, [byId]
    binds exactly the listed ids to the listed containers), and the
    initial cache is consistent.  The full refresh copies the listing:
    every container it lists has an id and every binding of [byId] is a
    listed container under its id, but the ids of the list are those of
    the listing with their repetitions, so the cache it leaves is
    consistent exactly when the listing names each id once. *)
Theorem C9_cache_consistency
    (parsePsLine : string → JsonPs)
    (parseEventLine : string → completion (option DockerEvent))
    (resolveUrl resolveIcon :
       string → list PortMapping → option string → option string)
    (cache : ContainersCache) :
  consistent cache →
  (∀ entry details obj,
     buildContainerFromPsAndInspect resolveUrl resolveIcon entry details
       = Some obj →
     consistent (upsertContainerInCache obj cache))
  ∧ (∀ cid, consistent (removeContainerFromCache cid cache))
  ∧ (∀ cid ps inspect,
       consistent (refreshSingleContainer parsePsLine resolveUrl resolveIcon
                     cid ps inspect cache))
  ∧ (∀ line ps inspect,
       consistent (applyEventLine parsePsLine parseEventLine resolveUrl
                     resolveIcon line ps inspect cache))
  ∧ (∀ ps inspect, listsEachOnce parsePsLine ps →
       consistent (fullContainersRefresh parsePsLine resolveUrl resolveIcon
                     ps inspect cache))
  ∧ consistent containersCache0
  ∧ (∀ stdout inspect,
       Js.truthy (Js.trim stdout) = true →
       Forall (λ line, parsePsLine line ≠ PsNull) (psLinesOf stdout) →
       let refreshed :=
         fullContainersRefresh parsePsLine resolveUrl resolveIcon
           (Return stdout) inspect cache in
       Forall (λ x, Js.truthy (id x) = true) (list_ refreshed)
       ∧ (∀ k x, byId refreshed !! k = Some x →
                 x ∈ list_ refreshed ∧ id x = k)
       ∧ id <$> list_ refreshed = listedIds parsePsLine stdout
       ∧ (consistent refreshed ↔ NoDup (listedIds parsePsLine stdout))).
Proof.
  intros Hc.
  split.
  { intros entry details obj [Hobj _]%build_id. by apply upsert_consistent. }
  split; [intros; by apply remove_consistent|].
  split; [intros; by apply refreshSingle_consistent|].
  split; [intros; by apply applyEventLine_consistent|].
  split; [intros; by apply fullRefresh_consistent|].
  split; [apply empty_consistent|].
  intros stdout inspect Hblank Hlines refreshed.
  pose proof (fullRefresh_ids parsePsLine resolveUrl resolveIcon stdout inspect
                cache Hblank Hlines) as Hids.
  destruct (fullRefresh_sound parsePsLine resolveUrl resolveIcon stdout inspect
              cache Hblank Hlines) as [Hpresent Hbound].
  fold refreshed in Hids, Hpresent, Hbound.
  split; [exact Hpresent|]. split; [exact Hbound|]. split; [exact Hids|].
  split.
  - intros [_ Hnd _]. by rewrite <- Hids.
  - intros Hnd. apply fullRefresh_consistent; [|done].
    by intros stdout' [= <-].
Qed.

Lemma C9_cache_consistency_witness :
  let listing := Return "c1
c2
" in
  let refreshed :=
    fullContainersRefresh sampleParsePs noLink noLink listing
      (λ _, Return []) containersCache0 in
  consistent containersCache0
  ∧ listsEachOnce sampleParsePs listing
  ∧ (id <$> list_ refreshed) = ["c1"; "c2"]
  ∧ consistent refreshed.
Proof.
  intros listing refreshed.
  assert (consistent containersCache0) as H0 by apply empty_consistent.
  assert (listsEachOnce sampleParsePs listing) as Hps.
  { intros stdout [= <-]. apply (bool_decide_unpack _). by vm_compute. }
  split; [exact H0|]. split; [exact Hps|]. split; [by vm_compute|].
  pose proof (C9_cache_consistency sampleParsePs sampleParseEvent noLink noLink
                containersCache0 H0) as (_ & _ & _ & _ & Hfull & _).
  exact (Hfull listing (λ _, Return []) Hps).
Defined.

(** ** Docker events *)

Section Events.
Variable parsePsLine : string → JsonPs.
Variable parseEventLine : string → completion (option DockerEvent).
Variable resolveUrl resolveIcon :
  string → list PortMapping → option string → option string.

Local Ltac word_listed := apply (bool_decide_unpack _); by vm_compute.

Lemma dispatch_refresh cid action w :
  w ∈ refreshWords → Js.includes action w = true →
  dispatch cid action = CallRefreshSingleContainer cid.
Proof.
  unfold refreshWords, dispatch. intros Hw Hin.
  repeat (apply elem_of_cons in Hw as [->|Hw];
          [rewrite Hin, ?orb_true_r; reflexivity|]).
  by apply elem_of_nil in Hw.
Qed.

Lemma dispatch_not_refresh cid action :
  (∀ r, r ∈ refreshWords → Js.includes action r = false) →
  dispatch cid action
  = if Js.includes action "destroy" || Js.includes action "remove"
    then CallRemoveContainerFromCache cid else NoCall.
Proof.
  intros Hno. unfold dispatch.
  rewrite (Hno "create"), (Hno "start"), (Hno "restart"), (Hno "rename"),
    (Hno "unpause"), (Hno "pause"), (Hno "die"), (Hno "stop")
    by word_listed.
  reflexivity.
Qed.

Lemma dispatch_remove cid action w :
  w ∈ removeWords → Js.includes action w = true →
  (∀ r, r ∈ refreshWords → Js.includes action r = false) →
  dispatch cid action = CallRemoveContainerFromCache cid.
Proof.
  intros Hw Hin Hno. rewrite dispatch_not_refresh by done.
  unfold removeWords in Hw.
  repeat (apply elem_of_cons in Hw as [->|Hw];
          [rewrite Hin, ?orb_true_r; reflexivity|]).
  by apply elem_of_nil in Hw.
Qed.

Lemma dispatch_ignored cid action :
  (∀ w, w ∈ refreshWords ++ removeWords → Js.includes action w = false) →
  dispatch cid action = NoCall.
Proof.
  intros Hno. rewrite dispatch_not_refresh.
  - by rewrite (Hno "destroy"), (Hno "remove") by word_listed.
  - intros r Hr. apply Hno, elem_of_app. by left.
Qed.

(** An event that passes the test on its type and names a container is
    classified by its action. *)
Lemma handleEvent_dispatch evt cid :
  otherType evt = false → eventId evt = Some cid → Js.truthy cid = true →
  handleEvent evt
  = if Js.truthy (eventAction evt) then dispatch cid (eventAction evt)
    else NoCall.
Proof.
  intros Ht Hid Hcid. unfold handleEvent. rewrite Ht, Hid, Hcid. cbn.
  by destruct (Js.truthy (eventAction evt)).
Qed.

Lemma includes_truthy action w :
  Js.truthy w = true → Js.includes action w = true → Js.truthy action = true.
Proof. destruct action; [by destruct w|done]. Qed.

Lemma listed_truthy w :
  w ∈ refreshWords ++ removeWords → Js.truthy w = true.
Proof.
  unfold refreshWords, removeWords. cbn [app]. intros Hw.
  repeat (apply elem_of_cons in Hw as [->|Hw]; [reflexivity|]).
  by apply elem_of_nil in Hw.
Qed.

(** The call made for a line that parses to a well-formed container
    event, by the words its action contains. *)
Lemma line_refresh line evt cid w :
  parseEventLine line = Return (Some evt) →
  otherType evt = false → eventId evt = Some cid → Js.truthy cid = true →
  w ∈ refreshWords → Js.includes (eventAction evt) w = true →
  handleDockerEventLine parseEventLine line = CallRefreshSingleContainer cid.
Proof.
  intros Hp Ht Hid Hcid Hw Hin. unfold handleDockerEventLine. rewrite Hp.
  rewrite (handleEvent_dispatch evt cid) by done.
  rewrite (includes_truthy _ w); [by eapply dispatch_refresh| |done].
  apply listed_truthy, elem_of_app. by left.
Qed.

Lemma line_remove line evt cid w :
  parseEventLine line = Return (Some evt) →
  otherType evt = false → eventId evt = Some cid → Js.truthy cid = true →
  w ∈ removeWords → Js.includes (eventAction evt) w = true →
  (∀ r, r ∈ refreshWords → Js.includes (eventAction evt) r = false) →
  handleDockerEventLine parseEventLine line = CallRemoveContainerFromCache cid.
Proof.
  intros Hp Ht Hid Hcid Hw Hin Hno. unfold handleDockerEventLine. rewrite Hp.
  rewrite (handleEvent_dispatch evt cid) by done.
  rewrite (includes_truthy _ w); [by eapply dispatch_remove| |done].
  apply listed_truthy, elem_of_app. by right.
Qed.

Lemma line_ignored line evt cid :
  parseEventLine line = Return (Some evt) →
  otherType evt = false → eventId evt = Some cid → Js.truthy cid = true →
  (∀ w, w ∈ refreshWords ++ removeWords →
        Js.includes (eventAction evt) w = false) →
  handleDockerEventLine parseEventLine line = NoCall.
Proof.
  intros Hp Ht Hid Hcid Hno. unfold handleDockerEventLine. rewrite Hp.
  rewrite (handleEvent_dispatch evt cid) by done.
  destruct (Js.truthy (eventAction evt)); [|done].
  by apply dispatch_ignored.
Qed.

Lemma line_other_type line evt :
  parseEventLine line = Return (Some evt) →
  otherType evt = true →
  handleDockerEventLine parseEventLine line = NoCall.
Proof.
  intros Hp Ht. unfold handleDockerEventLine, handleEvent. by rewrite Hp, Ht.
Qed.

Lemma otherType_spec evt :
  otherType evt = true
  ↔ ∃ t, ev_Type evt = Some t ∧ t ≠ "" ∧ t ≠ "container".
Proof.
  unfold otherType, isContainerType. destruct (ev_Type evt) as [t|].
  - rewrite andb_true_iff, negb_true_iff, String.eqb_neq. split.
    + intros [Ht Hne]. exists t. repeat split; [|done]. by intros ->.
    + intros (t' & [= <-] & Ht & Hne). split; [by destruct t|done].
  - split; [done|]. by intros (t & ? & _).
Qed.
End Events.

(** C6, as stated, on two events.  [docker exec c1 rm -f /tmp/remove.me]
    is reported with an action that contains both "start" and "remove":
    the test for the refresh words comes first and returns, so the
    container is refreshed, not removed.  An event whose [Type] is the
    empty string is present and is not "container", yet it passes the
    test on the type and its container is removed from the cache. *)
Lemma C6_refresh_words_come_first :
  let exec := mkEvent (Some "container") (Some "c1") None None
                (Some "exec_start: rm -f /tmp/remove.me")
                (Some "exec_start: rm -f /tmp/remove.me") in
  let untyped := mkEvent (Some "") (Some "c1") None None None (Some "destroy") in
  Js.includes (eventAction exec) "remove" = true
  ∧ handleEvent exec = CallRefreshSingleContainer "c1"
  ∧ handleEvent exec ≠ CallRemoveContainerFromCache "c1"
  ∧ handleEvent untyped = CallRemoveContainerFromCache "c1".
Proof. vm_compute. repeat split; discriminate. Qed.

(** C6 (amended): for a line that parses to an event naming a container,
    whose [Type] is absent, empty or "container", the lower-cased action
    decides the call: if it contains one of create, start, restart, rename,
    unpause, pause, die, stop, the container is refreshed; otherwise, if
    it contains destroy or remove, the container is removed from the
    cache; otherwise nothing is called and the cache is unchanged.  A line
    whose event has a non-empty [Type] other than "container" leaves the
    cache unchanged. *)
Theorem C6_event_classification
    (parsePsLine : string → JsonPs)
    (parseEventLine : string → completion (option DockerEvent))
    (resolveUrl resolveIcon :
       string → list PortMapping → option string → option string)
    (line : string) (evt : DockerEvent) (cid : string)
    (ps : completion string)
    (inspect : option string → completion (option Details))
    (cache : ContainersCache) :
  parseEventLine line = Return (Some evt) →
  let call := handleDockerEventLine parseEventLine line in
  let after := applyEventLine parsePsLine parseEventLine resolveUrl resolveIcon
                 line ps inspect cache in
  (otherType evt = false → eventId evt = Some cid → Js.truthy cid = true →
     (∀ w, w ∈ refreshWords → Js.includes (eventAction evt) w = true →
        call = CallRefreshSingleContainer cid
        ∧ after = refreshSingleContainer parsePsLine resolveUrl resolveIcon
                    cid ps inspect cache)
     ∧ (∀ w, w ∈ removeWords → Js.includes (eventAction evt) w = true →
        (∀ r, r ∈ refreshWords → Js.includes (eventAction evt) r = false) →
        call = CallRemoveContainerFromCache cid
        ∧ after = removeContainerFromCache cid cache)
     ∧ ((∀ w, w ∈ refreshWords ++ removeWords →
              Js.includes (eventAction evt) w = false) →
        call = NoCall ∧ after = cache))
  ∧ ((∃ t, ev_Type evt = Some t ∧ t ≠ "" ∧ t ≠ "container") →
     call = NoCall ∧ after = cache).
Proof.
  intros Hp call after. unfold after, applyEventLine. fold call. split.
  - intros Ht Hid Hcid. split; [|split].
    + intros w Hw Hin.
      assert (call = CallRefreshSingleContainer cid) as ->
        by (by eapply line_refresh). done.
    + intros w Hw Hin Hno.
      assert (call = CallRemoveContainerFromCache cid) as ->
        by (by eapply line_remove). done.
    + intros Hno.
      assert (call = NoCall) as -> by (by eapply line_ignored). done.
  - intros Ht%otherType_spec.
    assert (call = NoCall) as -> by (by eapply line_other_type). done.
Qed.

Lemma C6_event_classification_witness :
  let die := mkEvent (Some "container") (Some "c1") None None None (Some "Die") in
  let destroy := mkEvent (Some "container") (Some "c1") None None
                   (Some "destroy") (Some "destroy") in
  let parse := λ line : string,
    Return (Some (if String.eqb line "die" then die else destroy)) in
  (Js.includes (eventAction die) "die" = true
   ∧ handleDockerEventLine parse "die" = CallRefreshSingleContainer "c1")
  ∧ (Js.includes (eventAction destroy) "destroy" = true
     ∧ (∀ r, r ∈ refreshWords → Js.includes (eventAction destroy) r = false)
     ∧ handleDockerEventLine parse "destroy" = CallRemoveContainerFromCache "c1").
Proof.
  intros die destroy parse.
  assert (∀ r, r ∈ refreshWords → Js.includes (eventAction destroy) r = false)
    as Hno.
  { unfold refreshWords. intros r Hr.
    repeat (apply elem_of_cons in Hr as [->|Hr]; [reflexivity|]).
    by apply elem_of_nil in Hr. }
  split.
  - split; [reflexivity|].
    refine (proj1 (proj1 (proj1
      (C6_event_classification sampleParsePs parse noLink noLink "die" die "c1"
         (Throw "") (λ _, Throw "") containersCache0 eq_refl)
      eq_refl eq_refl eq_refl) "die" _ eq_refl)).
    apply (bool_decide_unpack _). by vm_compute.
  - split; [reflexivity|]. split; [exact Hno|].
    refine (proj1 (proj1 (proj2 (proj1
      (C6_event_classification sampleParsePs parse noLink noLink "destroy"
         destroy "c1" (Throw "") (λ _, Throw "") containersCache0 eq_refl)
      eq_refl eq_refl eq_refl)) "destroy" _ eq_refl Hno)).
    apply (bool_decide_unpack _). by vm_compute.
Defined.



(** * Further properties *)

(** ** Strings *)

Lemma app_nil_s (t : string) : "" +:+ t = t.
Proof. reflexivity. Qed.

Lemma app_cons_s (c : ascii) (s t : string) :
  String c s +:+ t = String c (s +:+ t).
Proof. reflexivity. Qed.

Ltac sstep := rewrite ?app_nil_s, ?app_cons_s; cbn.

Section Strings.
Implicit Types (s t x y : string) (c : ascii).

Lemma app_empty_r s : s +:+ "" = s.
Proof. induction s; sstep; [done|]. by f_equal. Qed.

Lemma app_assoc_s s t x : (s +:+ t) +:+ x = s +:+ (t +:+ x).
Proof. induction s; sstep; [done|]. by f_equal. Qed.

Lemma length_app_s s t :
  String.length (s +:+ t) = (String.length s + String.length t)%nat.
Proof. induction s; sstep; [done|]. by f_equal. Qed.

Lemma indexOf_app c x y i :
  JsStr.indexOf c x = Some i → JsStr.indexOf c (x +:+ y) = Some i.
Proof.
  revert i. induction x as [|d x IH]; intros i; sstep; [done|].
  destruct (Ascii.eqb d c); [done|].
  destruct (JsStr.indexOf c x) as [j|]; [|done].
  intros [= <-]. by rewrite (IH j).
Qed.

Lemma indexOf_app_None c x y :
  JsStr.indexOf c x = None →
  JsStr.indexOf c (x +:+ y)
  = (λ j, (String.length x + j)%nat) <$> JsStr.indexOf c y.
Proof.
  induction x as [|d x IH]; sstep.
  - intros _. by destruct (JsStr.indexOf c y).
  - destruct (Ascii.eqb d c); [done|].
    destruct (JsStr.indexOf c x) as [j|] eqn:Hx; [done|]. intros _.
    rewrite IH by done. by destruct (JsStr.indexOf c y).
Qed.

Lemma indexOf_lt c x i :
  JsStr.indexOf c x = Some i → (i < String.length x)%nat.
Proof.
  revert i. induction x as [|d x IH]; intros i; cbn; [done|].
  destruct (Ascii.eqb d c); [intros [= <-]; lia|].
  destruct (JsStr.indexOf c x) as [j|]; [|done].
  intros [= <-]. specialize (IH j eq_refl). lia.
Qed.

Lemma sliceTo_app x y i :
  (i ≤ String.length x)%nat → JsStr.sliceTo i (x +:+ y) = JsStr.sliceTo i x.
Proof.
  unfold JsStr.sliceTo. revert i. induction x as [|d x IH]; intros i; sstep.
  - intros Hi. assert (i = 0%nat) as -> by lia. by destruct y.
  - destruct i as [|i]; [done|]. intros Hi. cbn. f_equal. apply IH. lia.
Qed.

Lemma sliceFrom_app x y i :
  (i ≤ String.length x)%nat →
  JsStr.sliceFrom i (x +:+ y) = JsStr.sliceFrom i x +:+ y.
Proof.
  revert i. induction x as [|d x IH]; intros i; sstep.
  - intros Hi. by assert (i = 0%nat) as -> by lia.
  - destruct i as [|i]; [done|]. intros Hi. cbn. apply IH. lia.
Qed.

Lemma length_sliceFrom x i :
  String.length (JsStr.sliceFrom i x) = (String.length x - i)%nat.
Proof.
  revert i. induction x as [|d x IH]; intros [|i]; cbn; auto.
Qed.

Lemma has_app c x y : JsStr.has c (x +:+ y) = JsStr.has c x || JsStr.has c y.
Proof.
  induction x as [|d x IH]; sstep; [done|]. by rewrite IH, orb_assoc.
Qed.

Lemma has_indexOf c x : JsStr.has c x = false ↔ JsStr.indexOf c x = None.
Proof.
  induction x as [|d x IH]; cbn; [done|].
  destruct (Ascii.eqb d c); cbn; [done|].
  rewrite IH. by destruct (JsStr.indexOf c x).
Qed.

Lemma rev_app_spec s t : String.rev_app s t = String.rev s +:+ t.
Proof.
  unfold String.rev. revert t. induction s as [|c s IH]; intros t; cbn; [done|].
  rewrite (IH (String c t)), (IH (String c "")), app_assoc_s. by sstep.
Qed.

Lemma rev_cons c s : String.rev (String c s) = String.rev s +:+ String c "".
Proof. unfold String.rev at 1. cbn. apply rev_app_spec. Qed.

Lemma rev_app_s s t : String.rev (s +:+ t) = String.rev t +:+ String.rev s.
Proof.
  induction s as [|c s IH].
  - by rewrite app_nil_s, app_empty_r.
  - by rewrite app_cons_s, !rev_cons, IH, app_assoc_s.
Qed.

Lemma rev_involutive s : String.rev (String.rev s) = s.
Proof.
  induction s as [|c s IH]; [done|].
  rewrite rev_cons, rev_app_s, IH. by sstep.
Qed.

Lemma length_rev s : String.length (String.rev s) = String.length s.
Proof.
  induction s as [|c s IH]; [done|].
  rewrite rev_cons, length_app_s, IH. cbn. lia.
Qed.

Lemma has_rev c s : JsStr.has c (String.rev s) = JsStr.has c s.
Proof.
  induction s as [|d s IH]; [done|].
  rewrite rev_cons, has_app, IH. cbn. by rewrite orb_false_r, orb_comm.
Qed.

Lemma all_app p s t : JsStr.all p (s +:+ t) = JsStr.all p s && JsStr.all p t.
Proof. induction s as [|c s IH]; sstep; [done|]. by rewrite IH, andb_assoc. Qed.

Lemma all_rev p s : JsStr.all p (String.rev s) = JsStr.all p s.
Proof.
  induction s as [|d s IH]; [done|].
  rewrite rev_cons, all_app, IH. cbn. by rewrite andb_true_r, andb_comm.
Qed.

(** [trimStart] drops a prefix of white space and stops at the first
    other character. *)
Lemma trimStart_split s :
  ∃ w, s = w +:+ Js.trimStart s ∧ JsStr.all Js.is_ws w = true.
Proof.
  induction s as [|c s (w & Hs & Hw)]; [by exists ""|]. cbn.
  destruct (Js.is_ws c) eqn:Hc.
  - exists (String c w). sstep. by rewrite <- Hs, Hc, Hw.
  - by exists "".
Qed.

Lemma trimStart_head s c r : Js.trimStart s = String c r → Js.is_ws c = false.
Proof.
  induction s as [|d s IH]; cbn; [done|].
  destruct (Js.is_ws d) eqn:Hd; [done|]. by intros [= <- _].
Qed.

Lemma trimStart_id s :
  match s with String c _ => Js.is_ws c = false | EmptyString => True end →
  Js.trimStart s = s.
Proof. destruct s as [|c s]; cbn; [done|]. by intros ->. Qed.

Lemma has_trimStart c s : JsStr.has c (Js.trimStart s) = true → JsStr.has c s = true.
Proof.
  destruct (trimStart_split s) as (w & Hs & _). intros H.
  rewrite Hs, has_app, H. apply orb_true_r.
Qed.

Lemma has_trim c s : JsStr.has c (Js.trim s) = true → JsStr.has c s = true.
Proof.
  unfold Js.trim. rewrite has_rev. intros H%has_trimStart.
  rewrite has_rev in H. by apply has_trimStart.
Qed.

Lemma noEdgeSpace_trim s : JsStr.noEdgeSpace (Js.trim s) = true.
Proof.
  unfold Js.trim.
  set (u := Js.trimStart s). set (t := Js.trimStart (String.rev u)).
  destruct (trimStart_split (String.rev u)) as (w & Hu & _). fold t in Hu.
  assert (u = String.rev t +:+ String.rev w) as Hu'.
  { by rewrite <- (rev_involutive u), Hu, rev_app_s. }
  unfold JsStr.noEdgeSpace. rewrite rev_involutive.
  destruct (String.rev t) as [|c r] eqn:Hr; [done|].
  apply andb_true_iff. split.
  - rewrite Hu' in *. apply negb_true_iff.
    apply (trimStart_head s c (r +:+ String.rev w)). fold u. by rewrite Hu'.
  - destruct t as [|d t'] eqn:Ht; [done|]. apply negb_true_iff.
    by apply (trimStart_head (String.rev u) d t').
Qed.

Lemma trim_id s : JsStr.noEdgeSpace s = true → Js.trim s = s.
Proof.
  unfold JsStr.noEdgeSpace, Js.trim. destruct s as [|c s]; [done|].
  intros [Hc Hd]%andb_true_iff. apply negb_true_iff in Hc.
  rewrite (trimStart_id (String c s)) by done.
  destruct (String.rev (String c s)) as [|d r] eqn:Hr.
  - by rewrite <- (rev_involutive (String c s)), Hr.
  - apply negb_true_iff in Hd. rewrite (trimStart_id (String d r)) by done.
    by rewrite <- Hr, rev_involutive.
Qed.

Lemma trim_idemp s : Js.trim (Js.trim s) = Js.trim s.
Proof. apply trim_id, noEdgeSpace_trim. Qed.
End Strings.

(** ** The event stream *)

Lemma drainLines_fuel (n m : nat) (s : string) :
  (String.length s ≤ n)%nat → (String.length s ≤ m)%nat →
  drainLines n s = drainLines m s.
Proof.
  revert m s. induction n as [|n IH]; intros m s Hn Hm.
  - destruct s; [|cbn in Hn; lia]. by destruct m.
  - destruct m as [|m].
    + destruct s; [done|cbn in Hm; lia].
    + cbn [drainLines].
      destruct (JsStr.indexOf newline s) as [i|] eqn:Hi; [|done].
      apply indexOf_lt in Hi.
      by rewrite (IH m (JsStr.sliceFrom (S i) s))
        by (rewrite length_sliceFrom; lia).
Qed.

Lemma drainLines_app (n : nat) (x y : string) :
  (String.length x ≤ n)%nat →
  drainLines (String.length (x +:+ y)) (x +:+ y)
  = let '(l1, r1) := drainLines n x in
    let '(l2, r2) := drainLines (String.length (r1 +:+ y)) (r1 +:+ y) in
    (l1 ++ l2, r2).
Proof.
  revert x. induction n as [|n IH]; intros x Hn.
  - destruct x; [|cbn in Hn; lia]. cbn [drainLines].
    by destruct (drainLines _ _).
  - cbn [drainLines].
    destruct (JsStr.indexOf newline x) as [i|] eqn:Hi.
    + pose proof (indexOf_lt _ _ _ Hi) as Hlt.
      assert (String.length (x +:+ y) = S (Nat.pred (String.length (x +:+ y))))
        as Hlen by (rewrite length_app_s; lia).
      rewrite Hlen. cbn [drainLines].
      rewrite (indexOf_app _ _ y _ Hi), sliceTo_app, sliceFrom_app by lia.
      set (x' := JsStr.sliceFrom (S i) x).
      assert (String.length x' ≤ n)%nat as Hx'
        by (unfold x'; rewrite length_sliceFrom; lia).
      rewrite (drainLines_fuel _ (String.length (x' +:+ y)))
        by (unfold x'; rewrite !length_app_s, ?length_sliceFrom; lia).
      rewrite (IH x' Hx').
      destruct (drainLines n x') as [l1 r1].
      destruct (drainLines _ (r1 +:+ y)) as [l2 r2].
      by destruct (Js.truthy _).
    + by destruct (drainLines _ _).
Qed.

(** The loop on a text that arrives in two parts. *)
Lemma drainLines_split (buffer c1 c2 : string) :
  drainLines (String.length (buffer +:+ c1 +:+ c2)) (buffer +:+ c1 +:+ c2)
  = let '(l1, r1) :=
      drainLines (String.length (buffer +:+ c1)) (buffer +:+ c1) in
    let '(l2, r2) := drainLines (String.length (r1 +:+ c2)) (r1 +:+ c2) in
    (l1 ++ l2, r2).
Proof. rewrite <- app_assoc_s. by apply drainLines_app. Qed.

Lemma drainLines_nothing (buffer : string) :
  JsStr.has newline buffer = false →
  drainLines (String.length buffer) buffer = ([], buffer).
Proof.
  intros Hb%has_indexOf. destruct (String.length buffer); cbn; [done|].
  by rewrite Hb.
Qed.

(** What the loop hands over and what it leaves. *)
Lemma drainLines_output (n : nat) (s : string) :
  (String.length s ≤ n)%nat →
  Forall (λ line, Js.truthy line = true
                  ∧ JsStr.has newline line = false
                  ∧ JsStr.noEdgeSpace line = true) (drainLines n s).1
  ∧ JsStr.has newline (drainLines n s).2 = false.
Proof.
  revert s. induction n as [|n IH]; intros s Hn.
  - destruct s; [|cbn in Hn; lia]. by split.
  - cbn [drainLines].
    destruct (JsStr.indexOf newline s) as [i|] eqn:Hi.
    + pose proof (indexOf_lt _ _ _ Hi) as Hlt.
      destruct (IH (JsStr.sliceFrom (S i) s)) as [Hl Hr];
        [rewrite length_sliceFrom; lia|].
      destruct (drainLines n _) as [l r]. cbn [fst snd] in *.
      split; [|done].
      destruct (Js.truthy (Js.trim (JsStr.sliceTo i s))) eqn:Ht; [|done].
      constructor; [|done]. split; [done|]. split; [|apply noEdgeSpace_trim].
      destruct (JsStr.has newline (Js.trim (JsStr.sliceTo i s))) eqn:Hh; [|done].
      apply has_trim in Hh. exfalso. clear -Hi Hh.
      revert i Hi Hh. unfold JsStr.sliceTo.
      induction s as [|c s IHs]; intros i; cbn; [done|].
      destruct (Ascii.eqb c newline) eqn:Hc; [by intros [= <-]|].
      destruct (JsStr.indexOf newline s) as [j|]; [|done].
      intros [= <-]. cbn. rewrite Hc. cbn. by apply IHs.
    + split; [done|]. by apply has_indexOf.
Qed.

(** X1: the lines handed over depend on the chunks only through the
    text they decode to.  The data handler, run on a sequence of chunks,
    hands over the same lines, in the same order, and is left with the
    same unfinished line as the loop run once on the buffer followed by
    the decoded chunks; so when the chunks are cut between characters
    (decoding them one by one gives the decoding of all the bytes), the
    result is that of a single chunk holding all the bytes. *)
Theorem X1_event_lines_do_not_depend_on_chunking
    (toString : Buffer → string) (buffer : string) (chunks : list Buffer) :
  JsStr.has newline buffer = false →
  let text := buffer +:+ String.concat "" (toString <$> chunks) in
  onStdoutChunks toString buffer chunks
  = drainLines (String.length text) text
  ∧ (toString (List.concat chunks)
     = String.concat "" (toString <$> chunks) →
     onStdoutChunks toString buffer chunks
     = onStdoutData toString buffer (List.concat chunks)).
Proof.
  intros Hb text.
  assert (onStdoutChunks toString buffer chunks
          = drainLines (String.length text) text) as Hall.
  { unfold text. clear text. revert buffer Hb.
    induction chunks as [|chunk chunks IH]; intros buffer Hb.
    - cbn. by rewrite app_empty_r, drainLines_nothing.
    - cbn [onStdoutChunks fmap list_fmap].
      assert (String.concat "" (toString chunk :: (toString <$> chunks))
              = toString chunk +:+ String.concat "" (toString <$> chunks))
        as ->.
      { destruct (toString <$> chunks); cbn; [by rewrite app_empty_r|done]. }
      rewrite drainLines_split. unfold onStdoutData.
      pose proof (drainLines_output
                    (String.length (buffer +:+ toString chunk))
                    (buffer +:+ toString chunk) (Nat.le_refl _)) as [_ Hr].
      destruct (drainLines _ (buffer +:+ toString chunk)) as [l1 r1].
      cbn [snd] in Hr. by rewrite (IH r1 Hr). }
  split; [exact Hall|]. intros Hcut. rewrite Hall.
  unfold onStdoutData, text. by rewrite Hcut.
Qed.

Lemma X1_event_lines_do_not_depend_on_chunking_witness :
  let chunks := [list_byte_of_string "rt}
{d"; list_byte_of_string "ie}
  
{rem"] in
  JsStr.has newline "{sta" = false
  ∧ string_of_list_byte (List.concat chunks)
    = String.concat "" (string_of_list_byte <$> chunks)
  ∧ onStdoutChunks string_of_list_byte "{sta" chunks
    = (["{start}"; "{die}"], "{rem").
Proof.
  intros chunks.
  assert (string_of_list_byte (List.concat chunks)
          = String.concat "" (string_of_list_byte <$> chunks)) as Hcut
    by (vm_compute; reflexivity).
  split; [reflexivity|]. split; [exact Hcut|].
  rewrite (proj2 (X1_event_lines_do_not_depend_on_chunking
                    string_of_list_byte "{sta" chunks eq_refl) Hcut).
  vm_compute. reflexivity.
Defined.

(** X2: every line the data handler hands to the event handler is
    non-empty, has no newline and no white space at either end, and the
    buffer it keeps holds no newline: a complete line never waits in the
    buffer. *)
Theorem X2_event_lines_are_trimmed (toString : Buffer → string)
    (buffer : string) (chunk : Buffer) :
  Forall (λ line, Js.truthy line = true
                  ∧ JsStr.has newline line = false
                  ∧ JsStr.noEdgeSpace line = true)
         (onStdoutData toString buffer chunk).1
  ∧ JsStr.has newline (onStdoutData toString buffer chunk).2 = false.
Proof. apply drainLines_output. lia. Qed.

(** ** The container snapshot and the inventory operations *)

Section SnapshotProps.
Variable parsePsLine : string → JsonPs.
Variable parseEventLine : string → completion (option DockerEvent).
Variable resolveUrl resolveIcon :
  string → list PortMapping → option string → option string.

Local Abbreviation fullRefresh :=
  (fullContainersRefresh parsePsLine resolveUrl resolveIcon).
Local Abbreviation step :=
  (snapshotStep parsePsLine parseEventLine resolveUrl resolveIcon).
Local Abbreviation run :=
  (snapshotRun parsePsLine parseEventLine resolveUrl resolveIcon).

Lemma fullRefresh_initialised ps inspect cache :
  initialised (fullRefresh ps inspect cache) = true.
Proof.
  destruct (fullRefresh_cases parsePsLine resolveUrl resolveIcon ps inspect cache)
    as [->|[->|(stdout & im & l' & m' & _ & _ & ->)]]; reflexivity.
Qed.

Lemma fullRefresh_failed err inspect cache :
  fullRefresh (Throw err) inspect cache
  = mkCache true (list_ cache) (byId cache).
Proof. reflexivity. Qed.

Lemma upsert_initialised container cache :
  initialised (upsertContainerInCache container cache) = initialised cache.
Proof.
  unfold upsertContainerInCache.
  by destruct (findIndex _ _), (Js.truthy _).
Qed.

Lemma remove_initialised cid cache :
  initialised (removeContainerFromCache cid cache) = initialised cache.
Proof. unfold removeContainerFromCache. by destruct (negb _). Qed.

(** An event never touches the mark. *)
Lemma applyEventLine_initialised line ps inspect cache :
  initialised (applyEventLine parsePsLine parseEventLine resolveUrl resolveIcon
                 line ps inspect cache)
  = initialised cache.
Proof.
  unfold applyEventLine. destruct (handleDockerEventLine _ _) as [|cid|cid].
  - done.
  - destruct (refreshSingle_cases parsePsLine resolveUrl resolveIcon
                cid ps inspect cache) as [->|[->|(obj & _ & ->)]];
      [done|apply remove_initialised|apply upsert_initialised].
  - apply remove_initialised.
Qed.

(** Once the cache is marked, no step starts a listing. *)
Lemma step_marked st s :
  initialised (sn_cache st) = true →
  initialised (sn_cache (step st s)) = true
  ∧ sn_listings (step st s) = sn_listings st.
Proof.
  intros Hinit. destruct s as [|ps inspect|line ps inspect]; cbn [snapshotStep].
  - unfold getContainersSnapshot. by rewrite Hinit.
  - destruct (sn_awaiting st); [done|]. cbn. by rewrite fullRefresh_initialised.
  - cbn. by rewrite applyEventLine_initialised.
Qed.

Lemma run_marked steps : ∀ st,
  initialised (sn_cache st) = true →
  initialised (sn_cache (run st steps)) = true
  ∧ sn_listings (run st steps) = sn_listings st.
Proof.
  induction steps as [|s steps IH]; intros st Hinit; [done|].
  cbn [snapshotRun foldl]. destruct (step_marked st s Hinit) as [Hi Hl].
  destruct (IH _ Hi) as [Hi' Hl']. split; [done|].
  unfold snapshotRun in Hl'. by rewrite Hl'.
Qed.

(** Until a refresh ends, every call that begins starts a listing and
    waits. *)
Lemma run_unmarked steps : ∀ st,
  initialised (sn_cache st) = false → noRefreshEnds steps →
  initialised (sn_cache (run st steps)) = false
  ∧ sn_listings (run st steps) = (sn_listings st + callsBegun steps)%nat
  ∧ sn_awaiting (run st steps) = (sn_awaiting st + callsBegun steps)%nat.
Proof.
  unfold callsBegun.
  induction steps as [|s steps IH]; intros st Hinit Hno.
  - cbn. by rewrite !Nat.add_0_r.
  - apply Forall_cons in Hno as [Hs Hno]. cbn [snapshotRun foldl].
    destruct s as [|ps inspect|line ps inspect]; [| done |].
    + rewrite filter_cons_True by done. cbn [length snapshotStep].
      unfold getContainersSnapshot. rewrite Hinit. cbn [negb].
      destruct (IH (mkSnapshotState (sn_cache st) (S (sn_awaiting st))
                      (S (sn_listings st))) Hinit Hno) as (Hi & Hl & Ha).
      unfold snapshotRun in Hi, Hl, Ha. cbn in Hl, Ha.
      rewrite Hi, Hl, Ha. split; [done|]. split; lia.
    + rewrite filter_cons_False by done. cbn [snapshotStep].
      destruct (IH (mkSnapshotState
                      (applyEventLine parsePsLine parseEventLine resolveUrl
                         resolveIcon line ps inspect (sn_cache st))
                      (sn_awaiting st) (sn_listings st))) as (Hi & Hl & Ha);
        [by cbn; rewrite applyEventLine_initialised|done|].
      unfold snapshotRun in Hi, Hl, Ha. cbn in Hl, Ha. by rewrite Hi, Hl, Ha.
Qed.

(** X3: a full listing is taken by every call that begins before the
    first refresh has ended, and by no call after.  The calls run on an
    unserialised timer: while the cache is not initialised each call that
    begins starts its own listing, so the listings taken are as many as
    the calls begun before the first refresh ends, whatever events are
    handled meanwhile.  When a refresh ends the cache is marked
    initialised, whatever the Docker commands returned; from then on no
    step starts a listing and a call returns the list of the cache at
    once. *)
Theorem X3_listings_until_first_refresh_ends
    (st : SnapshotState) (before after : list SnapshotStep)
    (ps : completion string)
    (inspect : list string → completion (list Details)) :
  initialised (sn_cache st) = false →
  noRefreshEnds before →
  (0 < sn_awaiting st + callsBegun before)%nat →
  let final := run st (before ++ RefreshEnds ps inspect :: after) in
  sn_listings final = (sn_listings st + callsBegun before)%nat
  ∧ initialised (sn_cache final) = true
  ∧ getContainersSnapshot (sn_cache final) = Some (list_ (sn_cache final))
  ∧ (∀ later, sn_listings (run final later) = sn_listings final
              ∧ initialised (sn_cache (run final later)) = true).
Proof.
  intros Hinit Hno Hwait final.
  destruct (run_unmarked before st Hinit Hno) as (Hi & Hl & Ha).
  assert (initialised (sn_cache final) = true
          ∧ sn_listings final = (sn_listings st + callsBegun before)%nat)
    as [Hfi Hfl].
  { unfold final, snapshotRun. rewrite foldl_app. cbn [foldl].
    fold (run st before).
    set (mid := step (run st before) (RefreshEnds ps inspect)).
    assert (initialised (sn_cache mid) = true
            ∧ sn_listings mid = sn_listings (run st before)) as [Hmi Hml].
    { unfold mid. cbn [snapshotStep].
      destruct (sn_awaiting (run st before)) as [|w] eqn:Hw; [lia|].
      cbn. by rewrite fullRefresh_initialised. }
    destruct (run_marked after mid Hmi) as [Hai Hal].
    unfold snapshotRun in Hai, Hal. rewrite Hai, Hal, Hml, Hl. done. }
  split; [exact Hfl|]. split; [exact Hfi|]. split.
  - unfold getContainersSnapshot. by rewrite Hfi.
  - intros later. destruct (run_marked later final Hfi) as [? ?]. done.
Qed.

End SnapshotProps.

Lemma X3_listings_until_first_refresh_ends_witness :
  let st := mkSnapshotState containersCache0 0 0 in
  let before := [CallBegins; EventHandled "start" (Return "") (λ _, Return None);
                 CallBegins] in
  let after := [CallBegins; RefreshEnds (Throw "docker: not found") (λ _, Return []);
                CallBegins] in
  initialised (sn_cache st) = false
  ∧ noRefreshEnds before
  ∧ (0 < sn_awaiting st + callsBegun before)%nat
  ∧ sn_listings
      (snapshotRun sampleParsePs sampleParseEvent noLink noLink st
         (before ++ RefreshEnds (Return "c1
c2
") (λ _, Return []) :: after)) = 2%nat.
Proof.
  intros st before after.
  assert (noRefreshEnds before) as Hno by (repeat constructor).
  assert (0 < sn_awaiting st + callsBegun before)%nat as Hwait
    by (vm_compute; lia).
  split; [reflexivity|]. split; [exact Hno|]. split; [exact Hwait|].
  exact (proj1 (X3_listings_until_first_refresh_ends sampleParsePs
                  sampleParseEvent noLink noLink st before after
                  (Return "c1
c2
") (λ _, Return []) eq_refl Hno Hwait)).
Defined.

Section InventoryMore.
Implicit Types (c x : Container) (l : list Container) (cache : ContainersCache).

Lemma others_upsertList c l :
  filter (λ x, id x ≠ id c) (upsertList c l) = filter (λ x, id x ≠ id c) l.
Proof.
  induction l as [|y l IH]; cbn [upsertList].
  - by rewrite filter_cons_False by (intros H; by apply H).
  - destruct (String.eqb (id y) (id c)) eqn:Hyc.
    + apply String.eqb_eq in Hyc.
      rewrite !filter_cons_False; [done|intros H; by apply H..].
    + apply String.eqb_neq in Hyc. by rewrite !filter_cons_True, IH by done.
Qed.

Lemma length_upsertList c l :
  length (upsertList c l)
  = if decide (id c ∈ id <$> l) then length l else S (length l).
Proof.
  rewrite <- (length_fmap id (upsertList c l)), ids_upsertList.
  case_decide; rewrite ?length_app, !length_fmap; cbn; lia.
Qed.

(** X4: an upsert touches one container only.  The container is bound to
    its id in [byId] and is the sole entry of the list with that id; all
    other containers keep their place and their order in the list and
    their binding in [byId]; the list grows by one when the id is new and
    keeps its length otherwise. *)
Theorem X4_upsert_is_local (container : Container) (cache : ContainersCache) :
  uniqueIds cache →
  Js.truthy (id container) = true →
  let after := upsertContainerInCache container cache in
  byId after !! id container = Some container
  ∧ entriesWithId (id container) (list_ after) = [container]
  ∧ filter (λ x, id x ≠ id container) (list_ after)
    = filter (λ x, id x ≠ id container) (list_ cache)
  ∧ (∀ k, k ≠ id container → byId after !! k = byId cache !! k)
  ∧ length (list_ after)
    = (if decide (id container ∈ id <$> list_ cache)
       then length (list_ cache) else S (length (list_ cache)))
  ∧ initialised after = initialised cache.
Proof.
  intros Hu Hc after. unfold after. rewrite upsert_list.
  unfold upsertContainerInCache. rewrite Hc. cbn [byId initialised].
  split; [apply lookup_insert_eq|].
  split; [by apply entriesWithId_upsertList|].
  split; [apply others_upsertList|].
  split; [intros k Hk; by apply lookup_insert_ne|].
  split; [apply length_upsertList|done].
Qed.

Lemma X4_upsert_is_local_witness :
  let web := mkContainer "c1" (Some "web") (Some "nginx") (Some "Up 2 hours")
               true [] None None None in
  let db := mkContainer "c2" (Some "db") (Some "postgres") (Some "Up 1 hour")
              true [] None None None in
  let web' := mkContainer "c1" (Some "web") (Some "nginx") (Some "Exited (0)")
                false [] None None None in
  let cache := mkCache true [web; db] (<["c2" := db]> (<["c1" := web]> ∅)) in
  uniqueIds cache
  ∧ Js.truthy (id web') = true
  ∧ list_ (upsertContainerInCache web' cache) = [web'; db]
  ∧ byId (upsertContainerInCache web' cache) !! "c2" = Some db.
Proof.
  intros web db web' cache.
  assert (uniqueIds cache) as Hu.
  { unfold uniqueIds. apply (bool_decide_unpack _). by vm_compute. }
  split; [exact Hu|]. split; [reflexivity|]. split; [reflexivity|].
  pose proof (X4_upsert_is_local web' cache Hu eq_refl)
    as (_ & _ & _ & Hother & _).
  rewrite (Hother "c2") by discriminate. reflexivity.
Defined.

Lemma filter_filter_id (cid : string) l :
  filter (λ x, negb (String.eqb (id x) cid) = true) l
  = filter (λ x, id x ≠ cid) l.
Proof.
  apply list_filter_iff. intros x.
  by rewrite negb_true_iff, String.eqb_neq.
Qed.

Lemma filter_all (P : Container → Prop) `{∀ x, Decision (P x)} l :
  Forall P l → filter P l = l.
Proof.
  induction 1 as [|x l Hx Hl IH]; [done|].
  by rewrite filter_cons_True, IH by done.
Qed.

Lemma remove_entries (cid : string) cache :
  Js.truthy cid = true →
  entriesWithId cid (list_ (removeContainerFromCache cid cache)) = []
  ∧ byId (removeContainerFromCache cid cache) !! cid = None.
Proof.
  intros Hcid. unfold removeContainerFromCache.
  rewrite Hcid. cbn [negb list_ byId]. rewrite filter_filter_id.
  split; [|apply lookup_delete_eq].
  unfold entriesWithId. apply elem_of_nil_inv.
  intros x [Hx [Hne _]%list_elem_of_filter]%list_elem_of_filter. done.
Qed.

(** X5: removal is exact and undoes an insertion.  After the removal of
    an id no entry of the list carries it and [byId] does not bind it;
    the other containers keep their order and their bindings; removing
    again changes nothing; and on a consistent cache that does not list a
    container, upserting it and removing its id gives the cache back. *)
Theorem X5_remove_is_exact (cid : string) (container : Container)
    (cache : ContainersCache) :
  Js.truthy cid = true →
  let after := removeContainerFromCache cid cache in
  entriesWithId cid (list_ after) = []
  ∧ byId after !! cid = None
  ∧ list_ after = filter (λ x, id x ≠ cid) (list_ cache)
  ∧ (∀ k, k ≠ cid → byId after !! k = byId cache !! k)
  ∧ removeContainerFromCache cid after = after
  ∧ (consistent cache → id container = cid →
     cid ∉ id <$> list_ cache →
     removeContainerFromCache cid (upsertContainerInCache container cache)
     = cache).
Proof.
  intros Hcid after. unfold after, removeContainerFromCache.
  rewrite Hcid. cbn [negb list_ byId initialised].
  rewrite !filter_filter_id.
  assert (∀ l, filter (λ x, id x ≠ cid) (filter (λ x, id x ≠ cid) l)
               = filter (λ x, id x ≠ cid) l) as Hidem.
  { intros l. apply filter_all, Forall_forall.
    by intros x [? _]%list_elem_of_filter. }
  split.
  { unfold entriesWithId. apply elem_of_nil_inv.
    intros x [Hx [Hne _]%list_elem_of_filter]%list_elem_of_filter. done. }
  split; [apply lookup_delete_eq|]. split; [done|].
  split; [intros k Hk; by apply lookup_delete_ne|].
  split; [by rewrite Hidem, delete_delete_eq|].
  intros [Hpres Huniq Hby] Hc Hfresh. subst cid.
  rewrite upsert_list, upsertList_absent by done.
  unfold upsertContainerInCache. rewrite Hcid. cbn [byId initialised].
  rewrite filter_app, filter_cons_False, filter_nil, app_nil_r
    by (intros H; by apply H).
  rewrite filter_all.
  - rewrite delete_insert_eq, delete_id; [by destruct cache|].
    destruct (byId cache !! id container) as [x|] eqn:Hx; [|done].
    apply Hby in Hx as [Hin Hid]. exfalso. apply Hfresh.
    rewrite <- Hid. by apply list_elem_of_fmap_2.
  - apply Forall_forall. intros x Hx Hid. apply Hfresh.
    rewrite <- Hid. by apply list_elem_of_fmap_2.
Qed.

Lemma X5_remove_is_exact_witness :
  let web := mkContainer "c1" (Some "web") (Some "nginx") (Some "Up 2 hours")
               true [] None None None in
  let db := mkContainer "c2" (Some "db") (Some "postgres") (Some "Up 1 hour")
              true [] None None None in
  let cache := mkCache true [web] (<["c1" := web]> ∅) in
  Js.truthy "c2" = true
  ∧ consistent cache
  ∧ ("c2" ∉ id <$> list_ cache)
  ∧ removeContainerFromCache "c2" (upsertContainerInCache db cache) = cache.
Proof.
  intros web db cache.
  assert (consistent cache) as Hc.
  { apply (upsert_consistent web (mkCache true [] ∅) eq_refl),
      empty_consistent. }
  assert ("c2" ∉ (id <$> list_ cache)) as Hfresh.
  { apply (bool_decide_unpack _). by vm_compute. }
  split; [reflexivity|]. split; [exact Hc|]. split; [exact Hfresh|].
  pose proof (X5_remove_is_exact "c2" db cache eq_refl)
    as (_ & _ & _ & _ & _ & Hback).
  exact (Hback Hc eq_refl Hfresh).
Defined.
End InventoryMore.

(** X6: a refresh of a container that Docker no longer lists removes it.
    When an event whose action holds one of the refresh words names a
    container and the filtered listing comes back blank (a container run
    with [--rm] that died), the container leaves the list and [byId]. *)
Theorem X6_vanished_container_is_dropped
    (parsePsLine : string → JsonPs)
    (parseEventLine : string → completion (option DockerEvent))
    (resolveUrl resolveIcon :
       string → list PortMapping → option string → option string)
    (line stdout cid w : string) (evt : DockerEvent)
    (inspect : option string → completion (option Details))
    (cache : ContainersCache) :
  parseEventLine line = Return (Some evt) →
  otherType evt = false → eventId evt = Some cid → Js.truthy cid = true →
  w ∈ refreshWords → Js.includes (eventAction evt) w = true →
  Js.truthy (Js.trim stdout) = false →
  let after := applyEventLine parsePsLine parseEventLine resolveUrl resolveIcon
                 line (Return stdout) inspect cache in
  after = removeContainerFromCache cid cache
  ∧ entriesWithId cid (list_ after) = []
  ∧ byId after !! cid = None.
Proof.
  intros Hp Ht Hid Hcid Hw Hin Hblank after.
  assert (after = removeContainerFromCache cid cache) as ->.
  { unfold after, applyEventLine.
    rewrite (line_refresh parseEventLine line evt cid w) by done.
    unfold refreshSingleContainer. by rewrite Hcid, Hblank, orb_true_r. }
  split; [done|]. by apply remove_entries.
Qed.

Lemma X6_vanished_container_is_dropped_witness :
  let web := mkContainer "c1" (Some "web") (Some "nginx") (Some "Up 2 hours")
               true [] None None None in
  let cache := mkCache true [web] (<["c1" := web]> ∅) in
  let evt := mkEvent (Some "container") (Some "c1") None None
               (Some "die") (Some "die") in
  sampleParseEvent "die" = Return (Some evt)
  ∧ Js.includes (eventAction evt) "die" = true
  ∧ Js.truthy (Js.trim " ") = false
  ∧ applyEventLine sampleParsePs sampleParseEvent noLink noLink "die"
      (Return " ") (λ _, Return None) cache
    = mkCache true [] ∅.
Proof.
  intros web cache evt.
  split; [reflexivity|]. split; [reflexivity|]. split; [reflexivity|].
  assert ("die" ∈ refreshWords) as Hw
    by (apply (bool_decide_unpack _); by vm_compute).
  rewrite (proj1 (X6_vanished_container_is_dropped sampleParsePs
                    sampleParseEvent noLink noLink "die" " " "c1" "die" evt
                    (λ _, Return None) cache eq_refl eq_refl eq_refl eq_refl
                    Hw eq_refl eq_refl)).
  by vm_compute.
Defined.

(** ** More on strings: lower case, blank text, splitting *)

Lemma lower_char_idemp (c : ascii) : Js.lower_char (Js.lower_char c) = Js.lower_char c.
Proof. destruct c as [[] [] [] [] [] [] [] []]; reflexivity. Qed.

Lemma toLowerCase_idemp (s : string) :
  Js.toLowerCase (Js.toLowerCase s) = Js.toLowerCase s.
Proof.
  induction s as [|c s IH]; cbn; [done|]. by rewrite lower_char_idemp, IH.
Qed.

Lemma truthy_rev (s : string) : Js.truthy (String.rev s) = Js.truthy s.
Proof.
  destruct s as [|c s]; [done|]. rewrite rev_cons.
  by destruct (String.rev s).
Qed.

Lemma truthy_trimStart (s : string) :
  Js.truthy (Js.trimStart s) = negb (JsStr.all Js.is_ws s).
Proof.
  induction s as [|c s IH]; cbn; [done|]. by destruct (Js.is_ws c).
Qed.

Lemma all_ws_trimStart (s : string) :
  JsStr.all Js.is_ws (Js.trimStart s) = JsStr.all Js.is_ws s.
Proof.
  induction s as [|c s IH]; cbn; [done|].
  destruct (Js.is_ws c) eqn:Hc; cbn; [done|]. by rewrite Hc.
Qed.

(** A text is blank when its trimmed form is empty. *)
Lemma truthy_trim (s : string) :
  Js.truthy (Js.trim s) = negb (JsStr.all Js.is_ws s).
Proof.
  unfold Js.trim.
  by rewrite truthy_rev, truthy_trimStart, all_rev, all_ws_trimStart.
Qed.

Lemma truthy_app_l (s t : string) :
  Js.truthy s = true → Js.truthy (s +:+ t) = true.
Proof. by destruct s. Qed.

Lemma split_go_app (sep : ascii) (cur a b : string) :
  Js.split_go sep cur (a +:+ String sep b)
  = Js.split_go sep cur a ++ Js.split_go sep EmptyString b.
Proof.
  revert cur. induction a as [|c a IH]; intros cur; sstep.
  - by rewrite Ascii.eqb_refl.
  - destruct (Ascii.eqb c sep); [by rewrite IH|apply IH].
Qed.

Lemma split_go_whole (sep : ascii) (cur s : string) :
  JsStr.has sep s = false →
  Js.split_go sep cur s = [String.rev cur +:+ s].
Proof.
  revert cur. induction s as [|c s IH]; intros cur; cbn.
  - by rewrite app_empty_r.
  - destruct (Ascii.eqb c sep); [done|]. cbn. intros Hs.
    rewrite (IH _ Hs), rev_cons, app_assoc_s. by sstep.
Qed.

Lemma split_app (sep : ascii) (a b : string) :
  Js.split sep (a +:+ String sep b) = Js.split sep a ++ Js.split sep b.
Proof. apply split_go_app. Qed.

Lemma split_whole (sep : ascii) (s : string) :
  JsStr.has sep s = false → Js.split sep s = [s].
Proof. intros Hs. unfold Js.split. by rewrite split_go_whole. Qed.

(** ** The listing of virtual machines *)

Lemma length_omap_le {A B} (f : A → option B) (l : list A) :
  (length (omap f l) ≤ length l)%nat.
Proof.
  induction l as [|x l IH]; cbn; [done|]. destruct (f x); cbn; lia.
Qed.

Lemma vmOfLine_Some (line : string) (vm : VirtualMachine) :
  vmOfLine line = Some vm →
  Js.truthy (vm_name vm) = true
  ∧ JsStr.noEdgeSpace (vm_name vm) = true
  ∧ Js.truthy (vm_state vm) = true
  ∧ Js.toLowerCase (vm_state vm) = vm_state vm
  ∧ vm_running vm = Js.startsWith (vm_state vm) "running".
Proof.
  unfold vmOfLine.
  set (parts := filter _ _).
  assert (∀ i p, parts !! i = Some p →
                 Js.truthy p = true ∧ JsStr.noEdgeSpace p = true) as Hparts.
  { intros i p Hp. apply list_elem_of_lookup_2 in Hp.
    apply list_elem_of_filter in Hp as [Hp Hin]. split; [done|].
    apply list_elem_of_fmap in Hin as (q & -> & _). apply noEdgeSpace_trim. }
  destruct (length parts <? 3)%nat; [done|].
  destruct (parts !! 1%nat) as [name|] eqn:Hn; [|done].
  destruct (parts !! 2%nat) as [state|] eqn:Hs; [|done].
  intros [= <-]. cbn.
  destruct (Hparts _ _ Hn) as [Hn1 Hn2]. destruct (Hparts _ _ Hs) as [Hs1 _].
  repeat split; [done|done| |apply toLowerCase_idemp].
  by destruct state.
Qed.

(** X7: for every output of the command the collector returns a list,
    and every virtual machine of the list has a non-empty name without
    white space at either end and a non-empty, lower-case state, and is
    marked running exactly when its state starts with "running"; there
    is at most one machine per line of the output, and a blank output,
    which is what [|| true] leaves of a [virsh] that failed, gives the
    empty list. *)
Theorem X7_vm_listing_is_well_formed (stdout : string) :
  (∃ vms, collectVmStatsFrom (Return stdout) = Return vms)
  ∧ (∀ vms, collectVmStatsFrom (Return stdout) = Return vms →
       Forall (λ vm, Js.truthy (vm_name vm) = true
                     ∧ JsStr.noEdgeSpace (vm_name vm) = true
                     ∧ Js.truthy (vm_state vm) = true
                     ∧ Js.toLowerCase (vm_state vm) = vm_state vm
                     ∧ vm_running vm = Js.startsWith (vm_state vm) "running")
              vms
       ∧ (length vms ≤ length (Js.split newline stdout))%nat
       ∧ (Js.truthy (Js.trim stdout) = false → vms = [])).
Proof.
  cbn [collectVmStatsFrom bind].
  destruct (negb (Js.truthy stdout) || negb (Js.truthy (Js.trim stdout))) eqn:Hb.
  - split; [by eexists|]. intros vms [= <-]. split; [done|].
    split; [cbn; lia|done].
  - split; [by eexists|]. intros vms [= <-].
    apply orb_false_iff in Hb as [_ Hb]. apply negb_false_iff in Hb. split.
    + apply Forall_forall. intros vm Hvm.
      apply list_elem_of_omap in Hvm as (line & _ & Hline).
      by apply vmOfLine_Some in Hline.
    + split; [|by rewrite Hb].
      etrans; [apply length_omap_le|].
      etrans; [apply length_filter|]. by rewrite length_fmap.
Qed.

Lemma X7_vm_listing_is_well_formed_witness :
  collectVmStatsFrom (Return " Id   Name     State
--------------------------
 1    win11    running
 2    Mac OS   Paused
")
  = Return [mkVm "win11" "running" true; mkVm "Mac OS" "paused" false]
  ∧ Forall (λ vm, Js.toLowerCase (vm_state vm) = vm_state vm)
      [mkVm "win11" "running" true; mkVm "Mac OS" "paused" false].
Proof.
  assert (collectVmStatsFrom (Return " Id   Name     State
--------------------------
 1    win11    running
 2    Mac OS   Paused
")
  = Return [mkVm "win11" "running" true; mkVm "Mac OS" "paused" false]) as H
    by (vm_compute; reflexivity).
  split; [exact H|].
  pose proof (proj2 (X7_vm_listing_is_well_formed _) _ H) as [Hall _].
  eapply Forall_impl; [exact Hall|]. by intros vm (_ & _ & _ & Hlow & _).
Defined.

(** X8: a row whose first column is "-" is never listed.  [virsh list
    --all] prints "-" as the Id of a machine that is shut off, and the
    test that drops the rule under the header drops these rows too:
    adding such a row to a non-blank output does not change the result. *)
Theorem X8_shut_off_rows_are_dropped (stdout row : string) :
  Js.truthy (Js.trim stdout) = true →
  JsStr.has newline row = false →
  Js.startsWith (Js.trim row) "-" = true →
  collectVmStatsFrom (Return (stdout +:+ String newline row))
  = collectVmStatsFrom (Return stdout).
Proof.
  intros Hout Hrow Hdash. cbn [collectVmStatsFrom bind].
  assert (Js.truthy stdout = true) as Hs.
  { destruct stdout; [done|done]. }
  assert (Js.truthy (Js.trim (stdout +:+ String newline row)) = true) as Hout'.
  { rewrite truthy_trim, all_app in *.
    apply negb_true_iff in Hout. by rewrite Hout. }
  rewrite (truthy_app_l _ _ Hs), Hs, Hout, Hout'. cbn [negb orb].
  rewrite split_app, (split_whole _ row Hrow), fmap_app, filter_app, omap_app.
  cbn [fmap list_fmap].
  rewrite filter_cons_False, filter_nil; [by rewrite app_nil_r|].
  unfold isVmRow. rewrite Hdash. cbn. rewrite andb_false_r. done.
Qed.

Lemma X8_shut_off_rows_are_dropped_witness :
  Js.truthy (Js.trim " 1    win11    running") = true
  ∧ JsStr.has newline " -    ubuntu   shut off" = false
  ∧ Js.startsWith (Js.trim " -    ubuntu   shut off") "-" = true
  ∧ collectVmStatsFrom (Return " 1    win11    running
 -    ubuntu   shut off")
    = Return [mkVm "win11" "running" true].
Proof.
  assert (Js.truthy (Js.trim " 1    win11    running") = true) as H1
    by (vm_compute; reflexivity).
  assert (JsStr.has newline " -    ubuntu   shut off" = false) as H2
    by (vm_compute; reflexivity).
  assert (Js.startsWith (Js.trim " -    ubuntu   shut off") "-" = true) as H3
    by (vm_compute; reflexivity).
  split; [exact H1|]. split; [exact H2|]. split; [exact H3|].
  change " 1    win11    running
 -    ubuntu   shut off"
    with (" 1    win11    running" +:+ String newline " -    ubuntu   shut off").
  rewrite (X8_shut_off_rows_are_dropped _ _ H1 H2 H3).
  vm_compute. reflexivity.
Defined.

(** ** More on strings: pieces and slices *)

Lemma split_go_pieces (sep : ascii) (cur s : string) :
  JsStr.has sep cur = false →
  Forall (λ p, JsStr.has sep p = false) (Js.split_go sep cur s).
Proof.
  revert cur. induction s as [|c s IH]; intros cur Hcur; cbn.
  - constructor; [by rewrite has_rev|done].
  - destruct (Ascii.eqb c sep) eqn:Hc.
    + constructor; [by rewrite has_rev|]. by apply IH.
    + apply IH. cbn. by rewrite Hc.
Qed.

Lemma split_pieces (sep : ascii) (s : string) :
  Forall (λ p, JsStr.has sep p = false) (Js.split sep s).
Proof. by apply split_go_pieces. Qed.

Lemma has_sliceTo (c : ascii) (s : string) (i : nat) :
  JsStr.has c (JsStr.sliceTo i s) = true → JsStr.has c s = true.
Proof.
  unfold JsStr.sliceTo. revert i. induction s as [|d s IH]; intros [|i]; cbn; try done.
  destruct (Ascii.eqb d c); [done|]. cbn. apply IH.
Qed.

Lemma has_sliceFrom (c : ascii) (s : string) (i : nat) :
  JsStr.has c (JsStr.sliceFrom i s) = true → JsStr.has c s = true.
Proof.
  revert i. induction s as [|d s IH]; intros [|i]; cbn; try done.
  intros H. rewrite (IH _ H). apply orb_true_r.
Qed.

Lemma has_sliceTo_indexOf (c : ascii) (s : string) (i : nat) :
  JsStr.indexOf c s = Some i → JsStr.has c (JsStr.sliceTo i s) = false.
Proof.
  unfold JsStr.sliceTo. revert i. induction s as [|d s IH]; intros i; cbn; [done|].
  destruct (Ascii.eqb d c) eqn:Hd; [by intros [= <-]|].
  destruct (JsStr.indexOf c s) as [j|]; [|done].
  intros [= <-]. cbn. rewrite Hd. by apply IH.
Qed.

Lemma sliceTo_length (a b : string) :
  JsStr.sliceTo (String.length a) (a +:+ b) = a.
Proof.
  unfold JsStr.sliceTo. induction a as [|c a IH]; sstep.
  - by destruct b.
  - by rewrite IH.
Qed.

Lemma sliceFrom_length (a b : string) :
  JsStr.sliceFrom (String.length a) (a +:+ b) = b.
Proof. induction a as [|c a IH]; sstep; [done|apply IH]. Qed.

Lemma sliceFrom_S_length (a b : string) (c : ascii) :
  JsStr.sliceFrom (S (String.length a)) (a +:+ String c b) = b.
Proof. induction a as [|d a IH]; sstep; [done|apply IH]. Qed.

Lemma indexOf_fresh (c : ascii) (a b : string) :
  JsStr.has c a = false →
  JsStr.indexOf c (a +:+ String c b) = Some (String.length a).
Proof.
  induction a as [|d a IH]; sstep.
  - by rewrite Ascii.eqb_refl.
  - destruct (Ascii.eqb d c); [done|]. cbn. intros Ha. by rewrite IH.
Qed.

Lemma noEdgeSpace_app (a x b : string) :
  Js.truthy a = true → Js.truthy b = true →
  JsStr.noEdgeSpace a = true → JsStr.noEdgeSpace b = true →
  JsStr.noEdgeSpace (a +:+ x +:+ b) = true.
Proof.
  unfold JsStr.noEdgeSpace. destruct a as [|c a]; [done|].
  destruct b as [|d b]; [done|]. intros _ _.
  intros [Hc _]%andb_true_iff [_ Hd]%andb_true_iff.
  rewrite app_cons_s, Hc. cbn [andb].
  rewrite <- app_cons_s, !rev_app_s.
  destruct (String.rev (String d b)) as [|e r] eqn:Hr.
  - apply (f_equal String.rev) in Hr. by rewrite rev_involutive in Hr.
  - by sstep.
Qed.

(** ** Docker labels *)


Lemma addLabel_good (acc : gmap string string) (pair : string) :
  JsStr.has "," pair = false →
  (∀ k v, acc !! k = Some v → goodLabel k v) →
  ∀ k v, addLabel acc pair !! k = Some v → goodLabel k v.
Proof.
  intros Hpair Hacc k v. unfold addLabel.
  destruct (negb (Js.truthy (Js.trim pair))); [apply Hacc|].
  destruct (JsStr.indexOf "=" (Js.trim pair)) as [idx|] eqn:Hidx; [|apply Hacc].
  set (key := Js.trim (JsStr.sliceTo idx (Js.trim pair))).
  set (value := Js.trim (JsStr.sliceFrom (S idx) (Js.trim pair))).
  destruct (Js.truthy key && Js.truthy value) eqn:Hkv; [|apply Hacc].
  apply andb_true_iff in Hkv as [Hk Hv]. unfold setLabel.
  destruct (String.eqb key "__proto__") eqn:Hproto; [apply Hacc|].
  apply String.eqb_neq in Hproto.
  destruct (decide (key = k)) as [<-|Hne]; [|rewrite lookup_insert_ne by done; apply Hacc].
  rewrite lookup_insert_eq. intros [= <-].
  assert (JsStr.has "," (Js.trim pair) = false) as Hno.
  { destruct (JsStr.has "," (Js.trim pair)) eqn:H; [|done].
    apply has_trim in H. congruence. }
  repeat split; try done; try apply noEdgeSpace_trim.
  - destruct (JsStr.has "=" key) eqn:H; [|done].
    apply has_trim in H. by rewrite has_sliceTo_indexOf in H.
  - destruct (JsStr.has "," key) eqn:H; [|done].
    apply has_trim, has_sliceTo in H. congruence.
  - destruct (JsStr.has "," value) eqn:H; [|done].
    apply has_trim, has_sliceFrom in H. congruence.
Qed.

Lemma foldl_addLabel_good (pairs : list string) (acc : gmap string string) :
  Forall (λ p, JsStr.has "," p = false) pairs →
  (∀ k v, acc !! k = Some v → goodLabel k v) →
  ∀ k v, foldl addLabel acc pairs !! k = Some v → goodLabel k v.
Proof.
  revert acc. induction pairs as [|p pairs IH]; intros acc Hp Hacc; [done|].
  apply Forall_cons in Hp as [Hp Hps]. cbn. apply IH; [done|].
  by apply addLabel_good.
Qed.

(** X9: every label returned by [parseDockerLabels], for any text, has a
    non-empty key and a non-empty value, both without white space at
    either end and without a comma; the key has no equals sign and is
    never [__proto__]. *)
Theorem X9_labels_are_well_formed (rawLabels k v : string) :
  parseDockerLabels rawLabels !! k = Some v → goodLabel k v.
Proof.
  unfold parseDockerLabels. destruct (negb (Js.truthy rawLabels)); [done|].
  apply foldl_addLabel_good; [apply split_pieces|done].
Qed.

Lemma X9_labels_are_well_formed_witness :
  parseDockerLabels "maintainer= NGINX , net.unraid.docker.webui=http://[IP]:[PORT:80]/"
    !! "maintainer" = Some "NGINX"
  ∧ goodLabel "maintainer" "NGINX".
Proof.
  assert (parseDockerLabels
            "maintainer= NGINX , net.unraid.docker.webui=http://[IP]:[PORT:80]/"
            !! "maintainer" = Some "NGINX") as H by (by vm_compute).
  split; [exact H|].
  exact (X9_labels_are_well_formed _ _ _ H).
Defined.

Lemma foldl_addLabel_split (rawLabels : string) :
  foldl addLabel ∅ (Js.split "," rawLabels) = parseDockerLabels rawLabels.
Proof. unfold parseDockerLabels. by destruct rawLabels. Qed.

Lemma addLabel_pair (acc : gmap string string) (k v : string) :
  goodLabel k v → addLabel acc (k +:+ "=" +:+ v) = <[k := v]> acc.
Proof.
  intros (Hk & Hv & Hke & Hve & Heq & _ & _ & Hproto). unfold addLabel.
  rewrite (trim_id (k +:+ "=" +:+ v)) by by apply noEdgeSpace_app.
  rewrite (truthy_app_l _ _ Hk). cbn [negb].
  change (k +:+ "=" +:+ v) with (k +:+ String "=" v).
  rewrite (indexOf_fresh "=" k v Heq), sliceTo_length, sliceFrom_S_length.
  rewrite !trim_id, Hk, Hv by done. cbn [andb].
  unfold setLabel. by apply String.eqb_neq in Hproto as ->.
Qed.

(** X10: the last pair of the text wins.  For a well-formed key and
    value, the labels of [rest,key=value] are the labels of [rest] with
    the key bound to the value, whatever [rest] already says about the
    key; in particular the text [key=value] alone is read back as that
    one label. *)
Theorem X10_last_label_wins (rest k v : string) :
  goodLabel k v →
  parseDockerLabels (rest +:+ "," +:+ k +:+ "=" +:+ v)
  = <[k := v]> (parseDockerLabels rest)
  ∧ parseDockerLabels (k +:+ "=" +:+ v) = {[k := v]}.
Proof.
  intros Hg. pose proof Hg as (Hk & Hv & _ & _ & Heq & Hkc & Hvc & _).
  assert (JsStr.has "," (k +:+ "=" +:+ v) = false) as Hpair.
  { rewrite !has_app, Hkc, Hvc. reflexivity. }
  split.
  - rewrite <- (foldl_addLabel_split (rest +:+ _)), <- foldl_addLabel_split.
    change ("," +:+ k +:+ "=" +:+ v) with (String "," (k +:+ "=" +:+ v)).
    rewrite split_app, (split_whole _ _ Hpair), foldl_app. cbn [foldl].
    by apply addLabel_pair.
  - rewrite <- foldl_addLabel_split, (split_whole _ _ Hpair). cbn [foldl].
    by rewrite addLabel_pair.
Qed.

Lemma X10_last_label_wins_witness :
  goodLabel "net.unraid.docker.icon" "/icons/web.png"
  ∧ parseDockerLabels
      "net.unraid.docker.icon=/old.png,net.unraid.docker.icon=/icons/web.png"
      !! "net.unraid.docker.icon" = Some "/icons/web.png".
Proof.
  assert (goodLabel "net.unraid.docker.icon" "/icons/web.png") as Hg.
  { repeat split; try reflexivity. discriminate. }
  split; [exact Hg|].
  change "net.unraid.docker.icon=/old.png,net.unraid.docker.icon=/icons/web.png"
    with ("net.unraid.docker.icon=/old.png" +:+ "," +:+
          "net.unraid.docker.icon" +:+ "=" +:+ "/icons/web.png").
  rewrite (proj1 (X10_last_label_wins "net.unraid.docker.icon=/old.png"
                    "net.unraid.docker.icon" "/icons/web.png" Hg)).
  apply lookup_insert_eq.
Defined.

(** ** Links *)

Section LinkProps.
Variable Number : string → num.
Variable urlValid : string → bool.
Variable UNRAID_HOST : option string.

Local Abbreviation normalize := (normalizeUrl urlValid UNRAID_HOST).
Local Abbreviation derive := (deriveDockerUrl Number UNRAID_HOST).

Lemma http_prefix (rest : string) : testAtStart http_re ("http://" +:+ rest) = true.
Proof. reflexivity. Qed.

Lemma https_prefix (rest : string) : testAtStart http_re ("https://" +:+ rest) = true.
Proof. reflexivity. Qed.

Lemma startsWith_slashes (s : string) :
  Js.startsWith s "//" = true → ∃ rest, s = "//" +:+ rest.
Proof.
  unfold Js.startsWith. intros H%String.prefix_correct.
  destruct s as [|c1 [|c2 rest]]; try done.
  cbn in H. injection H as -> ->. by exists rest.
Qed.

Lemma checked_fixed (candidate r : string) :
  testAtStart http_re candidate = true →
  JsStr.noEdgeSpace candidate = true →
  checked urlValid candidate = Some r →
  testAtStart http_re r = true
  ∧ urlValid r = true
  ∧ normalize (Some r) = Some r.
Proof.
  unfold checked. intros Hre Hedge.
  destruct (urlValid candidate) eqn:Hv; [|done]. intros [= <-].
  repeat split; [done..|]. unfold normalizeUrl.
  assert (Js.truthy candidate = true) as Ht by (by destruct candidate).
  rewrite (trim_id _ Hedge), Ht, Hre. cbn [negb]. unfold checked. by rewrite Hv.
Qed.

(** X11: a link that [normalizeUrl] returns begins with [http://] or
    [https://] (in any letter case), is accepted by the URL parser, and is
    a fixed point: normalising it again returns it unchanged. *)
Theorem X11_normalized_url_is_absolute (url : option string) (r : string) :
  normalize url = Some r →
  testAtStart http_re r = true
  ∧ urlValid r = true
  ∧ normalize (Some r) = Some r.
Proof.
  unfold normalizeUrl at 1. destruct url as [url|]; [|done].
  destruct (negb (Js.truthy url)); [done|].
  pose proof (noEdgeSpace_trim url) as Hedge.
  set (trimmed := Js.trim url) in *.
  destruct (Js.truthy trimmed) eqn:Ht; [|done]. cbn [negb].
  destruct (testAtStart http_re trimmed) eqn:Hre.
  { by apply checked_fixed. }
  destruct (Js.startsWith trimmed "//") eqn:Hss.
  { apply startsWith_slashes in Hss as [rest Hrest]. apply checked_fixed.
    - rewrite Hrest. apply (http_prefix rest).
    - by apply (noEdgeSpace_app "http:" "" trimmed). }
  destruct (Js.startsWith trimmed "/").
  - apply checked_fixed; [apply http_prefix|].
    by apply (noEdgeSpace_app "http://" (hostBase UNRAID_HOST) trimmed).
  - apply checked_fixed; [apply http_prefix|].
    by apply (noEdgeSpace_app "http://" "" trimmed).
Qed.

Lemma schemeFor_cases (port : string) :
  schemeFor Number port = "http" ∨ schemeFor Number port = "https".
Proof. unfold schemeFor. destruct (strict_eq _ _); auto. Qed.

Lemma find_none (ports : list PortMapping) :
  List.find (λ port, Js.truthy_opt (hostPort port)) ports = None
  ↔ Forall (λ port, Js.truthy_opt (hostPort port) = false) ports.
Proof.
  induction ports as [|p ports IH]; cbn; [done|].
  rewrite Forall_cons. destruct (Js.truthy_opt (hostPort p)); [|tauto].
  split; [done|]. by intros [? _].
Qed.

(** X12: [deriveDockerUrl] returns no link exactly when no port is
    published on the host and the container has no address; a link it
    returns begins with [http://] or [https://]; and as soon as a port is
    published on the host the link is that of the first such port on the
    server's host, whatever the address of the container. *)
Theorem X12_derived_url (ports : list PortMapping) (containerIp : option string) :
  (derive ports containerIp = None
   ↔ Forall (λ port, Js.truthy_opt (hostPort port) = false) ports
     ∧ Js.truthy_opt containerIp = false)
  ∧ (∀ r, derive ports containerIp = Some r → testAtStart http_re r = true)
  ∧ (∀ candidate,
       List.find (λ port, Js.truthy_opt (hostPort port)) ports = Some candidate →
       derive ports containerIp
       = Some (schemeFor Number (tpl (hostPort candidate)) +:+ "://"
               +:+ hostBase UNRAID_HOST +:+ ":" +:+ tpl (hostPort candidate))).
Proof.
  unfold deriveDockerUrl.
  destruct ports as [|first rest].
  { split; [|split; [|done]].
    - destruct containerIp as [ip|]; cbn; [|by split].
      destruct (Js.truthy ip); split; try done. by intros [_ ?].
    - intros r. destruct containerIp as [ip|]; [|done].
      destruct (Js.truthy ip); [|done]. intros [= <-]. apply http_prefix. }
  set (ports := first :: rest).
  destruct (List.find _ ports) as [candidate|] eqn:Hfind.
  - split; [|split].
    + split; [done|]. intros [Hall _]. apply find_none in Hall. congruence.
    + intros r [= <-].
      destruct (schemeFor_cases (tpl (hostPort candidate))) as [-> | ->];
        [apply http_prefix|apply https_prefix].
    + by intros ? [= <-].
  - apply find_none in Hfind. split; [|split; [|done]].
    + destruct containerIp as [ip|]; cbn; [|by split].
      destruct (Js.truthy ip); [|by split].
      split; [|by intros [_ ?]].
      destruct (containerPort first) as [cp|]; [|done]. by destruct (Js.truthy cp).
    + intros r. destruct containerIp as [ip|]; [|done].
      destruct (Js.truthy ip); [|done].
      destruct (containerPort first) as [cp|].
      * destruct (Js.truthy cp); intros [= <-]; [|apply http_prefix].
        destruct (schemeFor_cases cp) as [-> | ->];
          [apply http_prefix|apply https_prefix].
      * intros [= <-]. apply http_prefix.
Qed.
End LinkProps.

Lemma X11_normalized_url_is_absolute_witness :
  normalizeUrl (λ s, negb (JsStr.has " " s)) (Some "tower") (Some " /webui ")
  = Some "http://tower/webui"
  ∧ normalizeUrl (λ s, negb (JsStr.has " " s)) (Some "tower")
      (Some "http://tower/webui")
    = Some "http://tower/webui".
Proof.
  assert (normalizeUrl (λ s, negb (JsStr.has " " s)) (Some "tower")
            (Some " /webui ") = Some "http://tower/webui") as H
    by (vm_compute; reflexivity).
  split; [exact H|].
  exact (proj2 (proj2 (X11_normalized_url_is_absolute _ _ _ _ H))).
Defined.

Lemma X12_derived_url_witness :
  List.find (λ port, Js.truthy_opt (hostPort port))
    (parseDockerPorts "53/udp, 0.0.0.0:443->8443/tcp")
  = Some (mkPort (Some "0.0.0.0") (Some "443") (Some "8443") (Some "tcp")
            "443->8443/tcp")
  ∧ deriveDockerUrl decimal (Some "tower")
      (parseDockerPorts "53/udp, 0.0.0.0:443->8443/tcp") (Some "172.17.0.2")
    = Some "https://tower:443".
Proof.
  assert (List.find (λ port, Js.truthy_opt (hostPort port))
            (parseDockerPorts "53/udp, 0.0.0.0:443->8443/tcp")
          = Some (mkPort (Some "0.0.0.0") (Some "443") (Some "8443") (Some "tcp")
                    "443->8443/tcp")) as H by (vm_compute; reflexivity).
  split; [exact H|].
  rewrite (proj2 (proj2 (X12_derived_url decimal (Some "tower") _
                           (Some "172.17.0.2"))) _ H).
  vm_compute. reflexivity.
Defined.

(** ** The interface name of the desktop client *)

Lemma all_keep (p : ascii → bool) (s : string) : JsStr.all p (JsStr.keep p s) = true.
Proof.
  induction s as [|c s IH]; cbn; [done|].
  destruct (p c) eqn:Hc; cbn; [by rewrite Hc|done].
Qed.

Lemma keep_all (p : ascii → bool) (s : string) :
  JsStr.all p s = true → JsStr.keep p s = s.
Proof.
  induction s as [|c s IH]; cbn; [done|].
  intros [-> Hs]%andb_true_iff. by rewrite IH.
Qed.

(** X13: the interface name that the desktop client puts into its shell
    command is never empty and holds only letters, digits and the
    characters [_ . : -], whatever the configuration says; a configured
    name that is already of that form is used as it is, and sanitising
    the result again changes nothing. *)
Theorem X13_interface_name_is_safe (networkInterface : option string) :
  let iface := interfaceOf networkInterface in
  Js.truthy iface = true
  ∧ JsStr.all ifaceChar iface = true
  ∧ interfaceOf (Some iface) = iface
  ∧ (∀ n, networkInterface = Some n → Js.truthy n = true →
          JsStr.all ifaceChar n = true → iface = n).
Proof.
  assert (∀ n, Js.truthy n = true → JsStr.all ifaceChar n = true →
               interfaceOf (Some n) = n) as Hclean.
  { intros n Hn Hall. unfold interfaceOf, sanitizeInterfaceName, str_or.
    by rewrite Hn, (keep_all _ _ Hall), Hn. }
  assert (Js.truthy (interfaceOf networkInterface) = true
          ∧ JsStr.all ifaceChar (interfaceOf networkInterface) = true)
    as [Ht Hall].
  { unfold interfaceOf, sanitizeInterfaceName, str_or.
    destruct networkInterface as [n|]; [|done].
    destruct (Js.truthy n); [|done].
    destruct (Js.truthy (JsStr.keep ifaceChar n)) eqn:Hk; [|done].
    split; [done|apply all_keep]. }
  cbn zeta. split; [done|]. split; [done|]. split; [by apply Hclean|].
  intros n -> Hn Hn'. by apply Hclean.
Qed.

Lemma X13_interface_name_is_safe_witness :
  interfaceOf (Some "br0; reboot") = "br0reboot"
  ∧ interfaceOf (Some "br-0.1:x") = "br-0.1:x".
Proof.
  split; [vm_compute; reflexivity|].
  apply (proj2 (proj2 (proj2 (X13_interface_name_is_safe (Some "br-0.1:x"))))
           "br-0.1:x" eq_refl); vm_compute; reflexivity.
Defined.

(** ** Uptime for display *)

Lemma floor_minute_div (s k : Z) :
  0 ≤ s → 0 < k → (60 * (s / 60)) / (60 * k) = s / (60 * k).
Proof.
  intros Hs Hk. rewrite Z.div_mul_cancel_l by lia.
  by rewrite <- Z.div_div by lia.
Qed.

Lemma floor_minute_mod (s k : Z) :
  0 ≤ s → 0 < k →
  (60 * (s / 60)) mod (60 * k) = 60 * ((s mod (60 * k)) / 60).
Proof.
  intros Hs Hk. rewrite Z.mul_mod_distr_l by lia. f_equal.
  rewrite (Z.rem_mul_r s 60 k) by lia.
  rewrite (Z.mul_comm 60 (_ mod k)), Z.div_add by lia.
  rewrite (Z.div_small (s mod 60)) by (apply Z.mod_pos_bound; lia). lia.
Qed.

Lemma durationParts_minutes (seconds : Z) :
  0 ≤ seconds → durationParts (60 * (seconds / 60)) = durationParts seconds.
Proof.
  intros Hs. unfold durationParts.
  assert (0 ≤ seconds / 60) by (apply Z.div_pos; lia).
  rewrite !Z.rem_mod_nonneg by lia.
  change 86400 with (60 * 1440). change 3600 with (60 * 60).
  rewrite floor_minute_div, !floor_minute_mod by lia.
  rewrite (floor_minute_div (seconds mod (60 * 1440)) 60)
    by (try apply Z.mod_pos_bound; lia).
  by rewrite (Z.mul_comm 60 (_ / 60)), Z.div_mul by lia.
Qed.

(** X14: for a non-negative number of seconds the three parts of the
    displayed uptime are a proper clock reading: days are not negative,
    hours lie in 0..23 and minutes in 0..59, and together they are the
    uptime rounded down to the minute; so the text shown depends on the
    whole minutes only, and an uptime under a minute reads "0m". *)
Theorem X14_duration_parts (seconds : Z) :
  0 ≤ seconds →
  let '(days, hours, minutes) := durationParts seconds in
  0 ≤ days ∧ 0 ≤ hours < 24 ∧ 0 ≤ minutes < 60
  ∧ days * 86400 + hours * 3600 + minutes * 60 = 60 * (seconds / 60)
  ∧ formatDuration seconds = formatDuration (60 * (seconds / 60))
  ∧ (seconds < 60 → formatDuration seconds = "0m").
Proof.
  intros Hs. unfold formatDuration. rewrite durationParts_minutes by done.
  unfold durationParts. rewrite !Z.rem_mod_nonneg by lia.
  split; [Z.to_euclidean_division_equations; lia|].
  split; [Z.to_euclidean_division_equations; lia|].
  split; [Z.to_euclidean_division_equations; lia|].
  split; [Z.to_euclidean_division_equations; lia|].
  split; [done|].
  intros Hlt.
  rewrite (Z.div_small seconds 86400), (Z.mod_small seconds 86400),
    (Z.mod_small seconds 3600), (Z.div_small seconds 3600),
    (Z.div_small seconds 60) by lia.
  reflexivity.
Qed.

Lemma X14_duration_parts_witness :
  0 ≤ 93784
  ∧ durationParts 93784 = (1, 2, 3)
  ∧ formatDuration 93784 = "1d 2h 3m"
  ∧ formatDuration 93784 = formatDuration (60 * (93784 / 60)).
Proof.
  split; [lia|]. split; [reflexivity|]. split; [vm_compute; reflexivity|].
  pose proof (X14_duration_parts 93784 ltac:(lia)) as H.
  cbv beta iota zeta delta [durationParts] in H.
  exact (proj1 (proj2 (proj2 (proj2 (proj2 H))))).
Defined.

(** ** Host statistics *)

Lemma round_Fin (x : Q) :
  round (Fin x)
  = Fin (Qred (inject_Z (Qfloor (Qred (x * 100) + (1 # 2))) / 100)).
Proof. reflexivity. Qed.

Lemma round_isFinite (v : num) : isFinite (round v) = true.
Proof. by destruct v. Qed.

Lemma Qred_le_compat (a b : Q) : (a <= b)%Q → (Qred a <= Qred b)%Q.
Proof. intros H. by rewrite !Qred_correct. Qed.

Lemma round_mono (x y : Q) :
  (x <= y)%Q →
  ∃ a b, round (Fin x) = Fin a ∧ round (Fin y) = Fin b ∧ (a <= b)%Q.
Proof.
  intros Hxy. do 2 eexists. split; [apply round_Fin|]. split; [apply round_Fin|].
  apply Qred_le_compat, Qmult_le_compat_r; [|discriminate].
  rewrite <- Zle_Qle. apply Qfloor_resp_le, Qplus_le_l.
  apply Qred_le_compat, Qmult_le_compat_r; [done|discriminate].
Qed.

Lemma kbToGb_Fin (x : Q) : kbToGb (Fin x) = Fin (Qred (Qred (x / 1024) / 1024)).
Proof. reflexivity. Qed.

Lemma kbToGb_mono (x y : Q) :
  (x <= y)%Q → (Qred (Qred (x / 1024) / 1024) <= Qred (Qred (y / 1024) / 1024))%Q.
Proof.
  intros Hxy.
  apply Qred_le_compat, Qmult_le_compat_r; [|discriminate].
  apply Qred_le_compat, Qmult_le_compat_r; [done|discriminate].
Qed.

Lemma max0_cases (v : num) :
  Num.max v (Fin 0) = NaN ∨ Num.max v (Fin 0) = PInf
  ∨ ∃ x, Num.max v (Fin 0) = Fin x ∧ (0 <= x)%Q.
Proof.
  destruct v as [x| | |]; cbn; auto.
  - right; right. destruct (Qle_bool x 0) eqn:Hx.
    + exists 0%Q. split; [done|discriminate].
    + exists x. split; [done|]. by apply Qlt_le_weak, Qle_bool_false.
  - right; right. exists 0%Q. split; [done|discriminate].
Qed.

Lemma usedGb_nonneg (usedKb : num) :
  (usedKb = NaN ∨ usedKb = PInf ∨ ∃ x, usedKb = Fin x ∧ (0 <= x)%Q) →
  ∃ u, round (kbToGb usedKb) = Fin u ∧ (0 <= u)%Q.
Proof.
  intros [-> | [-> | (x & -> & Hx)]].
  - exists 0%Q. split; [done|discriminate].
  - exists 0%Q. split; [done|discriminate].
  - rewrite kbToGb_Fin.
    destruct (round_mono 0 (Qred (Qred (x / 1024) / 1024))) as (a & b & Ha & Hb & Hab).
    { change 0%Q with (Qred (Qred (0 / 1024) / 1024)). by apply kbToGb_mono. }
    exists b. split; [done|]. injection Ha as <-. exact Hab.
Qed.

(** X15: the memory figures of a snapshot are always presentable: for
    any content of [/proc/meminfo] the used percentage is a number in
    [0,100], the total is finite and the used amount is finite and not
    negative; and when [MemTotal] and [MemAvailable] are present and not
    negative, the used gigabytes never exceed the total gigabytes. *)
Theorem X15_memory_figures (parseInt : string → num) (text : string) :
  let meminfo := parseMeminfo parseInt text in
  let m := memoryOf meminfo in
  within 0 100 (mem_usedPercent m)
  ∧ isFinite (mem_totalGb m) = true
  ∧ (∃ u, mem_usedGb m = Fin u ∧ (0 <= u)%Q)
  ∧ (∀ t f, meminfo !! "MemTotal" = Some (Fin t) →
            meminfo !! "MemAvailable" = Some (Fin f) →
            (0 <= t)%Q → (0 <= f)%Q →
            ∃ tg ug, mem_totalGb m = Fin tg ∧ mem_usedGb m = Fin ug
                     ∧ (ug <= tg)%Q).
Proof.
  intros meminfo m. unfold m, memoryOf. cbn [mem_usedPercent mem_totalGb mem_usedGb].
  split; [apply clamp_within|]. split; [apply round_isFinite|].
  split; [apply usedGb_nonneg, max0_cases|].
  intros t f -> -> Ht Hf.
  assert (Num.or_else (Fin t) (Fin 0) = Fin t ∨
          (Num.or_else (Fin t) (Fin 0) = Fin 0 ∧ (t == 0)%Q)) as Htot.
  { unfold Num.or_else, Num.truthy. destruct (Qeq_bool t 0) eqn:Ht0; [|by left].
    right. split; [done|]. by apply Qeq_bool_iff. }
  assert (∃ t', Num.or_else (Fin t) (Fin 0) = Fin t' ∧ (t' == t)%Q)
    as (t' & -> & Ht').
  { destruct Htot as [-> | [-> H0]]; [by exists t|]. exists 0%Q. by rewrite H0. }
  assert (∃ x, Num.max (sub (Fin t') (Fin f)) (Fin 0) = Fin x
               ∧ (x <= t')%Q) as (x & -> & Hx).
  { cbn [sub neg add Num.max]. destruct (Qle_bool _ 0) eqn:Hle.
    - exists 0%Q. split; [done|]. by rewrite Ht'.
    - exists (Qred (t' + Qred (- f))). split; [done|].
      rewrite !Qred_correct.
      rewrite <- (Qplus_0_r t') at 2. apply Qplus_le_r.
      apply (Qopp_le_compat 0 f) in Hf. exact Hf. }
  rewrite !kbToGb_Fin.
  destruct (round_mono _ _ (kbToGb_mono x t' Hx)) as (a & b & -> & -> & Hab).
  by exists b, a.
Qed.

Lemma X15_memory_figures_witness :
  let text := "MemTotal:       16000000 kB
MemFree:         1000000 kB
MemAvailable:    4000000 kB
" in
  parseMeminfo parseInt10 text !! "MemTotal" = Some (Fin 16000000)
  ∧ parseMeminfo parseInt10 text !! "MemAvailable" = Some (Fin 4000000)
  ∧ memoryOf (parseMeminfo parseInt10 text)
    = mkMemory (Fin (763 # 50)) (Fin (286 # 25)) (Fin 75)
  ∧ ∃ tg ug, mem_totalGb (memoryOf (parseMeminfo parseInt10 text)) = Fin tg
             ∧ mem_usedGb (memoryOf (parseMeminfo parseInt10 text)) = Fin ug
             ∧ (ug <= tg)%Q.
Proof.
  intros text.
  assert (parseMeminfo parseInt10 text !! "MemTotal" = Some (Fin 16000000)) as H1
    by (vm_compute; reflexivity).
  assert (parseMeminfo parseInt10 text !! "MemAvailable" = Some (Fin 4000000))
    as H2 by (vm_compute; reflexivity).
  split; [exact H1|]. split; [exact H2|]. split; [vm_compute; reflexivity|].
  apply (proj2 (proj2 (proj2 (X15_memory_figures parseInt10 text)))
           16000000%Q 4000000%Q H1 H2); discriminate.
Defined.

(** ** CPU percentage on well-behaved counters *)

(** X16: when both counters advance and the idle time does not advance
    more than the total time, the percentage returned is exactly
    [(1 - idleDelta / totalDelta) * 100]: the clamp only acts on readings
    outside [0,100]. *)
Theorem X16_cpu_percent_exact (idle1 total1 idle2 total2 : Q) :
  (0 <= idle2 - idle1)%Q →
  (idle2 - idle1 <= total2 - total1)%Q →
  (0 < total2 - total1)%Q →
  ∃ q, cpuPercentBetween (mkCpu (Fin idle1) (Fin total1))
                         (mkCpu (Fin idle2) (Fin total2)) = Fin q
       ∧ (q == (1 - (idle2 - idle1) / (total2 - total1)) * 100)%Q.
Proof.
  intros Hi Hit Ht. unfold cpuPercentBetween. cbn [idle total sub neg add].
  set (td := Qred (total2 + Qred (- total1))).
  set (idl := Qred (idle2 + Qred (- idle1))).
  assert (td == total2 - total1)%Q as Htd
    by (unfold td; by rewrite !Qred_correct).
  assert (idl == idle2 - idle1)%Q as Hidl
    by (unfold idl; by rewrite !Qred_correct).
  assert (Qeq_bool td 0 = false) as Htd0.
  { apply Qeq_bool_false_pos. by rewrite Htd. }
  cbn [strict_eq]. rewrite Htd0. cbn [div]. rewrite Htd0. cbn [sub neg add mul].
  set (u := Qred (Qred (1 + Qred (- Qred (idl / td))) * 100)).
  assert (u == (1 - (idle2 - idle1) / (total2 - total1)) * 100)%Q as Hu.
  { unfold u. rewrite !Qred_correct. by rewrite Hidl, Htd. }
  assert (0 <= (idle2 - idle1) / (total2 - total1) <= 1)%Q as [Hr0 Hr1].
  { split.
    - apply Qle_shift_div_l; [done|]. by rewrite Qmult_0_l.
    - apply Qle_shift_div_r; [done|]. by rewrite Qmult_1_l. }
  assert (0 <= u <= 100)%Q as [Hu0 Hu100].
  { rewrite Hu. split.
    - apply Qmult_le_0_compat; [|discriminate].
      rewrite <- (Qplus_opp_r 1). apply Qplus_le_r. by apply Qopp_le_compat.
    - rewrite <- (Qmult_1_l 100) at 2. apply Qmult_le_compat_r; [|discriminate].
      rewrite <- (Qplus_0_r 1) at 2. apply Qplus_le_r.
      apply (Qopp_le_compat 0) in Hr0. exact Hr0. }
  unfold clamp. cbn [isFinite negb Num.max].
  destruct (Qle_bool u 0) eqn:Hle.
  - apply Qle_bool_iff in Hle. exists 0%Q. split; [done|].
    rewrite <- Hu. by apply Qle_antisym.
  - cbn [Num.min]. apply Qle_bool_iff in Hu100 as ->. by exists u.
Qed.

Lemma X16_cpu_percent_exact_witness :
  (0 <= 910 - 850)%Q ∧ (910 - 850 <= 1130 - 1000)%Q ∧ (0 < 1130 - 1000)%Q
  ∧ ∃ q, cpuPercentBetween (mkCpu (Fin 850) (Fin 1000))
                           (mkCpu (Fin 910) (Fin 1130)) = Fin q
         ∧ (q == (1 - (910 - 850) / (1130 - 1000)) * 100)%Q.
Proof.
  assert (0 <= 910 - 850)%Q as H1 by discriminate.
  assert (910 - 850 <= 1130 - 1000)%Q as H2 by discriminate.
  assert (0 < 1130 - 1000)%Q as H3 by reflexivity.
  split; [exact H1|]. split; [exact H2|]. split; [exact H3|].
  exact (X16_cpu_percent_exact 850 1000 910 1130 H1 H2 H3).
Defined.

(** ** The network sample of the desktop client *)

Lemma mbps_fin (a : Q) (d : Z) :
  0 < d →
  ∃ q, mbps (Fin a) d = Fin q
       ∧ (q == a * 8 / (inject_Z d / 1000) / 1000000)%Q.
Proof.
  intros Hd. unfold mbps, mega, of_Z.
  cbn [div]. change (Qeq_bool 1000 0) with false. cbn iota.
  pose proof (seconds_pos_Q d Hd) as Hs.
  cbn [mul div]. rewrite (Qeq_bool_false_pos _ Hs).
  change (Qeq_bool 1000000 0) with false. cbn iota.
  eexists. split; [reflexivity|]. by rewrite !Qred_correct.
Qed.

(** The rate of a byte delta within [0, bound] over one millisecond or
    more is within [0, bound]. *)
Lemma mbps_bounded (a bound : Q) (d : Z) :
  0 < d → (0 <= a)%Q → (a <= bound)%Q →
  ∃ q, mbps (Fin a) d = Fin q ∧ (0 <= q)%Q ∧ (q <= bound)%Q.
Proof.
  intros Hd Ha Hb. destruct (mbps_fin a d Hd) as (q & Hq & Hqe).
  exists q. split; [exact Hq|].
  assert (0 < inject_Z d / 1000)%Q as Hs.
  { rewrite <- (Qred_correct (inject_Z d / 1000)). by apply seconds_pos_Q. }
  assert (8 <= 1000000 * (inject_Z d / 1000))%Q as Hk.
  { unfold Qle, Qdiv, Qmult, Qinv, inject_Z. cbn. lia. }
  rewrite Hqe. split.
  - apply Qle_shift_div_l; [done|]. rewrite Qmult_0_l.
    apply Qle_shift_div_l; [done|]. rewrite Qmult_0_l.
    apply Qmult_le_0_compat; [done|discriminate].
  - apply Qle_trans with a; [|done].
    apply Qle_shift_div_r; [done|]. apply Qle_shift_div_r; [done|].
    rewrite <- Qmult_assoc. rewrite (Qmult_comm a 8), (Qmult_comm a (_ * _)).
    by apply Qmult_le_compat_r.
Qed.

Lemma rateOk_mbps (a b : num) (d : Z) :
  counter64 a → counter64 b → 0 < d →
  rateOk (Some (mbps (Num.max (sub a b) (Fin 0)) d)).
Proof.
  intros Ha Hb Hd. destruct a as [x| | |], b as [y| | |]; try done.
  destruct Ha as [Hx0 Hx], Hb as [Hy0 Hy].
  assert (∃ delta, Num.max (sub (Fin x) (Fin y)) (Fin 0) = Fin delta
                   ∧ (0 <= delta)%Q ∧ (delta <= inject_Z (2 ^ 64))%Q)
    as (delta & -> & Hd0 & Hdb).
  { cbn [sub neg add Num.max]. destruct (Qle_bool _ 0) eqn:Hle.
    - exists 0%Q. split; [done|]. split; discriminate.
    - apply Qle_bool_false in Hle. eexists. split; [reflexivity|].
      split; [by apply Qlt_le_weak|].
      rewrite !Qred_correct. apply Qle_trans with x; [|by apply Qlt_le_weak].
      rewrite <- (Qplus_0_r x) at 2. apply Qplus_le_r.
      apply (Qopp_le_compat 0 y) in Hy0. exact Hy0. }
  destruct (mbps_bounded delta _ d Hd Hd0 Hdb) as (q & Hq & Hq0 & Hqb).
  unfold rateOk. by rewrite Hq.
Qed.

(** X17: on byte counters as the kernel keeps them (64 bits wide), the
    desktop client's network collector never reports a negative or
    non-numeric rate.  A call that throws leaves the stored sample
    untouched; a call that returns stores exactly the counters it
    returns, both finite, and knows both rates exactly when a sample of
    the same interface was stored.  When the stored sample and the
    counters read are 64-bit counters, each rate is either unknown or a
    finite number between 0 and [2^64], and the sample stored holds
    64-bit counters again. *)
Theorem X17_client_rates_are_never_negative (parseInt : string → num)
    (iface : string) (raw : completion string) (now : Z)
    (lastNetSample : option NetSample) :
  sampleCounters lastNetSample →
  let result := Preload.collectNetworkStats parseInt iface raw now lastNetSample in
  match result.1 with
  | Throw _ => result.2 = lastNetSample
  | Return stats =>
      isFinite (Preload.rxBytes stats) = true
      ∧ isFinite (Preload.txBytes stats) = true
      ∧ result.2 = Some (mkSample iface (Preload.rxBytes stats)
                           (Preload.txBytes stats) now)
      ∧ (is_Some (Preload.rxRateMbps stats)
         ↔ ∃ last, lastNetSample = Some last ∧ last_iface last = iface)
      ∧ (is_Some (Preload.txRateMbps stats)
         ↔ is_Some (Preload.rxRateMbps stats))
      ∧ (counter64 (Preload.rxBytes stats) →
         counter64 (Preload.txBytes stats) →
         rateOk (Preload.rxRateMbps stats)
         ∧ rateOk (Preload.txRateMbps stats)
         ∧ sampleCounters result.2)
  end.
Proof.
  intros Hfin. unfold Preload.collectNetworkStats.
  destruct raw as [text|e]; [|done].
  set (tokens := filter _ _).
  destruct (isFinite (Preload.parseToken parseInt tokens 0)) eqn:Hrx;
    [|done].
  destruct (isFinite (Preload.parseToken parseInt tokens 1)) eqn:Htx;
    [|done].
  cbn [negb orb fst snd Preload.rxBytes Preload.txBytes
       Preload.rxRateMbps Preload.txRateMbps sampleCounters
       last_rxBytes last_txBytes].
  split; [done|]. split; [done|]. split; [done|].
  destruct lastNetSample as [last|]; cbn [fst snd].
  - destruct Hfin as [Hlrx Hltx].
    destruct (String.eqb (last_iface last) iface) eqn:Hi; cbn [fst snd].
    + apply String.eqb_eq in Hi. rewrite seconds_positive.
      assert (0 < Z.max (now - last_ts last) 1) as Hd by lia.
      apply Z.ltb_lt in Hd as Hd'. rewrite Hd'. cbn [fst snd].
      split; [split; [intros _; by exists last|by eexists]|].
      split; [done|]. intros Hcrx Hctx.
      split; [by apply rateOk_mbps|]. split; [by apply rateOk_mbps|]. done.
    + apply String.eqb_neq in Hi.
      split; [split; [by intros [? ?]|]|].
      { intros (l & [= <-] & ?). done. }
      split; [done|]. by intros Hcrx Hctx.
  - split; [split; [by intros [? ?]|by intros (l & ? & ?)]|].
    split; [done|]. by intros Hcrx Hctx.
Qed.

Lemma X17_client_rates_are_never_negative_witness :
  let last := Some (mkSample "eth0" (Fin 1000) (Fin 1000) 0) in
  let result :=
    Preload.collectNetworkStats parseInt10 "eth0" (Return "0 5000") 1000 last in
  sampleCounters last
  ∧ result.1 = Return (Preload.mkStats "eth0" (Fin 0) (Fin 5000)
                         (Some (Fin 0)) (Some (Fin (4 # 125))))
  ∧ sampleCounters result.2.
Proof.
  intros last result.
  assert (sampleCounters last) as H by (by vm_compute).
  assert (result.1 = Return (Preload.mkStats "eth0" (Fin 0) (Fin 5000)
                               (Some (Fin 0)) (Some (Fin (4 # 125))))) as Hr
    by (vm_compute; reflexivity).
  split; [exact H|]. split; [exact Hr|].
  pose proof (X17_client_rates_are_never_negative parseInt10 "eth0"
                (Return "0 5000") 1000 last H) as Hall.
  cbv zeta in Hall. fold last result in Hall. rewrite Hr in Hall.
  destruct Hall as (_ & _ & _ & _ & _ & Hc).
  apply Hc; by vm_compute.
Defined.

(** ** The pattern matcher *)

Lemma consumed_cons (c : ascii) (b a : string) :
  Regex.consumed (String c b) a
  = if String.eqb (String c b) a then "" else String c (Regex.consumed b a).
Proof. reflexivity. Qed.

Lemma consumed_app (w s : string) : Regex.consumed (w +:+ s) s = w.
Proof.
  induction w as [|c w IH].
  - rewrite app_nil_s. destruct s; [done|].
    by rewrite consumed_cons, String.eqb_refl.
  - rewrite app_cons_s, consumed_cons, IH.
    assert (String.eqb (String c (w +:+ s)) s = false) as ->; [|done].
    apply String.eqb_neq. intros Heq.
    apply (f_equal String.length) in Heq. cbn in Heq.
    rewrite length_app_s in Heq. lia.
Qed.

Section Matcher.
Context {R : Type}.

Lemma plus_cls_sound p s (k : string → option R) x :
  Regex.plus_cls p s k = Some x →
  ∃ w s', s = w +:+ s' ∧ w ≠ "" ∧ JsStr.all p w = true ∧ k s' = Some x.
Proof.
  induction s as [|c s IH]; cbn; [done|].
  destruct (p c) eqn:Hc; [|done].
  destruct (Regex.plus_cls p s k) as [r|] eqn:Hr.
  - intros [= ->]. destruct (IH eq_refl) as (w & s' & -> & Hw & Hall & Hk).
    exists (String c w), s'. sstep. by rewrite Hc.
  - intros Hk. exists (String c ""), s. sstep. by rewrite Hc.
Qed.

Lemma plus_cls_none p s (k : string → option R) :
  (∀ w s', s = w +:+ s' → w ≠ "" → JsStr.all p w = true → k s' = None) →
  Regex.plus_cls p s k = None.
Proof.
  intros Hfail. destruct (Regex.plus_cls p s k) as [x|] eqn:Hr; [|done].
  apply plus_cls_sound in Hr as (w & s' & Hs & Hw & Hall & Hk).
  by rewrite (Hfail w s') in Hk.
Qed.

Lemma run_sound r : ∀ s cs (k : string → Regex.caps → option R) x,
  Regex.run r s cs k = Some x →
  ∃ s' cs', matches r s cs s' cs' ∧ k s' cs' = Some x.
Proof.
  induction r as [c|p|p|r1 IH1 r2 IH2|r1 IH1|n r1 IH1]; intros s cs k x; cbn.
  - destruct s as [|c' s]; [done|]. destruct (Ascii.eqb c c') eqn:He; [|done].
    apply Ascii.eqb_eq in He as ->. intros Hk. by exists s, cs.
  - destruct s as [|c' s]; [done|]. destruct (p c') eqn:Hp; [|done].
    intros Hk. exists s, cs. split; [|done]. split; [by exists c'|done].
  - intros H. apply plus_cls_sound in H as (w & s' & -> & Hw & Hall & Hk).
    exists s', cs. split; [|done]. split; [by exists w|done].
  - intros H. apply IH1 in H as (s1 & cs1 & H1 & H).
    apply IH2 in H as (s2 & cs2 & H2 & H).
    exists s2, cs2. split; [by exists s1, cs1|done].
  - destruct (Regex.run r1 s cs k) as [y|] eqn:Hr.
    + intros [= ->]. apply IH1 in Hr as (s' & cs' & Hm & Hk).
      exists s', cs'. split; [by left|done].
    + intros Hk. exists s, cs. split; [by right|done].
  - intros H. apply IH1 in H as (s' & cs' & H1 & Hk).
    exists s', (<[n := Some (Regex.consumed s s')]> cs'). split; [by exists cs'|done].
Qed.

End Matcher.

Lemma exec_sound n r : ∀ s cs,
  Regex.exec n r s = Some cs →
  ∃ pre s0, s = pre +:+ s0
            ∧ Regex.run r s0 (Regex.no_caps (S n)) (λ _ cs, Some cs) = Some cs.
Proof.
  induction s as [|c s IH]; intros cs; cbn.
  - destruct (Regex.run r "" _ _) as [y|] eqn:Hr; [|done].
    intros [= ->]. by exists "", "".
  - destruct (Regex.run r (String c s) _ _) as [y|] eqn:Hr.
    + intros [= ->]. by exists "", (String c s).
    + intros H. apply IH in H as (pre & s0 & -> & H).
      by exists (String c pre), s0.
Qed.

Lemma port_re_sound (s : string) (cs : Regex.caps) :
  Regex.run port_re s (Regex.no_caps 5) (λ _ cs, Some cs) = Some cs →
  ∃ g1 hp cp g4 pre post,
    cs = [None; g1; Some hp; Some cp; g4]
    ∧ s = pre +:+ hp +:+ "->" +:+ cp +:+ post
    ∧ run_of Js.is_digit hp ∧ run_of Js.is_digit cp
    ∧ (∀ ip, g1 = Some ip → run_of not_colon ip)
    ∧ (∀ proto, g4 = Some proto → run_of alpha_ci proto).
Proof.
  intros H. apply run_sound in H as (s' & cs' & Hm & [= <-]).
  unfold port_re in Hm. cbn [matches] in Hm.
  destruct Hm as (s1 & cs1 & H1 & s2 & cs2 & H2 & s3 & cs3 & H3 & s4 & cs4
                  & [-> ->] & s5 & cs5 & [-> ->] & s6 & cs6 & H6 & H7).
  destruct H3 as (? & [(hp & Hs2 & Hhp & Hhpd) ->] & ->).
  destruct H6 as (? & [(cp & -> & Hcp & Hcpd) ->] & ->).
  rewrite Hs2, !consumed_app in H7.
  assert (∃ g1 pre, s = pre +:+ s2
                    ∧ cs2 = [None; g1; None; None; None]
                    ∧ (∀ ip, g1 = Some ip → run_of not_colon ip))
    as (g1 & pre & -> & -> & Hg1).
  { destruct H1 as [(? & [(ip & -> & Hip & Hipc) ->] & ->) | [-> ->]].
    - rewrite consumed_app in H2. exists (Some ip).
      destruct H2 as [[-> ->] | [-> ->]].
      + exists (ip +:+ ":"). rewrite !app_assoc_s. split; [done|].
        split; [done|]. by intros ? [= <-].
      + exists ip. split; [done|]. split; [done|]. by intros ? [= <-].
    - exists None. destruct H2 as [[-> ->] | [-> ->]].
      + by exists ":".
      + by exists "". }
  subst s2. exists g1, hp, cp.
  destruct H7 as [(s7 & cs7 & [-> ->] & ? & [(proto & -> & Hpr & Hprl) ->] & ->)
                 | [-> ->]].
  - rewrite consumed_app. exists (Some proto), pre, (String "/" (proto +:+ s')).
    split; [done|]. split; [done|]. split; [done|]. split; [done|].
    split; [done|]. by intros ? [= <-].
  - exists None, pre, s6.
    split; [done|]. split; [done|]. split; [done|]. split; [done|].
    split; [done|]. by intros ? [=].
Qed.

Lemma parsePortSegment_sound (segment : string) :
  parsePortSegment segment = mkPort None None None None segment
  ∨ ∃ ip hp cp proto pre post,
      parsePortSegment segment
      = mkPort (Some ip) (Some hp) (Some cp) (Some proto)
          (hp +:+ "->" +:+ cp +:+ "/" +:+ proto)
      ∧ segment = pre +:+ hp +:+ "->" +:+ cp +:+ post
      ∧ run_of Js.is_digit hp ∧ run_of Js.is_digit cp
      ∧ run_of alpha_ci proto
      ∧ (ip = "0.0.0.0" ∨ (Js.includes ip "." = true ∧ run_of not_colon ip)).
Proof.
  unfold parsePortSegment.
  destruct (Regex.exec 4 port_re segment) as [cs|] eqn:He; [right|by left].
  apply exec_sound in He as (skipped & s0 & -> & Hrun).
  apply port_re_sound in Hrun
    as (g1 & hp & cp & g4 & pre & post & -> & -> & Hhp & Hcp & Hg1 & Hg4).
  cbn [Regex.group lookup list_lookup tpl].
  set (ip := match g1 with
             | Some ip => if Js.truthy ip && Js.includes ip "." then ip
                          else "0.0.0.0"
             | None => "0.0.0.0"
             end).
  exists ip, hp, cp, (str_or g4 "tcp"), (skipped +:+ pre), post.
  split; [done|]. split; [by rewrite app_assoc_s|].
  split; [done|]. split; [done|]. split.
  - destruct g4 as [proto|]; [|by split].
    destruct (Hg4 proto eq_refl) as [Hne Hall]. cbn.
    by destruct proto.
  - unfold ip. destruct g1 as [i|]; [|by left].
    destruct (Js.truthy i && Js.includes i ".") eqn:Hi; [|by left].
    right. apply andb_true_iff in Hi as [_ Hi]. split; [done|]. by apply Hg1.
Qed.

(** X18: every port mapping returned by [parseDockerPorts] comes from one
    non-empty, trimmed, comma-separated segment of the text, and is either
    that segment kept for display only, or a full mapping: host port and
    container port are non-empty digit strings that stand in the segment
    on both sides of an arrow, the protocol is a non-empty word of
    letters, the host address is [0.0.0.0] or a colon-free text with a
    dot, and the display text is [hostPort->containerPort/protocol]. *)
Theorem X18_port_mappings_are_well_formed (rawPorts : string)
    (mapping : PortMapping) :
  mapping ∈ parseDockerPorts rawPorts →
  ∃ segment,
    segment ∈ (Js.trim <$> Js.split "," rawPorts) ∧ segment ≠ ""
    ∧ (mapping = mkPort None None None None segment
       ∨ ∃ ip hp cp proto pre post,
           mapping = mkPort (Some ip) (Some hp) (Some cp) (Some proto)
                       (hp +:+ "->" +:+ cp +:+ "/" +:+ proto)
           ∧ segment = pre +:+ hp +:+ "->" +:+ cp +:+ post
           ∧ run_of Js.is_digit hp ∧ run_of Js.is_digit cp
           ∧ run_of alpha_ci proto
           ∧ (ip = "0.0.0.0"
              ∨ (Js.includes ip "." = true ∧ run_of not_colon ip))).
Proof.
  unfold parseDockerPorts. destruct (Js.truthy rawPorts); cbn [negb].
  - intros Hin. apply list_elem_of_fmap in Hin as (segment & -> & Hin).
    apply list_elem_of_filter in Hin as [Ht Hin].
    exists segment. split; [done|]. split; [by destruct segment|].
    apply parsePortSegment_sound.
  - by intros Hin%elem_of_nil.
Qed.

Lemma X18_port_mappings_are_well_formed_witness :
  let raw := "0.0.0.0:8080->80/tcp, 443/tcp" in
  mkPort None None None None "443/tcp" ∈ parseDockerPorts raw
  ∧ ∃ segment,
      segment ∈ (Js.trim <$> Js.split "," raw) ∧ segment ≠ ""
      ∧ (mkPort None None None None "443/tcp"
         = mkPort None None None None segment
         ∨ ∃ ip hp cp proto pre post,
             mkPort None None None None "443/tcp"
             = mkPort (Some ip) (Some hp) (Some cp) (Some proto)
                 (hp +:+ "->" +:+ cp +:+ "/" +:+ proto)
             ∧ segment = pre +:+ hp +:+ "->" +:+ cp +:+ post
             ∧ run_of Js.is_digit hp ∧ run_of Js.is_digit cp
             ∧ run_of alpha_ci proto
             ∧ (ip = "0.0.0.0"
                ∨ (Js.includes ip "." = true ∧ run_of not_colon ip))).
Proof.
  intros raw.
  assert (mkPort None None None None "443/tcp" ∈ parseDockerPorts raw) as H.
  { assert (parseDockerPorts raw
            = [mkPort (Some "0.0.0.0") (Some "8080") (Some "80") (Some "tcp")
                 "8080->80/tcp";
               mkPort None None None None "443/tcp"]) as ->
      by (vm_compute; reflexivity).
    apply list_elem_of_further, list_elem_of_here. }
  split; [exact H|].
  exact (X18_port_mappings_are_well_formed raw _ H).
Defined.

(** ** The search order of the matcher *)

Section Search.
Context {R : Type}.

(** The longest run is tried first; the continuation sees the shorter
    ones only when it has failed on every longer one. *)
Lemma plus_cls_first_success p (k : string → option R) w u x :
  w ≠ "" → JsStr.all p w = true →
  (∀ u1 u2, u = u1 +:+ u2 → u1 ≠ "" → JsStr.all p u1 = true → k u2 = None) →
  k u = Some x →
  Regex.plus_cls p (w +:+ u) k = Some x.
Proof.
  intros Hw Hall Hfail Hk. induction w as [|c w IH]; [done|].
  rewrite app_cons_s. cbn in Hall |- *.
  apply andb_true_iff in Hall as [Hc Hall]. rewrite Hc.
  destruct w as [|c' w'].
  - rewrite app_nil_s, plus_cls_none; [done|]. exact Hfail.
  - by rewrite IH.
Qed.

Lemma no_run_at_stop p u u1 u2 :
  stops p u = true → u = u1 +:+ u2 → u1 ≠ "" → JsStr.all p u1 = true → False.
Proof.
  intros Hstop -> Hne Hall. destruct u1 as [|c u1]; [done|].
  rewrite app_cons_s in Hstop. cbn in Hstop, Hall.
  apply andb_true_iff in Hall as [Hc _]. by rewrite Hc in Hstop.
Qed.

Lemma run_cap_plus_first n p (k : string → Regex.caps → option R) w u cs x :
  w ≠ "" → JsStr.all p w = true →
  (∀ u1 u2, u = u1 +:+ u2 → u1 ≠ "" → JsStr.all p u1 = true →
            ∀ cs', k u2 cs' = None) →
  k u (<[n := Some w]> cs) = Some x →
  Regex.run (Regex.Cap n (Regex.Plus p)) (w +:+ u) cs k = Some x.
Proof.
  intros Hw Hall Hfail Hk. cbn [Regex.run].
  apply plus_cls_first_success; [done|done| |by rewrite consumed_app].
  intros u1 u2 Hu Hu1 Hall1. by apply (Hfail u1 u2).
Qed.

Lemma run_cap_plus_longest n p (k : string → Regex.caps → option R) w u cs x :
  w ≠ "" → JsStr.all p w = true → stops p u = true →
  k u (<[n := Some w]> cs) = Some x →
  Regex.run (Regex.Cap n (Regex.Plus p)) (w +:+ u) cs k = Some x.
Proof.
  intros Hw Hall Hstop Hk. apply run_cap_plus_first; [done|done| |done].
  intros u1 u2 Hu Hu1 Hall1. by destruct (no_run_at_stop p u u1 u2).
Qed.

Lemma run_opt_first r (k : string → Regex.caps → option R) s cs x :
  Regex.run r s cs k = Some x → Regex.run (Regex.Opt r) s cs k = Some x.
Proof. intros H. cbn [Regex.run]. by rewrite H. Qed.

Lemma run_opt_skip r (k : string → Regex.caps → option R) s cs :
  Regex.run r s cs k = None → Regex.run (Regex.Opt r) s cs k = k s cs.
Proof. intros H. cbn [Regex.run]. by rewrite H. Qed.

Lemma run_seq r1 r2 (k : string → Regex.caps → option R) s cs :
  Regex.run (Regex.Seq r1 r2) s cs k
  = Regex.run r1 s cs (λ s1 cs1, Regex.run r2 s1 cs1 k).
Proof. reflexivity. Qed.

Lemma run_lit c (k : string → Regex.caps → option R) s cs :
  Regex.run (Regex.Lit c) (String c s) cs k = k s cs.
Proof. cbn [Regex.run]. by rewrite Ascii.eqb_refl. Qed.

End Search.

Lemma exec_here n r s cs :
  Regex.run r s (Regex.no_caps (S n)) (λ _ cs, Some cs) = Some cs →
  Regex.exec n r s = Some cs.
Proof. intros H. destruct s; cbn [Regex.exec]; by rewrite H. Qed.

Lemma port_re_parts :
  port_re = Regex.Seq (Regex.Opt (Regex.Cap 1 (Regex.Plus not_colon)))
              (Regex.Seq (Regex.Opt (Regex.Lit ":")) port_ports).
Proof. reflexivity. Qed.

(** The part of the pattern after the host address, on
    [hostPort->containerPort] with or without a protocol. *)
Lemma port_ports_match (hp cp : string) (proto : option string)
    (cs : Regex.caps) :
  run_of Js.is_digit hp → run_of Js.is_digit cp →
  (∀ p, proto = Some p → run_of alpha_ci p) →
  Regex.run port_ports
    (hp +:+ String "-" (String ">" (cp +:+ protocolSuffix proto))) cs
    (λ _ cs, Some cs)
  = Some (let found := <[3%nat := Some cp]> (<[2%nat := Some hp]> cs) in
          match proto with
          | Some p => <[4%nat := Some p]> found
          | None => found
          end).
Proof.
  intros [Hhp Hhpd] [Hcp Hcpd] Hproto. unfold port_ports.
  rewrite run_seq. apply run_cap_plus_longest; [done|done|done|].
  rewrite run_seq, run_lit, run_seq, run_lit, run_seq.
  apply run_cap_plus_longest; [done|done|by destruct proto|].
  destruct proto as [p|]; cbn [protocolSuffix].
  - destruct (Hproto p eq_refl) as [Hp Hpl].
    apply run_opt_first. rewrite run_seq, run_lit.
    rewrite <- (app_empty_r p) at 1.
    by apply run_cap_plus_longest.
  - by rewrite run_opt_skip.
Qed.

Lemma truthy_nonempty (s : string) : s ≠ "" → Js.truthy s = true.
Proof. by destruct s. Qed.

Lemma str_or_word (proto : option string) :
  (∀ p, proto = Some p → run_of alpha_ci p) →
  str_or proto "tcp" = default "tcp" proto.
Proof.
  intros H. destruct proto as [p|]; [|done].
  destruct (H p eq_refl) as [Hp _]. cbn. by rewrite truthy_nonempty.
Qed.

Lemma port_re_full (ip hp cp : string) (proto : option string) :
  run_of not_colon ip → run_of Js.is_digit hp → run_of Js.is_digit cp →
  (∀ p, proto = Some p → run_of alpha_ci p) →
  Regex.run port_re
    (ip +:+ String ":"
       (hp +:+ String "-" (String ">" (cp +:+ protocolSuffix proto))))
    (Regex.no_caps 5) (λ _ cs, Some cs)
  = Some [None; Some ip; Some hp; Some cp; proto].
Proof.
  intros [Hip Hipc] Hhp Hcp Hproto.
  rewrite port_re_parts, run_seq. apply run_opt_first.
  apply run_cap_plus_longest; [done|done|done|].
  rewrite run_seq. apply run_opt_first. rewrite run_lit.
  rewrite port_ports_match; [|done..]. by destruct proto.
Qed.

(** X19: a segment written in full,
    [address:hostPort->containerPort] with or without [/protocol], is
    parsed into exactly these parts, whatever they are: the address is
    any non-empty text without a colon, the ports are digit strings, the
    protocol a word of letters.  The address is reported only when it
    holds a dot, otherwise [0.0.0.0]; a missing protocol is [tcp]. *)
Theorem X19_full_port_segment_is_parsed (ip hp cp : string)
    (proto : option string) :
  run_of not_colon ip → run_of Js.is_digit hp → run_of Js.is_digit cp →
  (∀ p, proto = Some p → run_of alpha_ci p) →
  parsePortSegment
    (ip +:+ ":" +:+ hp +:+ "->" +:+ cp +:+ protocolSuffix proto)
  = mkPort (Some (if Js.includes ip "." then ip else "0.0.0.0"))
      (Some hp) (Some cp) (Some (default "tcp" proto))
      (hp +:+ "->" +:+ cp +:+ "/" +:+ default "tcp" proto).
Proof.
  intros Hip Hhp Hcp Hproto. unfold parsePortSegment.
  rewrite !app_cons_s, !app_nil_s.
  rewrite (exec_here _ _ _ _ (port_re_full ip hp cp proto Hip Hhp Hcp Hproto)).
  cbn [Regex.group lookup list_lookup tpl].
  rewrite (str_or_word proto Hproto).
  destruct Hip as [Hip _]. rewrite (truthy_nonempty ip Hip). cbn [andb].
  by rewrite !app_cons_s, !app_nil_s.
Qed.

Lemma X19_full_port_segment_is_parsed_witness :
  run_of not_colon "192.168.1.10" ∧ run_of Js.is_digit "8443"
  ∧ run_of Js.is_digit "443"
  ∧ parsePortSegment "192.168.1.10:8443->443/tcp"
    = mkPort (Some "192.168.1.10") (Some "8443") (Some "443") (Some "tcp")
        "8443->443/tcp".
Proof.
  assert (run_of not_colon "192.168.1.10") as H1 by (split; [done|reflexivity]).
  assert (run_of Js.is_digit "8443") as H2 by (split; [done|reflexivity]).
  assert (run_of Js.is_digit "443") as H3 by (split; [done|reflexivity]).
  assert (∀ p, Some "tcp" = Some p → run_of alpha_ci p) as H4.
  { intros p [= <-]. split; [done|reflexivity]. }
  split; [exact H1|]. split; [exact H2|]. split; [exact H3|].
  exact (X19_full_port_segment_is_parsed "192.168.1.10" "8443" "443"
           (Some "tcp") H1 H2 H3 H4).
Defined.

Lemma all_impl (p q : ascii → bool) (s : string) :
  (∀ c, p c = true → q c = true) →
  JsStr.all p s = true → JsStr.all q s = true.
Proof.
  intros Hpq. induction s as [|c s IH]; cbn; [done|].
  intros [Hc Hs]%andb_true_iff. by rewrite (Hpq c Hc), IH.
Qed.

Lemma all_has (p : ascii → bool) (c : ascii) (s : string) :
  p c = false → JsStr.all p s = true → JsStr.has c s = false.
Proof.
  intros Hc. induction s as [|a s IH]; cbn; [done|].
  intros [Ha Hs]%andb_true_iff. rewrite (IH Hs), orb_false_r.
  apply Ascii.eqb_neq. by intros ->; rewrite Hc in Ha.
Qed.

Lemma includes_char (c : ascii) (s : string) :
  Js.includes s (String c "") = JsStr.has c s.
Proof.
  induction s as [|a s IH]; cbn; [done|]. rewrite IH. f_equal.
  destruct (ascii_dec c a) as [->|Hne].
  - rewrite Ascii.eqb_refl. by destruct s.
  - symmetry. apply Ascii.eqb_neq. by intros ->.
Qed.

Lemma digit_not_colon (c : ascii) : Js.is_digit c = true → not_colon c = true.
Proof.
  intros Hc. unfold not_colon. apply negb_true_iff, Ascii.eqb_neq.
  by intros ->.
Qed.

Lemma suffix_cases (u1 u2 rest : string) (d : ascii) :
  u1 +:+ u2 = String d (String "-" (String ">" rest)) → u1 ≠ "" →
  u2 = String "-" (String ">" rest) ∨ u2 = String ">" rest
  ∨ ∃ v, rest = v +:+ u2.
Proof.
  intros Hu Hne. destruct u1 as [|a [|b [|c v]]]; [done| | |];
    rewrite ?app_cons_s, ?app_nil_s in Hu.
  - left. by injection Hu.
  - right; left. by injection Hu.
  - right; right. exists v. by injection Hu.
Qed.

(** What the pattern after the host address needs of a text: a colon or
    a digit in front, and an arrow later. *)
Lemma after_address_needs {R} (k : string → Regex.caps → option R)
    (s : string) (cs : Regex.caps) (x : R) :
  Regex.run (Regex.Seq (Regex.Opt (Regex.Lit ":")) port_ports) s cs k = Some x →
  (∃ c s', s = String c s' ∧ (c = ":"%char ∨ Js.is_digit c = true))
  ∧ JsStr.has ">" s = true.
Proof.
  intros H. apply run_sound in H as (s' & cs' & Hm & _).
  unfold port_ports in Hm. cbn [matches] in Hm.
  destruct Hm as (s1 & cs1 & H1 & s2 & cs2 & H2 & s3 & cs3
                  & [-> ->] & s4 & cs4 & [-> ->] & _).
  destruct H2 as (? & [(hp & -> & Hhp & Hhpd) ->] & ->).
  assert ((∃ c t, hp +:+ String "-" (String ">" s4) = String c t
                  ∧ (c = ":"%char ∨ Js.is_digit c = true))
          ∧ JsStr.has ">" (hp +:+ String "-" (String ">" s4)) = true)
    as [(c & t & Hc & Hcd) Hgt].
  { split.
    - destruct hp as [|c hp]; [done|]. cbn in Hhpd.
      apply andb_true_iff in Hhpd as [Hc _].
      exists c, (hp +:+ String "-" (String ">" s4)).
      rewrite app_cons_s. split; [done|by right].
    - rewrite has_app. cbn. by rewrite orb_true_r. }
  destruct H1 as [[-> ->] | [<- ->]].
  - split; [exists ":"%char; eexists; split; [done|by left]|].
    cbn. by rewrite Hgt.
  - split; [|done]. by exists c, t.
Qed.

Lemma port_re_no_address (h : string) (d : ascii) (cp : string)
    (proto : option string) :
  JsStr.all Js.is_digit h = true → Js.is_digit d = true →
  run_of Js.is_digit cp →
  (∀ p, proto = Some p → run_of alpha_ci p) →
  Regex.run port_re
    (h +:+ String d (String "-" (String ">" (cp +:+ protocolSuffix proto))))
    (Regex.no_caps 5) (λ _ cs, Some cs)
  = Some [None; if Js.truthy h then Some h else None;
          Some (String d ""); Some cp; proto].
Proof.
  intros Hh Hd Hcp Hproto.
  set (rest := cp +:+ protocolSuffix proto).
  assert (JsStr.has ">" rest = false) as Hrest.
  { unfold rest. rewrite has_app. destruct Hcp as [_ Hcpd].
    rewrite (all_has Js.is_digit ">" cp eq_refl Hcpd). cbn [orb].
    destruct proto as [p|]; [|done]. destruct (Hproto p eq_refl) as [_ Hp].
    cbn. exact (all_has alpha_ci ">" p eq_refl Hp). }
  set (after := Regex.Seq (Regex.Opt (Regex.Lit ":")) port_ports).
  assert (∀ u1 u2 cs', String d (String "-" (String ">" rest)) = u1 +:+ u2 →
            u1 ≠ "" →
            Regex.run after u2 cs' (λ _ cs, Some cs) = None) as Hfail.
  { intros u1 u2 cs' Hu Hu1.
    destruct (Regex.run after u2 cs' _) as [x|] eqn:Hr; [|done].
    apply after_address_needs in Hr as [(c & t & Hc & Hcd) Hgt].
    symmetry in Hu.
    destruct (suffix_cases u1 u2 rest d Hu Hu1) as [-> | [-> | [v ->]]].
    - injection Hc as <- _. by destruct Hcd.
    - injection Hc as <- _. by destruct Hcd.
    - rewrite has_app, Hgt, orb_true_r in Hrest. done. }
  assert (∀ cs', Regex.run after (String d (String "-" (String ">" rest))) cs'
                   (λ _ cs, Some cs)
                 = Some (let found := <[3%nat := Some cp]>
                                        (<[2%nat := Some (String d "")]> cs') in
                         match proto with
                         | Some p => <[4%nat := Some p]> found
                         | None => found
                         end)) as Hok.
  { intros cs'. unfold after. rewrite run_seq, run_opt_skip.
    - apply (port_ports_match (String d "") cp proto cs'); [|done|done].
      split; [done|]. cbn. by rewrite Hd.
    - cbn [Regex.run]. destruct (Ascii.eqb ":" d) eqn:He; [|done].
      apply Ascii.eqb_eq in He as <-. done. }
  rewrite port_re_parts, run_seq. fold after.
  destruct h as [|c h].
  - rewrite app_nil_s, run_opt_skip.
    + rewrite Hok. by destruct proto.
    + cbn [Regex.run]. apply plus_cls_none.
      intros w s' Hu Hw _. by apply (Hfail w s').
  - apply run_opt_first, run_cap_plus_first.
    + done.
    + by apply (all_impl Js.is_digit), Hh; apply digit_not_colon.
    + intros u1 u2 Hu Hu1 _ cs'. by apply (Hfail u1 u2).
    + rewrite Hok. by destruct proto.
Qed.

(** X20: a segment without a host address,
    [hostPort->containerPort] with or without [/protocol], is not parsed
    into these parts: the pattern gives all digits of the host port but
    the last to the address group, so the host port reported is the last
    digit alone, with the address [0.0.0.0]. *)
Theorem X20_host_port_without_address (h : string) (d : ascii) (cp : string)
    (proto : option string) :
  JsStr.all Js.is_digit h = true → Js.is_digit d = true →
  run_of Js.is_digit cp →
  (∀ p, proto = Some p → run_of alpha_ci p) →
  parsePortSegment
    (h +:+ String d "" +:+ "->" +:+ cp +:+ protocolSuffix proto)
  = mkPort (Some "0.0.0.0") (Some (String d "")) (Some cp)
      (Some (default "tcp" proto))
      (String d "" +:+ "->" +:+ cp +:+ "/" +:+ default "tcp" proto).
Proof.
  intros Hh Hd Hcp Hproto. unfold parsePortSegment.
  rewrite !app_cons_s, !app_nil_s.
  rewrite (exec_here _ _ _ _ (port_re_no_address h d cp proto Hh Hd Hcp Hproto)).
  cbn [Regex.group lookup list_lookup tpl].
  rewrite (str_or_word proto Hproto).
  assert (Js.includes h "." = false) as Hdot.
  { rewrite includes_char. exact (all_has Js.is_digit "." h eq_refl Hh). }
  rewrite !app_cons_s, !app_nil_s.
  destruct (Js.truthy h); [|done]. by rewrite Hdot, andb_false_r.
Qed.

Lemma X20_host_port_without_address_witness :
  JsStr.all Js.is_digit "808" = true ∧ Js.is_digit "0" = true
  ∧ run_of Js.is_digit "80"
  ∧ parsePortSegment "8080->80/tcp"
    = mkPort (Some "0.0.0.0") (Some "0") (Some "80") (Some "tcp") "0->80/tcp".
Proof.
  assert (run_of Js.is_digit "80") as H3 by (split; [done|reflexivity]).
  assert (∀ p, Some "tcp" = Some p → run_of alpha_ci p) as H4.
  { intros p [= <-]. split; [done|reflexivity]. }
  split; [reflexivity|]. split; [reflexivity|]. split; [exact H3|].
  exact (X20_host_port_without_address "808" "0" "80" (Some "tcp")
           eq_refl eq_refl H3 H4).
Defined.

(** ** The inspection map *)

Lemma inspectContainers_fold (ids : list string) (parsed : list Details) :
  ids ≠ [] →
  inspectContainers ids (Return parsed) = foldl addInspected ∅ parsed.
Proof. by destruct ids. Qed.

Lemma addInspected_keys (m : gmap string Details) (item : Details) k v :
  addInspected m item !! k = Some v →
  m !! k = Some v ∨ (v = item ∧ keyOf k item).
Proof.
  unfold addInspected. destruct (d_Id item) as [i|] eqn:Hi; [|by left].
  destruct (Js.truthy i) eqn:Ht; [|by left].
  assert (i ≠ "") as Hne by (by intros ->).
  destruct (decide (k = String.substring 0 12 i)) as [->|Hk1].
  - rewrite lookup_insert_eq. intros [= <-]. right. split; [done|].
    exists i. auto.
  - rewrite lookup_insert_ne by done.
    destruct (decide (k = i)) as [->|Hk2].
    + rewrite lookup_insert_eq. intros [= <-]. right. split; [done|].
      exists i. auto.
    + rewrite lookup_insert_ne by done. by left.
Qed.

Lemma addInspected_mono (m : gmap string Details) (item : Details) k :
  is_Some (m !! k) → is_Some (addInspected m item !! k).
Proof.
  intros Hk. unfold addInspected. destruct (d_Id item) as [i|]; [|done].
  destruct (Js.truthy i); [|done].
  destruct (decide (k = String.substring 0 12 i)) as [->|Hk1].
  - rewrite lookup_insert_eq. by eexists.
  - rewrite lookup_insert_ne by done.
    destruct (decide (k = i)) as [->|Hk2].
    + rewrite lookup_insert_eq. by eexists.
    + by rewrite lookup_insert_ne.
Qed.

Lemma addInspected_stored (m : gmap string Details) (item : Details) i :
  d_Id item = Some i → i ≠ "" →
  is_Some (addInspected m item !! i)
  ∧ is_Some (addInspected m item !! String.substring 0 12 i).
Proof.
  intros Hi Hne. unfold addInspected. rewrite Hi.
  rewrite (truthy_nonempty i Hne). split.
  - destruct (decide (i = String.substring 0 12 i)) as [He|Hk1].
    + rewrite <- He at 1. rewrite lookup_insert_eq. by eexists.
    + rewrite lookup_insert_ne by done. rewrite lookup_insert_eq. by eexists.
  - rewrite lookup_insert_eq. by eexists.
Qed.

Lemma foldl_addInspected_keys (parsed : list Details) :
  ∀ (m : gmap string Details) k v,
  foldl addInspected m parsed !! k = Some v →
  m !! k = Some v ∨ (v ∈ parsed ∧ keyOf k v).
Proof.
  induction parsed as [|item parsed IH]; intros m k v; cbn; [by left|].
  intros H. apply IH in H as [H | [Hin Hk]].
  - apply addInspected_keys in H as [H | [-> Hk]]; [by left|].
    right. split; [apply list_elem_of_here|done].
  - right. split; [by apply list_elem_of_further|done].
Qed.

Lemma foldl_addInspected_mono (parsed : list Details) :
  ∀ (m : gmap string Details) k,
  is_Some (m !! k) → is_Some (foldl addInspected m parsed !! k).
Proof.
  induction parsed as [|item parsed IH]; intros m k Hk; cbn; [done|].
  by apply IH, addInspected_mono.
Qed.

Lemma foldl_addInspected_stored (parsed : list Details) :
  ∀ (m : gmap string Details) item i,
  item ∈ parsed → d_Id item = Some i → i ≠ "" →
  is_Some (foldl addInspected m parsed !! i)
  ∧ is_Some (foldl addInspected m parsed !! String.substring 0 12 i).
Proof.
  induction parsed as [|x parsed IH]; intros m item i Hin Hi Hne.
  - by apply elem_of_nil in Hin.
  - cbn. apply elem_of_cons in Hin as [<- | Hin].
    + destruct (addInspected_stored m item i Hi Hne) as [H1 H2].
      split; by apply foldl_addInspected_mono.
    + by apply (IH _ item).
Qed.

Lemma addInspected_at (m : gmap string Details) (item : Details) key :
  keyOf key item → addInspected m item !! key = Some item.
Proof.
  intros (i & Hi & Hne & Hkey). unfold addInspected.
  rewrite Hi, (truthy_nonempty i Hne).
  destruct Hkey as [-> | ->].
  - destruct (decide (i = String.substring 0 12 i)) as [He|Hk].
    + rewrite <- He at 1. by rewrite lookup_insert_eq.
    + rewrite lookup_insert_ne by done. by rewrite lookup_insert_eq.
  - by rewrite lookup_insert_eq.
Qed.

Lemma addInspected_other (m : gmap string Details) (item : Details) key :
  ¬ keyOf key item → addInspected m item !! key = m !! key.
Proof.
  intros Hkey. unfold addInspected.
  destruct (d_Id item) as [i|] eqn:Hi; [|done].
  destruct (Js.truthy i) eqn:Ht; [|done].
  assert (i ≠ "") as Hne by (by intros ->).
  rewrite !lookup_insert_ne; [done| |].
  - intros <-. apply Hkey. exists i. auto.
  - intros <-. apply Hkey. exists i. auto.
Qed.

Lemma foldl_addInspected_other (parsed : list Details) key :
  ∀ (m : gmap string Details),
  Forall (λ later, ¬ keyOf key later) parsed →
  foldl addInspected m parsed !! key = m !! key.
Proof.
  induction parsed as [|x parsed IH]; intros m Hall; [done|].
  apply Forall_cons in Hall as [Hx Hall]. cbn [foldl].
  by rewrite (IH _ Hall), addInspected_other.
Qed.

(** X21: the map built by [inspectContainers] answers with the last item
    stored under a key.  Whatever is found under a key is one of the
    inspected items, and the key is that item's [Id] or the first twelve
    characters of it; when ids were asked for and the inspection
    succeeded, an item is found under each of its two keys unless a
    later item of the output is stored under that key (two containers
    whose [Id]s share their first twelve characters: the short key then
    answers with the later one), and both keys of every item with an
    [Id] are bound; when the inspection failed, or no id was asked for,
    the map is empty. *)
Theorem X21_inspection_map_keys (ids : list string)
    (inspected : completion (list Details)) :
  (∀ key item,
     inspectContainers ids inspected !! key = Some item →
     keyOf key item ∧ ∃ parsed, inspected = Return parsed ∧ item ∈ parsed)
  ∧ (∀ earlier item later key,
       ids ≠ [] → inspected = Return (earlier ++ item :: later) →
       keyOf key item →
       Forall (λ other, ¬ keyOf key other) later →
       inspectContainers ids inspected !! key = Some item)
  ∧ (∀ parsed item i,
       ids ≠ [] → inspected = Return parsed →
       item ∈ parsed → d_Id item = Some i → i ≠ "" →
       is_Some (inspectContainers ids inspected !! i)
       ∧ is_Some (inspectContainers ids inspected !! String.substring 0 12 i))
  ∧ (ids = [] ∨ (∃ err, inspected = Throw err) →
     inspectContainers ids inspected = ∅).
Proof.
  split; [|split; [|split]].
  - intros key item. destruct ids as [|i0 ids]; [done|].
    destruct inspected as [parsed|err]; [|done].
    rewrite inspectContainers_fold by done. intros H.
    apply foldl_addInspected_keys in H as [H | [Hin Hk]]; [done|].
    split; [done|]. by exists parsed.
  - intros earlier item later key Hids -> Hkey Hlater.
    rewrite inspectContainers_fold by done.
    rewrite foldl_app. cbn [foldl].
    by rewrite foldl_addInspected_other, addInspected_at.
  - intros parsed item i Hids -> Hin Hi Hne.
    rewrite inspectContainers_fold by done.
    by apply (foldl_addInspected_stored parsed ∅ item).
  - intros [-> | [err ->]]; [done|]. by destruct ids.
Qed.

Lemma X21_inspection_map_keys_witness :
  let first := mkDetails (Some "0123456789abcdef0123") None in
  let second := mkDetails (Some "0123456789abffff4567") None in
  let m := inspectContainers ["0123456789ab"] (Return [first; second]) in
  keyOf "0123456789ab" second
  ∧ m !! "0123456789ab" = Some second
  ∧ m !! "0123456789abcdef0123" = Some first.
Proof.
  intros first second m.
  assert (keyOf "0123456789ab" second) as Hshort.
  { exists "0123456789abffff4567". split; [done|]. split; [done|]. by right. }
  assert (keyOf "0123456789abcdef0123" first) as Hfull.
  { exists "0123456789abcdef0123". split; [done|]. split; [done|]. by left. }
  split; [exact Hshort|]. split.
  - apply (proj1 (proj2 (X21_inspection_map_keys ["0123456789ab"]
                           (Return [first; second])))
             [first] second [] "0123456789ab"); [done|done|exact Hshort|].
    constructor.
  - apply (proj1 (proj2 (X21_inspection_map_keys ["0123456789ab"]
                           (Return [first; second])))
             [] first [second] "0123456789abcdef0123"); [done|done|exact Hfull|].
    constructor; [|constructor].
    intros (i & [= <-] & _ & [H | H]); vm_compute in H; discriminate.
Defined.

(** ** The address of a container *)

Lemma filter_truthy_head (l1 l2 : list (option string)) (a : option string) :
  Forall (λ x, Js.truthy_opt x = false) l1 → Js.truthy_opt a = true →
  filter (λ x, Js.truthy_opt x = true) (l1 ++ a :: l2)
  = a :: filter (λ x, Js.truthy_opt x = true) l2.
Proof.
  intros Hl1 Ha. induction Hl1 as [|x l1 Hx Hl1 IH]; cbn [app].
  - by rewrite filter_cons_True.
  - rewrite filter_cons_False; [done|]. by rewrite Hx.
Qed.

Lemma filter_truthy_nil (l : list (option string)) :
  filter (λ x, Js.truthy_opt x = true) l = []
  ↔ Forall (λ x, Js.truthy_opt x = false) l.
Proof.
  induction l as [|x l IH]; [done|].
  destruct (Js.truthy_opt x) eqn:Hx.
  - rewrite filter_cons_True by done. split; [done|].
    intros H. apply Forall_cons in H as [H _]. congruence.
  - rewrite filter_cons_False by (by rewrite Hx). rewrite IH.
    split; [by constructor|]. by intros [_ H]%Forall_cons.
Qed.

(** X22: the address of a container is the one given directly when it is
    not empty, otherwise the first address that is not empty among its
    networks, in their order; the address returned is never the empty
    string, and none is returned exactly when the details hold no
    address that is not empty. *)
Theorem X22_container_address (details : option Details) :
  (∀ ip, resolveContainerIp details = Some ip → ip ≠ "")
  ∧ (∀ d ns direct,
       details = Some d → d_NetworkSettings d = Some ns →
       ns_IPAddress ns = Some direct → direct ≠ "" →
       resolveContainerIp details = Some direct)
  ∧ (∀ d ns before ip after,
       details = Some d → d_NetworkSettings d = Some ns →
       Js.truthy_opt (ns_IPAddress ns) = false →
       ns_Networks ns = before ++ Some ip :: after →
       Forall (λ a, Js.truthy_opt a = false) before → ip ≠ "" →
       resolveContainerIp details = Some ip)
  ∧ (resolveContainerIp details = None
     ↔ ∀ d ns, details = Some d → d_NetworkSettings d = Some ns →
               Js.truthy_opt (ns_IPAddress ns) = false
               ∧ Forall (λ a, Js.truthy_opt a = false) (ns_Networks ns)).
Proof.
  unfold resolveContainerIp. split; [|split; [|split]].
  - intros ip. destruct details as [d|]; [|done].
    destruct (d_NetworkSettings d) as [ns|]; [|done].
    destruct (Js.truthy_opt (ns_IPAddress ns)) eqn:Hd.
    + intros H. rewrite H in Hd. by intros ->.
    + destruct (filter _ _) as [|a l] eqn:Hf; [done|].
      intros ->.
      assert (Some ip ∈ filter (λ x, Js.truthy_opt x = true) (ns_Networks ns))
        as Hin by (rewrite Hf; apply list_elem_of_here).
      apply list_elem_of_filter in Hin as [Ht _]. by intros ->.
  - intros d ns direct -> -> Hdir Hne. rewrite Hdir. cbn.
    by rewrite (truthy_nonempty direct Hne).
  - intros d ns before ip after -> -> Hd Hn Hbefore Hne. rewrite Hd, Hn.
    rewrite filter_truthy_head; [done|done|]. cbn. by apply truthy_nonempty.
  - destruct details as [d|]; [|done].
    destruct (d_NetworkSettings d) as [ns|] eqn:Hns.
    2:{ split; [|done]. intros _ d' ns' [= <-]. by rewrite Hns. }
    split.
    + intros H d' ns' [= <-]. rewrite Hns. intros [= <-].
      destruct (Js.truthy_opt (ns_IPAddress ns)) eqn:Hd.
      * rewrite H in Hd. done.
      * split; [done|]. apply filter_truthy_nil.
        destruct (filter _ _) as [|a l] eqn:Hf; [done|]. subst a.
        assert (None ∈ filter (λ x, Js.truthy_opt x = true) (ns_Networks ns))
          as Hin by (rewrite Hf; apply list_elem_of_here).
        by apply list_elem_of_filter in Hin as [Ht _].
    + intros H. destruct (H d ns eq_refl Hns) as [Hd Hall].
      rewrite Hd. apply filter_truthy_nil in Hall. by rewrite Hall.
Qed.

Lemma X22_container_address_witness :
  let ns := mkNs (Some "") [None; Some ""; Some "172.17.0.2"; Some "10.0.0.5"] in
  let details := Some (mkDetails (Some "abc") (Some ns)) in
  resolveContainerIp details = Some "172.17.0.2" ∧ "172.17.0.2" ≠ "".
Proof.
  intros ns details.
  assert (resolveContainerIp details = Some "172.17.0.2") as H
    by (apply (proj1 (proj2 (proj2 (X22_container_address details)))
                 (mkDetails (Some "abc") (Some ns)) ns
                 [None; Some ""] "172.17.0.2" [Some "10.0.0.5"]);
        [reflexivity | reflexivity | reflexivity | reflexivity
        | repeat constructor | done]).
  split; [exact H|].
  exact (proj1 (X22_container_address details) "172.17.0.2" H).
Defined.

(** ** Sizes *)

Lemma ws_not_digit_or_dot (c : ascii) :
  Js.is_ws c = true → digit_or_dot c = false.
Proof. destruct c as [[] [] [] [] [] [] [] []]; by vm_compute. Qed.

Lemma digit_or_dot_not_ws (c : ascii) :
  digit_or_dot c = true → Js.is_ws c = false.
Proof. destruct c as [[] [] [] [] [] [] [] []]; by vm_compute. Qed.

Lemma stops_after_ws (ws unit : string) :
  JsStr.all Js.is_ws ws = true → stops digit_or_dot unit = true →
  stops digit_or_dot (ws +:+ unit) = true.
Proof.
  destruct ws as [|c ws]; [done|]. rewrite app_cons_s. cbn.
  intros [Hc _]%andb_true_iff _. by rewrite (ws_not_digit_or_dot c Hc).
Qed.

Lemma all_noEdgeSpace (p : ascii → bool) (s : string) :
  (∀ c, p c = true → Js.is_ws c = false) →
  JsStr.all p s = true → JsStr.noEdgeSpace s = true.
Proof.
  intros Hp Hall. unfold JsStr.noEdgeSpace.
  destruct s as [|c s]; [done|].
  pose proof Hall as Hrev. rewrite <- all_rev in Hrev.
  cbn in Hall. apply andb_true_iff in Hall as [Hc _].
  rewrite (Hp c Hc). cbn [negb andb].
  destruct (String.rev (String c s)) as [|d r]; [done|].
  cbn in Hrev. apply andb_true_iff in Hrev as [Hd _]. by rewrite (Hp d Hd).
Qed.

(** The pattern on a number, white space and a unit: the number is the
    first group, the unit what the last part of the pattern makes of
    it. *)
Lemma bytes_re_match (n ws unit : string) (g2 : option string) :
  run_of digit_or_dot n → JsStr.all Js.is_ws ws = true →
  stops digit_or_dot unit = true → stops Js.is_ws unit = true →
  (∀ cs, Regex.run unit_re unit cs (λ _ cs, Some cs)
         = Some (match g2 with Some u => <[2%nat := Some u]> cs | None => cs end)) →
  matchAtStart 2 bytes_re (n +:+ ws +:+ unit) = Some [None; Some n; g2].
Proof.
  intros [Hn Hnd] Hws Hstop Hstopw Hunit. unfold matchAtStart, bytes_re.
  rewrite run_seq.
  apply run_cap_plus_longest; [done|done|by apply stops_after_ws|].
  rewrite run_seq. destruct ws as [|c ws].
  - rewrite app_nil_s, run_opt_skip.
    + rewrite Hunit. by destruct g2.
    + cbn [Regex.run]. apply plus_cls_none. intros w s' Hu Hw Hall.
      by destruct (no_run_at_stop Js.is_ws unit w s').
  - apply run_opt_first. cbn [Regex.run].
    apply plus_cls_first_success; [done|done| |].
    + intros u1 u2 Hu Hu1 Hall.
      by destruct (no_run_at_stop Js.is_ws unit u1 u2).
    + rewrite Hunit. by destruct g2.
Qed.

Lemma size_prefix_cases (c : ascii) :
  size_prefix c = true →
  c ∈ ["k"; "K"; "m"; "M"; "g"; "G"; "t"; "T"; "p"; "P"]%char.
Proof.
  unfold size_prefix. cbn [existsb]. rewrite !orb_true_iff.
  intros H. repeat (destruct H as [H|H]; [apply Ascii.eqb_eq in H as ->;
    apply (bool_decide_unpack _); by vm_compute|]). done.
Qed.

Lemma byte_letter_cases (b : ascii) :
  byte_letter b = true → b = "b"%char ∨ b = "B"%char.
Proof.
  unfold byte_letter. intros [H|H]%orb_true_iff; apply Ascii.eqb_eq in H; auto.
Qed.

Lemma rank_cases (c : ascii) (k : Z) :
  rank c = Some k →
  (c, k) ∈ [("k", 1); ("K", 1); ("m", 2); ("M", 2);
            ("g", 3); ("G", 3); ("t", 4); ("T", 4)]%char.
Proof.
  destruct c as [[] [] [] [] [] [] [] []]; intros H; vm_compute in H;
    try discriminate; injection H as <-;
    apply (bool_decide_unpack _); by vm_compute.
Qed.

(** The last part of the pattern on a unit it accepts. *)
Lemma unit_re_match (prefix : option ascii) (binary : bool) (b : ascii)
    (cs : Regex.caps) :
  (∀ c, prefix = Some c → size_prefix c = true) → byte_letter b = true →
  Regex.run unit_re (sizeUnit prefix binary b) cs (λ _ cs, Some cs)
  = Some (<[2%nat := Some (sizeUnit prefix binary b)]> cs)
  ∧ stops digit_or_dot (sizeUnit prefix binary b) = true
  ∧ stops Js.is_ws (sizeUnit prefix binary b) = true
  ∧ JsStr.noEdgeSpace (sizeUnit prefix binary b) = true.
Proof.
  intros Hp Hb. destruct (byte_letter_cases b Hb) as [-> | ->];
    (destruct prefix as [c|];
     [ pose proof (size_prefix_cases c (Hp c eq_refl)) as Hc;
       repeat (apply elem_of_cons in Hc as [-> | Hc];
               [destruct binary; by vm_compute|]);
       by apply elem_of_nil in Hc
     | destruct binary; by vm_compute ]).
Qed.

Lemma parseHumanBytes_unit (parseFloat : string → num) (n ws : string)
    (prefix : option ascii) (binary : bool) (b : ascii) :
  run_of digit_or_dot n → JsStr.all Js.is_ws ws = true →
  (∀ c, prefix = Some c → size_prefix c = true) → byte_letter b = true →
  isFinite (parseFloat n) = true →
  parseHumanBytes parseFloat (Some (n +:+ ws +:+ sizeUnit prefix binary b))
  = Some (mul (parseFloat n)
            (match property (Js.toLowerCase (sizeUnit prefix binary b))
                     multipliers with
             | Some f => f
             | None => Fin 1
             end)).
Proof.
  intros Hn Hws Hp Hb Hfin.
  destruct (unit_re_match prefix binary b [None; Some n; None] Hp Hb)
    as (_ & Hs1 & Hs2 & Hedge).
  assert (Js.truthy (sizeUnit prefix binary b) = true) as Hunit.
  { by destruct prefix, binary. }
  pose proof Hn as [Hne Hnd].
  unfold parseHumanBytes.
  rewrite (truthy_app_l n _ (truthy_nonempty n Hne)). cbn [negb].
  rewrite trim_id.
  2:{ apply noEdgeSpace_app; [by apply truthy_nonempty|done| |done].
      by apply (all_noEdgeSpace digit_or_dot), Hnd; apply digit_or_dot_not_ws. }
  rewrite (bytes_re_match n ws (sizeUnit prefix binary b)
             (Some (sizeUnit prefix binary b)) Hn Hws Hs1 Hs2).
  2:{ intros cs. by apply (unit_re_match prefix binary b cs). }
  cbn [Regex.group lookup list_lookup]. rewrite Hfin. cbn [negb].
  unfold str_or. by rewrite Hunit.
Qed.

(** X23: a size with a unit from kilo to tera is scaled by the power of
    1000 for a decimal unit and of 1024 for a binary one, whatever the
    case of the letters and the white space between number and unit:
    [1.5GiB] is [1.5 * 1024^3], [200 kB] is [200 * 1000]. *)
Theorem X23_sizes_are_scaled (parseFloat : string → num) (n ws : string)
    (c : ascii) (binary : bool) (b : ascii) (k : Z) :
  run_of digit_or_dot n → JsStr.all Js.is_ws ws = true →
  rank c = Some k → byte_letter b = true →
  isFinite (parseFloat n) = true →
  parseHumanBytes parseFloat (Some (n +:+ ws +:+ sizeUnit (Some c) binary b))
  = Some (mul (parseFloat n) (of_Z ((if binary then 1024 else 1000) ^ k))).
Proof.
  intros Hn Hws Hk Hb Hfin. apply rank_cases in Hk.
  rewrite parseHumanBytes_unit; [|done|done| |done|done].
  - destruct (byte_letter_cases b Hb) as [-> | ->];
      repeat (apply elem_of_cons in Hk as [[= -> ->] | Hk];
              [by destruct binary|]);
      by apply elem_of_nil in Hk.
  - intros c' [= <-].
    repeat (apply elem_of_cons in Hk as [[= -> ->] | Hk]; [done|]).
    by apply elem_of_nil in Hk.
Qed.

Lemma X23_sizes_are_scaled_witness :
  run_of digit_or_dot "1.5" ∧ rank "G" = Some 3
  ∧ parseFloatDigits "1.5" = Fin (3 # 2)
  ∧ parseHumanBytes parseFloatDigits (Some "1.5GiB") = Some (Fin 1610612736).
Proof.
  assert (run_of digit_or_dot "1.5") as H1 by (split; [done|reflexivity]).
  split; [exact H1|]. split; [reflexivity|]. split; [reflexivity|].
  exact (X23_sizes_are_scaled parseFloatDigits "1.5" "" "G" true "B" 3
           H1 eq_refl eq_refl eq_refl eq_refl).
Defined.

(** X24: a size with the unit [B], or with a peta unit, is returned as
    the bare number: the table of multipliers has no entry for peta, so
    [5PB] and [5PiB] are read as 5 bytes; so is a unit made of [i] and
    [B] alone. *)
Theorem X24_sizes_without_multiplier (parseFloat : string → num)
    (n ws : string) (prefix : option ascii) (binary : bool) (b : ascii) :
  run_of digit_or_dot n → JsStr.all Js.is_ws ws = true →
  prefix = None ∨ prefix = Some "p"%char ∨ prefix = Some "P"%char →
  byte_letter b = true →
  isFinite (parseFloat n) = true →
  parseHumanBytes parseFloat (Some (n +:+ ws +:+ sizeUnit prefix binary b))
  = Some (mul (parseFloat n) (Fin 1)).
Proof.
  intros Hn Hws Hp Hb Hfin.
  rewrite parseHumanBytes_unit; [|done|done| |done|done].
  - destruct (byte_letter_cases b Hb) as [-> | ->];
      destruct Hp as [-> | [-> | ->]]; by destruct binary.
  - intros c Hc.
    destruct Hp as [-> | [-> | ->]]; [discriminate| |];
      by injection Hc as <-.
Qed.

Lemma X24_sizes_without_multiplier_witness :
  run_of digit_or_dot "5"
  ∧ parseHumanBytes parseFloatDigits (Some "5 PiB") = Some (Fin 5).
Proof.
  assert (run_of digit_or_dot "5") as H1 by (split; [done|reflexivity]).
  split; [exact H1|].
  exact (X24_sizes_without_multiplier parseFloatDigits "5" " " (Some "P"%char)
           true "B" H1 eq_refl (or_intror (or_intror eq_refl)) eq_refl eq_refl).
Defined.

Lemma leadingRun_split (p : ascii → bool) (s : string) :
  ∃ rest, s = leadingRun p s +:+ rest
          ∧ JsStr.all p (leadingRun p s) = true ∧ stops p rest = true.
Proof.
  induction s as [|c s (rest & Hs & Hall & Hstop)]; [by exists ""|].
  cbn. destruct (p c) eqn:Hc.
  - exists rest. rewrite app_cons_s, <- Hs. cbn. by rewrite Hc.
  - exists (String c s). cbn. by rewrite Hc.
Qed.

Lemma run_opt_total {R} r (k : string → Regex.caps → option R) s cs :
  is_Some (k s cs) → is_Some (Regex.run (Regex.Opt r) s cs k).
Proof. intros Hk. cbn [Regex.run]. by destruct (Regex.run r s cs k). Qed.

(** Everything after the number is optional: the rest of the pattern
    matches any text and leaves the first group as it is. *)
Lemma after_number_total (s : string) (cs : Regex.caps) :
  ∃ cs', Regex.run (Regex.Seq (Regex.Opt (Regex.Plus Js.is_ws)) unit_re)
           s cs (λ _ cs, Some cs) = Some cs'
         ∧ Regex.group cs' 1 = Regex.group cs 1.
Proof.
  destruct (Regex.run _ s cs _) as [cs'|] eqn:Hr.
  - exists cs'. split; [done|].
    apply run_sound in Hr as (s' & cs'' & Hm & [= ->]).
    unfold unit_re in Hm. cbn [matches] in Hm.
    destruct Hm as (s1 & cs1 & H1 & H2).
    assert (cs1 = cs) as -> by (by destruct H1 as [[_ ->] | [_ ->]]).
    destruct H2 as [(cs4 & (s2 & cs2 & A & s3 & cs3 & B & _ & Hcs4) & ->)
                   | [_ ->]]; [|done].
    assert (cs2 = cs) as -> by (by destruct A as [[_ ->] | [_ ->]]).
    assert (cs3 = cs) as -> by (by destruct B as [[_ ->] | [_ ->]]).
    subst cs4. unfold Regex.group.
    by rewrite (list_lookup_insert_ne (cs : list (option string)) 2 1).
  - exfalso. rewrite run_seq in Hr.
    assert (is_Some (Regex.run (Regex.Opt (Regex.Plus Js.is_ws)) s cs
              (λ s1 cs1, Regex.run unit_re s1 cs1 (λ _ cs0, Some cs0)))) as Hs.
    { cbn [Regex.run]. destruct (Regex.plus_cls _ _ _) as [x|] eqn:Hp; [done|].
      unfold unit_re. by apply run_opt_total. }
    rewrite Hr in Hs. by destruct Hs.
Qed.

Lemma factor_in_table (unit : string) :
  let f := match property unit multipliers with
           | Some f => f
           | None => Fin 1
           end in
  f = Fin 1 ∨ f ∈ multipliers.*2.
Proof.
  intros f. unfold f, multipliers. cbn [property fmap list_fmap snd].
  repeat (destruct (String.eqb _ unit);
          [right;
           repeat first [apply list_elem_of_here | apply list_elem_of_further]|]).
  by left.
Qed.

(** X25: [parseHumanBytes] returns a number exactly when the text, once
    trimmed, starts with digits or dots and [parseFloat] reads a finite
    number from that leading run; the number returned is then that value
    times 1 or a multiplier of the table.  Whatever follows the leading
    run decides the multiplier only. *)
Theorem X25_size_is_read_from_the_leading_number (parseFloat : string → num)
    (text : string) :
  let number := leadingRun digit_or_dot (Js.trim text) in
  (is_Some (parseHumanBytes parseFloat (Some text))
   ↔ number ≠ "" ∧ isFinite (parseFloat number) = true)
  ∧ (∀ v, parseHumanBytes parseFloat (Some text) = Some v →
          ∃ f, v = mul (parseFloat number) f
               ∧ (f = Fin 1 ∨ f ∈ multipliers.*2)).
Proof.
  intros number. unfold parseHumanBytes.
  destruct (Js.truthy text) eqn:Ht; unfold negb at 1; cbv iota.
  2:{ destruct text; [|done]. split; [|done].
      split; [by intros [? ?]|by intros [? _]]. }
  destruct (leadingRun_split digit_or_dot (Js.trim text))
    as (rest & Hs & Hall & Hstop). fold number in Hs, Hall.
  destruct (decide (number = "")) as [Hn|Hn].
  - rewrite Hn, app_nil_s in Hs. rewrite <- Hs in Hstop.
    assert (matchAtStart 2 bytes_re (Js.trim text) = None) as ->.
    { unfold matchAtStart, bytes_re. rewrite run_seq. cbn [Regex.run].
      apply plus_cls_none. intros w s' Hu Hw Hw'.
      by destruct (no_run_at_stop digit_or_dot (Js.trim text) w s'). }
    split; [|done]. split; [by intros [? ?]|by intros [? _]].
  - destruct (after_number_total rest (<[1%nat := Some number]> (Regex.no_caps 3)))
      as (cs' & Hrun & Hg1).
    assert (matchAtStart 2 bytes_re (Js.trim text) = Some cs') as ->.
    { unfold matchAtStart, bytes_re. rewrite run_seq, Hs.
      by apply run_cap_plus_longest. }
    rewrite Hg1.
    change (Regex.group (<[1%nat := Some number]> (Regex.no_caps 3)) 1)
      with (Some number).
    destruct (isFinite (parseFloat number)) eqn:Hfin; unfold negb at 1; cbv iota.
    + split; [split; [done|by eexists]|].
      intros v [= <-]. eexists. split; [done|]. apply factor_in_table.
    + split; [|done]. split; [by intros [? ?]|by intros [_ ?]].
Qed.

Lemma X25_size_is_read_from_the_leading_number_witness :
  leadingRun digit_or_dot (Js.trim " 12.5MB ") = "12.5"
  ∧ isFinite (parseFloatDigits "12.5") = true
  ∧ is_Some (parseHumanBytes parseFloatDigits (Some " 12.5MB ")).
Proof.
  assert (leadingRun digit_or_dot (Js.trim " 12.5MB ") = "12.5") as H1
    by (vm_compute; reflexivity).
  assert (isFinite (parseFloatDigits "12.5") = true) as H2 by reflexivity.
  split; [exact H1|]. split; [exact H2|].
  apply (proj2 (proj1 (X25_size_is_read_from_the_leading_number
                         parseFloatDigits " 12.5MB "))).
  rewrite H1. split; [discriminate|exact H2].
Defined.

Lemma parseHumanBytes_trim (parseFloat : string → num) (text : string) :
  parseHumanBytes parseFloat (Some (Js.trim text))
  = parseHumanBytes parseFloat (Some text).
Proof.
  unfold parseHumanBytes. rewrite trim_idemp.
  destruct (Js.truthy (Js.trim text)) eqn:Ht.
  - assert (Js.truthy text = true) as -> by (by destruct text). done.
  - assert (Js.trim text = "") as -> by (by destruct (Js.trim text)).
    cbn [negb]. by destruct (Js.truthy text).
Qed.

(** X26: a usage pair such as [1.5GiB / 2GiB] is read piece by piece:
    the text before the slash gives the used amount and the text after it
    the total, each as [parseHumanBytes] reads it, white space around the
    slash being ignored; without a slash the total is unknown. *)
Theorem X26_usage_pair_is_read_piecewise (parseFloat : string → num)
    (used total : string) :
  JsStr.has "/" used = false → JsStr.has "/" total = false →
  parseUsagePair parseFloat (Some (used +:+ "/" +:+ total))
  = (parseHumanBytes parseFloat (Some used),
     parseHumanBytes parseFloat (Some total))
  ∧ parseUsagePair parseFloat (Some used)
    = (parseHumanBytes parseFloat (Some used), None).
Proof.
  intros Hu Ht. unfold parseUsagePair. split.
  - rewrite (truthy_nonempty (used +:+ "/" +:+ total)).
    2:{ destruct used; [done|]. by rewrite app_cons_s. }
    cbn [negb]. rewrite app_cons_s, app_nil_s, split_app, !split_whole by done.
    cbn [app fmap list_fmap length Nat.ltb Nat.leb lookup list_lookup].
    by rewrite !parseHumanBytes_trim.
  - destruct (Js.truthy used) eqn:Hused; cbn [negb].
    + rewrite split_whole by done.
      cbn [fmap list_fmap length Nat.ltb Nat.leb lookup list_lookup].
      by rewrite parseHumanBytes_trim.
    + by destruct used.
Qed.

Lemma X26_usage_pair_is_read_piecewise_witness :
  JsStr.has "/" "1.5GiB " = false ∧ JsStr.has "/" " 2GiB" = false
  ∧ parseUsagePair parseFloatDigits (Some "1.5GiB / 2GiB")
    = (Some (Fin 1610612736), Some (Fin 2147483648)).
Proof.
  split; [reflexivity|]. split; [reflexivity|].
  assert (parseHumanBytes parseFloatDigits (Some "1.5GiB ")
          = Some (Fin 1610612736)) as H1 by (vm_compute; reflexivity).
  assert (parseHumanBytes parseFloatDigits (Some " 2GiB")
          = Some (Fin 2147483648)) as H2 by (vm_compute; reflexivity).
  rewrite <- H1, <- H2.
  exact (proj1 (X26_usage_pair_is_read_piecewise parseFloatDigits
                  "1.5GiB " " 2GiB" eq_refl eq_refl)).
Defined.

(** ** The network sample of the server *)

Lemma mbps_exact (rx lastRx : Q) (d : Z) :
  0 < d →
  ∃ q, mbps (sub (Fin rx) (Fin lastRx)) d = Fin q
       ∧ (q == (rx - lastRx) * 8 / (inject_Z d / 1000) / 1000000)%Q.
Proof.
  intros Hd. unfold mbps, mega, of_Z, sub, neg, add.
  cbn [div]. change (Qeq_bool 1000 0) with false. cbn iota.
  pose proof (seconds_pos_Q d Hd) as Hs.
  cbn [mul div]. rewrite (Qeq_bool_false_pos _ Hs).
  change (Qeq_bool 1000000 0) with false. cbn iota.
  eexists. split; [reflexivity|]. by rewrite !Qred_correct.
Qed.

(** X27: the server's network collector.  When one of the two counter
    files is missing it returns [null] and keeps the previous sample.
    Otherwise it stores the sample just read, reports each rate twice
    under its two names, and knows the rates exactly when a sample of the
    same interface was stored at an earlier instant; the receive rate is
    then [(rx - lastRx) * 8 / seconds / 1e6], which is not negative when
    the counter has not decreased. *)
Theorem X27_server_network_sample (parseInt : string → num)
    (INTERFACE : string) (rxFile txFile : option string) (now : Z)
    (lastNet : option NetSample) :
  let result :=
    Server.collectNetworkStats parseInt INTERFACE rxFile txFile now lastNet in
  (rxFile = None ∨ txFile = None → result = (None, lastNet))
  ∧ (∀ rxText txText, rxFile = Some rxText → txFile = Some txText →
       ∃ stats,
         result = (Some stats,
                   Some (mkSample INTERFACE (parseInt rxText)
                           (parseInt txText) now))
         ∧ Server.interface stats = INTERFACE
         ∧ Server.rxRateMbps stats = Server.rxMbps stats
         ∧ Server.txRateMbps stats = Server.txMbps stats
         ∧ (is_Some (Server.rxMbps stats)
            ↔ ∃ last, lastNet = Some last ∧ last_iface last = INTERFACE
                      ∧ last_ts last < now)
         ∧ (is_Some (Server.txMbps stats) ↔ is_Some (Server.rxMbps stats))
         ∧ (∀ last rx lastRx,
              lastNet = Some last → last_iface last = INTERFACE →
              last_ts last < now →
              parseInt rxText = Fin rx → last_rxBytes last = Fin lastRx →
              ∃ q, Server.rxMbps stats = Some (Fin q)
                   ∧ (q == (rx - lastRx) * 8
                           / (inject_Z (now - last_ts last) / 1000)
                           / 1000000)%Q
                   ∧ ((lastRx <= rx)%Q → (0 <= q)%Q))).
Proof.
  intros result. unfold result, Server.collectNetworkStats. split.
  - intros [-> | ->]; [done|]. by destruct rxFile.
  - intros rxText txText -> ->. eexists. split; [reflexivity|].
    cbn [Server.interface Server.rxRateMbps Server.txRateMbps
         Server.rxMbps Server.txMbps].
    split; [done|]. split; [done|]. split; [done|].
    destruct lastNet as [last|].
    2:{ split; [|split; [done|by intros last rx lastRx [=]]].
        split; [by intros [? ?]|by intros (? & [=] & _)]. }
    destruct (String.eqb (last_iface last) INTERFACE) eqn:Hi.
    2:{ apply String.eqb_neq in Hi.
        split; [|split; [done|by intros ? rx lastRx [= <-] ?]].
        split; [by intros [? ?]|by intros (? & [= <-] & ? & _)]. }
    apply String.eqb_eq in Hi. rewrite seconds_positive.
    destruct (0 <? now - last_ts last) eqn:Hd.
    + apply Z.ltb_lt in Hd. cbn [fst snd].
      split; [split; [intros _; exists last; split; [done|split; [done|lia]]
                     |by eexists]|].
      split; [done|].
      intros l rx lastRx [= <-] _ _ -> ->.
      destruct (mbps_exact rx lastRx (now - last_ts last) Hd) as (q & Hq & Hqe).
      exists q. split; [by rewrite <- Hq|]. split; [done|].
      intros Hle. rewrite Hqe.
      apply Qle_shift_div_l; [done|]. rewrite Qmult_0_l.
      apply Qle_shift_div_l.
      { rewrite <- (Qred_correct (inject_Z _ / 1000)). by apply seconds_pos_Q. }
      rewrite Qmult_0_l. apply Qmult_le_0_compat; [|discriminate].
      unfold Qminus. rewrite <- (Qplus_opp_r lastRx). by apply Qplus_le_l.
    + apply Z.ltb_ge in Hd. cbn [fst snd].
      split; [|split; [done|]].
      * split; [by intros [? ?]|]. intros (l & [= <-] & _ & ?). lia.
      * intros l rx lastRx [= <-] _ ?. lia.
Qed.

Lemma X27_server_network_sample_witness :
  let last := mkSample "bond0" (Fin 1000) (Fin 1000) 0 in
  ∃ stats,
    Server.collectNetworkStats decimal "bond0" (Some "3000") (Some "5000")
      1000 (Some last)
    = (Some stats, Some (mkSample "bond0" (Fin 3000) (Fin 5000) 1000))
    ∧ Server.rxMbps stats = Some (Fin (2 # 125)).
Proof.
  intros last.
  destruct (proj2 (X27_server_network_sample decimal "bond0" (Some "3000")
                     (Some "5000") 1000 (Some last))
              "3000" "5000" eq_refl eq_refl) as (stats & Hr & _).
  exists stats. split; [exact Hr|].
  vm_compute in Hr. by injection Hr as <-.
Defined.

(** ** Array usage *)

Lemma endsWith_percent (p : string) : Js.endsWith (p +:+ "%") "%" = true.
Proof.
  unfold Js.endsWith. rewrite rev_app_s.
  change (String.rev "%") with "%"%string. rewrite app_cons_s.
  cbn. by destruct (ascii_dec "%" "%"); [destruct (String.rev p)|].
Qed.

Lemma drop_last_percent (p : string) : Js.drop_last (p +:+ "%") = p.
Proof.
  unfold Js.drop_last. rewrite rev_app_s.
  change (String.rev "%") with "%"%string. rewrite app_cons_s, app_nil_s.
  apply rev_involutive.
Qed.

Lemma clamp_inside (q : Q) :
  (0 <= q)%Q → (q <= 100)%Q →
  ∃ q', clamp (Fin q) (Fin 0) (Fin 100) = Fin q' ∧ (q' == q)%Q.
Proof.
  intros H0 H100. unfold clamp. cbn [isFinite negb Num.max].
  destruct (Qle_bool q 0) eqn:Hle.
  - apply Qle_bool_iff in Hle. exists 0%Q. split; [done|].
    by apply Qle_antisym.
  - cbn [Num.min]. apply Qle_bool_iff in H100 as ->. by exists q.
Qed.

(** X28: the figures of the array usage are always presentable: for any
    output of [df] with five fields or more, the percentage is a number
    in [0,100] and the two sizes are finite.  The percentage shown is
    [df]'s own: when the fifth field is a number followed by [%] and the
    number lies in [0,100], it is returned as it is, whatever the byte
    counts say. *)
Theorem X28_array_usage_figures (Number : string → num) (parts : list string) :
  let usage := usageOfParts Number parts in
  within 0 100 (usedPercent usage)
  ∧ isFinite (totalTb usage) = true
  ∧ isFinite (usedTb usage) = true
  ∧ (∀ p q, parts !! 4%nat = Some (p +:+ "%") → Number p = Fin q →
            (0 <= q)%Q → (q <= 100)%Q →
            ∃ q', usedPercent usage = Fin q' ∧ (q' == q)%Q).
Proof.
  intros usage. unfold usage, usageOfParts.
  cbn [usedPercent totalTb usedTb].
  split; [apply clamp_within|]. split; [apply round_isFinite|].
  split; [apply round_isFinite|].
  intros p q Hp Hq H0 H100. unfold part. rewrite Hp.
  rewrite endsWith_percent, drop_last_percent, Hq.
  assert (Js.truthy (p +:+ "%") = true) as -> by (by destruct p).
  cbn [andb]. by apply clamp_inside.
Qed.

Lemma X28_array_usage_figures_witness :
  let parts := Js.split_ws (Js.trim
    "shfs 16000000000000 4000000000000 12000000000000 25% /mnt/user") in
  parts !! 4%nat = Some ("25" +:+ "%") ∧ decimal "25" = Fin 25
  ∧ ∃ q', usedPercent (usageOfParts decimal parts) = Fin q' ∧ (q' == 25)%Q.
Proof.
  intros parts.
  assert (parts !! 4%nat = Some ("25" +:+ "%")) as H1 by (vm_compute; reflexivity).
  assert (decimal "25" = Fin 25) as H2 by (vm_compute; reflexivity).
  split; [exact H1|]. split; [exact H2|].
  apply (proj2 (proj2 (proj2 (X28_array_usage_figures decimal parts)))
           "25" 25%Q H1 H2); discriminate.
Defined.

(** ** Link templates *)

Lemma substitution_plain (matched before after template : string) :
  JsStr.has "$" template = false →
  substitution matched before after template = template.
Proof.
  induction template as [|c t IH]; [done|]. cbn [JsStr.has].
  intros [Hc Ht]%orb_false_iff. apply Ascii.eqb_neq in Hc.
  cbn [substitution]. rewrite (IH Ht).
  destruct c as [[] [] [] [] [] [] [] []]; try done.
Qed.

Section Replace.
Variable r : Regex.re.
Variable ngroups : nat.
Variable replacement : Regex.caps → string → string → string → string.
(** The pattern starts with a bracket. *)
Hypothesis r_head : ∀ c s,
  c ≠ "["%char →
  Regex.run r (String c s) (Regex.no_caps (S ngroups))
    (λ rest cs, Some (rest, cs)) = None.

Local Abbreviation go := (replaceAll_go r ngroups replacement).

Lemma replace_plain (pre : string) : ∀ seen s,
  JsStr.has "[" pre = false →
  go seen 0 (pre +:+ s) = pre +:+ go (String.rev pre +:+ seen) 0 s.
Proof.
  induction pre as [|c pre IH]; intros seen s; [done|].
  cbn [JsStr.has]. intros [Hc Hpre]%orb_false_iff.
  apply Ascii.eqb_neq in Hc.
  rewrite !app_cons_s. cbn [replaceAll_go].
  rewrite (r_head c (pre +:+ s) Hc), (IH _ _ Hpre).
  by rewrite rev_cons, app_assoc_s.
Qed.

Lemma replace_skip (w : string) : ∀ seen s,
  go seen (String.length w) (w +:+ s) = go (String.rev w +:+ seen) 0 s.
Proof.
  induction w as [|c w IH]; intros seen s.
  - rewrite app_nil_s. cbn [String.length]. by destruct s.
  - rewrite app_cons_s. cbn [String.length replaceAll_go].
    by rewrite IH, rev_cons, app_assoc_s.
Qed.

Lemma replace_match (c : ascii) (m rest seen : string) (cs : Regex.caps) :
  Regex.run r (String c (m +:+ rest)) (Regex.no_caps (S ngroups))
    (λ rest cs, Some (rest, cs)) = Some (rest, cs) →
  go seen 0 (String c (m +:+ rest))
  = replacement cs (String c m) (String.rev seen) rest
    +:+ go (String.rev (String c m) +:+ seen) 0 rest.
Proof.
  intros Hrun. cbn [replaceAll_go]. rewrite Hrun.
  rewrite <- app_cons_s, consumed_app.
  by rewrite replace_skip, rev_cons, app_assoc_s.
Qed.

Lemma replace_unchanged (s : string) :
  JsStr.has "[" s = false → replaceAll r ngroups replacement s = s.
Proof.
  intros Hs. unfold replaceAll.
  rewrite <- (app_empty_r s) at 1. rewrite (replace_plain s "" "" Hs).
  cbn [replaceAll_go]. by rewrite app_empty_r.
Qed.

End Replace.

Lemma ip_re_head (c : ascii) (s : string) :
  c ≠ "["%char →
  Regex.run ip_re (String c s) (Regex.no_caps 1) (λ rest cs, Some (rest, cs))
  = None.
Proof.
  intros Hc. unfold ip_re. cbn [Regex.run].
  destruct (Ascii.eqb "[" c) eqn:He; [|done].
  by apply Ascii.eqb_eq in He.
Qed.

Lemma port_tpl_re_head (c : ascii) (s : string) :
  c ≠ "["%char →
  Regex.run port_tpl_re (String c s) (Regex.no_caps 2)
    (λ rest cs, Some (rest, cs)) = None.
Proof.
  intros Hc. unfold port_tpl_re. cbn [Regex.run].
  destruct (Ascii.eqb "[" c) eqn:He; [|done].
  by apply Ascii.eqb_eq in He.
Qed.

(** X29: a label without an opening bracket is not a template:
    [applyDockerTemplate] returns it unchanged, whatever the ports and
    the address; a missing label stays missing. *)
Theorem X29_plain_label_is_unchanged (Number : string → num)
    (numberToString : num → string) (UNRAID_HOST : option string)
    (value : string) (ports : list PortMapping) (containerIp : option string) :
  JsStr.has "[" value = false →
  applyDockerTemplate Number numberToString UNRAID_HOST (Some value)
    ports containerIp = Some value
  ∧ applyDockerTemplate Number numberToString UNRAID_HOST None
      ports containerIp = None.
Proof.
  intros Hv. split; [|done]. unfold applyDockerTemplate.
  destruct (Js.truthy value); cbn [negb]; [|done].
  rewrite (replace_unchanged ip_re 0 _ ip_re_head value Hv).
  by rewrite (replace_unchanged port_tpl_re 1 _ port_tpl_re_head value Hv).
Qed.

Lemma X29_plain_label_is_unchanged_witness :
  JsStr.has "[" "http://192.168.1.5:8080/admin" = false
  ∧ applyDockerTemplate decimal (λ _, "NaN") None
      (Some "http://192.168.1.5:8080/admin") [] (Some "172.17.0.2")
    = Some "http://192.168.1.5:8080/admin".
Proof.
  split; [reflexivity|].
  exact (proj1 (X29_plain_label_is_unchanged decimal (λ _, "NaN") None
                  "http://192.168.1.5:8080/admin" [] (Some "172.17.0.2")
                  eq_refl)).
Defined.

Lemma lower_char_letter (c : ascii) :
  existsb (Ascii.eqb (Js.lower_char c)) ["i"; "p"; "o"; "r"; "t"]%char = true →
  letter_ci (Js.lower_char c) c = true.
Proof. destruct c as [[] [] [] [] [] [] [] []]; by vm_compute. Qed.

Lemma lower_char_mark (c : ascii) :
  existsb (Ascii.eqb (Js.lower_char c)) ["["; "]"; ":"]%char = true →
  c = Js.lower_char c.
Proof. destruct c as [[] [] [] [] [] [] [] []]; by vm_compute. Qed.

Lemma letter_p_not_i (c : ascii) :
  letter_ci "p" c = true → letter_ci "i" c = false.
Proof. destruct c as [[] [] [] [] [] [] [] []]; by vm_compute. Qed.

Lemma letter_no_bracket (l c : ascii) :
  letter_ci l c = true → Ascii.eqb c "[" = false.
Proof.
  unfold letter_ci. intros [_ Hc]%andb_true_iff. revert Hc.
  destruct c as [[] [] [] [] [] [] [] []]; by vm_compute.
Qed.

Lemma ip_token (tok : string) :
  Js.toLowerCase tok = "[ip]" →
  ∃ i p, tok = String "[" (String i (String p "]"))
         ∧ letter_ci "i" i = true ∧ letter_ci "p" p = true.
Proof.
  destruct tok as [|c0 [|c1 [|c2 [|c3 [|c4 t]]]]]; cbn [Js.toLowerCase];
    try discriminate.
  intros [= H0 H1 H2 H3]. exists c1, c2.
  rewrite (lower_char_mark c0), (lower_char_mark c3), H0, H3
    by (by rewrite ?H0, ?H3).
  split; [done|]. split.
  - rewrite <- H1. apply lower_char_letter. by rewrite H1.
  - rewrite <- H2. apply lower_char_letter. by rewrite H2.
Qed.

Lemma port_token (tok : string) :
  Js.toLowerCase tok = "[port:" →
  ∃ p o r t,
    tok = String "[" (String p (String o (String r (String t ":"))))
    ∧ letter_ci "p" p = true ∧ letter_ci "o" o = true
    ∧ letter_ci "r" r = true ∧ letter_ci "t" t = true.
Proof.
  destruct tok as [|c0 [|c1 [|c2 [|c3 [|c4 [|c5 [|c6 t]]]]]]];
    cbn [Js.toLowerCase]; try discriminate.
  intros [= H0 H1 H2 H3 H4 H5]. exists c1, c2, c3, c4.
  rewrite (lower_char_mark c0), (lower_char_mark c5), H0, H5
    by (by rewrite ?H0, ?H5).
  split; [done|]. split; [|split; [|split]].
  - rewrite <- H1. apply lower_char_letter. by rewrite H1.
  - rewrite <- H2. apply lower_char_letter. by rewrite H2.
  - rewrite <- H3. apply lower_char_letter. by rewrite H3.
  - rewrite <- H4. apply lower_char_letter. by rewrite H4.
Qed.

Lemma run_cls {R} (p : ascii → bool) (k : string → Regex.caps → option R)
    (c : ascii) (s : string) (cs : Regex.caps) :
  p c = true → Regex.run (Regex.Cls p) (String c s) cs k = k s cs.
Proof. intros Hc. cbn [Regex.run]. by rewrite Hc. Qed.

Section Passes.
Variable Number : string → num.
Variable numberToString : num → string.
Variable ports : list PortMapping.
Variable ip : string.

Local Abbreviation ipText :=
  (λ (_ : Regex.caps) (matched before after : string),
     substitution matched before after ip).
Local Abbreviation portText :=
  (λ (cs : Regex.caps) (_ _ _ : string),
     portReplacement Number numberToString ports (tpl (Regex.group cs 1))).

(** The first pass on the address token. *)
Lemma ip_pass (pre ipTok rest seen : string) :
  Js.toLowerCase ipTok = "[ip]" →
  JsStr.has "[" pre = false → JsStr.has "$" ip = false →
  replaceAll_go ip_re 0 ipText seen 0 (pre +:+ ipTok +:+ rest)
  = pre +:+ ip
    +:+ replaceAll_go ip_re 0 ipText
          (String.rev ipTok +:+ String.rev pre +:+ seen) 0 rest.
Proof.
  intros Htok Hpre Hip.
  destruct (ip_token ipTok Htok) as (i & p & -> & Hi & Hp).
  rewrite (replace_plain ip_re 0 _ ip_re_head pre _ _ Hpre).
  f_equal. rewrite !app_cons_s, app_nil_s.
  change (String i (String p (String "]" rest)))
    with (String i (String p "]") +:+ rest).
  rewrite (replace_match ip_re 0 _ "[" (String i (String p "]")) rest _
             (Regex.no_caps 1)).
  - by rewrite substitution_plain.
  - unfold ip_re. rewrite !app_cons_s, app_nil_s.
    rewrite run_seq, run_lit, run_seq, run_cls, run_seq, run_cls, run_lit;
      done.
Qed.

(** The first pass leaves a port token as it is. *)
Lemma ip_pass_port (portTok tail seen : string) :
  Js.toLowerCase portTok = "[port:" → JsStr.has "[" tail = false →
  replaceAll_go ip_re 0 ipText seen 0 (portTok +:+ tail) = portTok +:+ tail.
Proof.
  intros Htok Htail.
  destruct (port_token portTok Htok) as (p & o & r & t & -> & Hp & Ho & Hr & Ht).
  rewrite app_cons_s. cbn [replaceAll_go].
  assert (Regex.run ip_re
            (String "[" (String p (String o (String r (String t ":"))) +:+ tail))
            (Regex.no_caps 1) (λ rest cs, Some (rest, cs)) = None) as ->.
  { unfold ip_re. rewrite app_cons_s, run_seq, run_lit, run_seq.
    cbn [Regex.run]. by rewrite (letter_p_not_i p Hp). }
  f_equal.
  rewrite <- (app_empty_r (_ +:+ tail)) at 1.
  rewrite (replace_plain ip_re 0 _ ip_re_head).
  - cbn [replaceAll_go]. by rewrite app_empty_r.
  - rewrite has_app, Htail, orb_false_r. cbn [JsStr.has].
    by rewrite (letter_no_bracket _ p Hp), (letter_no_bracket _ o Ho),
      (letter_no_bracket _ r Hr), (letter_no_bracket _ t Ht).
Qed.

(** The second pass on the port token. *)
Lemma port_pass (portTok n post seen : string) :
  Js.toLowerCase portTok = "[port:" → run_of Js.is_digit n →
  JsStr.has "[" post = false →
  replaceAll_go port_tpl_re 1 portText seen 0
    (portTok +:+ n +:+ String "]" post)
  = portReplacement Number numberToString ports n +:+ post.
Proof.
  intros Htok [Hn Hnd] Hpost.
  destruct (port_token portTok Htok) as (p & o & r & t & -> & Hp & Ho & Hr & Ht).
  rewrite app_cons_s.
  replace (String p (String o (String r (String t ":"))) +:+ n +:+ String "]" post)
    with ((String p (String o (String r (String t ":"))) +:+ n +:+ "]") +:+ post)
    by (by rewrite !app_assoc_s).
  rewrite (replace_match port_tpl_re 1 _ "[" _ post _
             (<[1%nat := Some n]> (Regex.no_caps 2))).
  - cbn [Regex.group Regex.no_caps replicate insert list_insert lookup
         list_lookup tpl].
    f_equal.
    rewrite <- (app_empty_r post) at 1.
    rewrite (replace_plain port_tpl_re 1 _ port_tpl_re_head post _ _ Hpost).
    cbn [replaceAll_go]. by rewrite app_empty_r.
  - unfold port_tpl_re. rewrite !app_assoc_s, !app_cons_s, app_nil_s.
    rewrite run_seq, run_lit, run_seq, run_cls, run_seq, run_cls, run_seq,
      run_cls, run_seq, run_cls, run_seq, run_lit, run_seq by done.
    apply run_cap_plus_longest; [done|done|done|]. by rewrite run_lit.
Qed.

End Passes.

Lemma find_all_false {A} (f : A → bool) (l : list A) :
  Forall (λ x, f x = false) l → List.find f l = None.
Proof.
  intros Hf. induction Hf as [|x l Hx Hl IH]; [done|].
  cbn [List.find]. by rewrite Hx.
Qed.

(** X30: the usual template is filled in.  In a label of the form
    [pre[IP]mid[PORT:n]post], the tokens in any letter case and no other
    opening bracket around, [[IP]] becomes the address of the container,
    or the server's host when it has none, and [[PORT:n]] the text chosen
    for the port; the rest is kept.  The text for the port is the host
    port of the first mapping whose container port is [n], and the
    number itself when no mapping has [n] as container or host port. *)
Theorem X30_template_is_filled (Number : string → num)
    (numberToString : num → string) (UNRAID_HOST : option string)
    (pre mid post ipTok portTok n : string)
    (ports : list PortMapping) (containerIp : option string) :
  let ip := str_or containerIp (str_or UNRAID_HOST "localhost") in
  let portText := portReplacement Number numberToString ports n in
  Js.toLowerCase ipTok = "[ip]" → Js.toLowerCase portTok = "[port:" →
  run_of Js.is_digit n →
  JsStr.has "[" pre = false → JsStr.has "[" mid = false →
  JsStr.has "[" post = false →
  JsStr.has "[" ip = false → JsStr.has "$" ip = false →
  applyDockerTemplate Number numberToString UNRAID_HOST
    (Some (pre +:+ ipTok +:+ mid +:+ portTok +:+ n +:+ "]" +:+ post))
    ports containerIp
  = Some (pre +:+ ip +:+ mid +:+ portText +:+ post)
  ∧ (∀ mapping hp,
       isFinite (Number n) = true →
       List.find (λ p, strict_eq (NumberOf Number (containerPort p)) (Number n))
                 ports = Some mapping →
       hostPort mapping = Some hp → hp ≠ "" →
       portText = hp)
  ∧ (isFinite (Number n) = true →
     Forall (λ p, strict_eq (NumberOf Number (containerPort p)) (Number n) = false
                  ∧ strict_eq (NumberOf Number (hostPort p)) (Number n) = false)
            ports →
     portText = numberToString (Number n)).
Proof.
  intros ip portText Hip Hport Hn Hpre Hmid Hpost Hipb Hipd.
  split; [|split].
  - unfold applyDockerTemplate. fold ip.
    rewrite (truthy_nonempty (pre +:+ ipTok +:+ _)).
    2:{ destruct (ip_token ipTok Hip) as (i & p & -> & _).
        destruct pre; [done|]. by rewrite app_cons_s. }
    cbn [negb]. f_equal. unfold replaceAll.
    rewrite (ip_pass ip pre ipTok _ "" Hip Hpre Hipd).
    rewrite (replace_plain ip_re 0 _ ip_re_head mid _ _ Hmid).
    rewrite (ip_pass_port ip portTok (n +:+ "]" +:+ post) _ Hport).
    2:{ rewrite has_app, has_app, Hpost, orb_false_r.
        destruct Hn as [_ Hnd].
        by rewrite (all_has Js.is_digit "[" n eq_refl Hnd). }
    rewrite (replace_plain port_tpl_re 1 _ port_tpl_re_head pre _ _ Hpre).
    rewrite (replace_plain port_tpl_re 1 _ port_tpl_re_head ip _ _ Hipb).
    rewrite (replace_plain port_tpl_re 1 _ port_tpl_re_head mid _ _ Hmid).
    change ("]" +:+ post) with (String "]" post).
    by rewrite (port_pass Number numberToString ports portTok n post _
                  Hport Hn Hpost).
  - intros mapping hp Hfin Hfind Hhp Hne. unfold portText, portReplacement.
    rewrite Hfin, Hfind, Hhp. cbn [negb str_or].
    by rewrite (truthy_nonempty hp Hne).
  - intros Hfin Hall. unfold portText, portReplacement. rewrite Hfin.
    cbn [negb].
    pose proof (find_all_false (A:=PortMapping)) as Hnone.
    rewrite (Hnone (λ p, strict_eq (NumberOf Number (containerPort p))
                                   (Number n)) ports).
    2:{ eapply Forall_impl; [exact Hall|]. by intros p [? _]. }
    rewrite (Hnone (λ p, strict_eq (NumberOf Number (hostPort p)) (Number n))
               ports).
    2:{ eapply Forall_impl; [exact Hall|]. by intros p [_ ?]. }
    done.
Qed.

Lemma X30_template_is_filled_witness :
  let ports := parseDockerPorts "0.0.0.0:8443->443/tcp, 0.0.0.0:8080->80/tcp" in
  applyDockerTemplate decimal (λ _, "NaN") (Some "192.168.1.207")
    (Some "http://[IP]:[PORT:80]/admin") ports None
  = Some "http://192.168.1.207:8080/admin".
Proof.
  intros ports.
  assert (run_of Js.is_digit "80") as Hn by (split; [done|reflexivity]).
  destruct (X30_template_is_filled decimal (λ _, "NaN") (Some "192.168.1.207")
              "http://" ":" "/admin" "[IP]" "[PORT:" "80" ports None
              eq_refl eq_refl Hn eq_refl eq_refl eq_refl eq_refl eq_refl)
    as (Hfill & Hfound & _).
  assert (ports = [mkPort (Some "0.0.0.0") (Some "8443") (Some "443")
                     (Some "tcp") "8443->443/tcp";
                   mkPort (Some "0.0.0.0") (Some "8080") (Some "80")
                     (Some "tcp") "8080->80/tcp"]) as Hports
    by (vm_compute; reflexivity).
  rewrite (Hfound (mkPort (Some "0.0.0.0") (Some "8080") (Some "80")
                     (Some "tcp") "8080->80/tcp") "8080") in Hfill.
  - exact Hfill.
  - reflexivity.
  - rewrite Hports. vm_compute. reflexivity.
  - reflexivity.
  - done.
Defined.
